(** * pydelphin [delphin/tdl.py]: TDL entities and parsers

    A shallow embedding of the classes and parsing functions of
    [src/delphin/tdl.py].  Python objects are values of the inductive type
    [obj]; methods that mutate [self] are computations in a small
    state-and-exception monad over the object's fields; functions that can
    raise return a [result].  A Python [str] is a [string]: a sequence of
    characters whose code points are below 256, the character [c] standing
    for the code point [nat_of_ascii c]; texts with other characters are
    outside the model. *)

From Stdlib Require Import String Ascii List Bool Arith Lia.
Import ListNotations.
Open Scope string_scope.

Set Implicit Arguments.
#[local] Set Warnings "-register-all".

(** ** Exceptions and the state-and-exception monad *)

Inductive exn : Type :=
| TdlError (msg : string)
| TdlParsingError (msg : string) (line_number : option nat)
    (identifier : option string)
| TypeError (msg : string)
| AttributeError (attr : string)
| NameError (name : string)
| KeyError (key : string)
| AssertionError
| IndexError
| StopIteration
| ValueError (msg : string)
| OutOfFuel.  (* not a Python exception: the bound of a recursion of the model was reached *)

Inductive result (A : Type) : Type :=
| Ok (a : A)
| Raise (e : exn).
Arguments Ok {A} a.
Arguments Raise {A} e.

(** A method body: it reads and writes the fields [S] of [self]; the state
    is kept when an exception is raised, as a Python object keeps the
    mutations made before a [raise]. *)
Definition M (S A : Type) : Type := S -> result A * S.

Definition ret {S A} (a : A) : M S A := fun s => (Ok a, s).
Definition raise {S A} (e : exn) : M S A := fun s => (Raise e, s).
Definition bind {S A B} (c : M S A) (k : A -> M S B) : M S B :=
  fun s => match c s with
           | (Ok a, s') => k a s'
           | (Raise e, s') => (Raise e, s')
           end.
Definition get_self {S} : M S S := fun s => (Ok s, s).
Definition put_self {S} (s : S) : M S unit := fun _ => (Ok tt, s).

Declare Scope py_scope.
Delimit Scope py_scope with py.
Notation "x <- c ;; k" := (bind c (fun x => k))
  (at level 61, c at next level, right associativity) : py_scope.
Notation "c ;; k" := (bind c (fun _ => k))
  (at level 61, right associativity) : py_scope.

Section ForLoop.
Variables (S A : Type) (body : A -> M S unit).

(** [for x in l: body(x)] *)
Fixpoint for_each (l : list A) : M S unit :=
  match l with
  | [] => ret tt
  | x :: l' => (body x ;; for_each l')%py
  end.

End ForLoop.

(** Binding in [result], for functions without a [self]. *)
Definition rbind {A B} (r : result A) (k : A -> result B) : result B :=
  match r with Ok a => k a | Raise e => Raise e end.
Notation "x <-- c ;;; k" := (rbind c (fun x => k))
  (at level 61, c at next level, right associativity) : py_scope.

(** ** Module constants *)

Definition LIST_TYPE := "*list*".
Definition EMPTY_LIST_TYPE := "*null*".
Definition LIST_HEAD := "FIRST".
Definition LIST_TAIL := "REST".
Definition DIFF_LIST_LIST := "LIST".
Definition DIFF_LIST_LAST := "LAST".

(** ** Python objects of the module *)

(** The instance fields of a [ConsList]; [V] is the type of stored values. *)
Record ConsList_ (V : Type) : Type := mkConsList
  { _avm : option (list (string * V));
    _last_path : string;
    terminated : bool;
    cl_docstring : option string }.
Arguments mkConsList {V}.

Inductive TdlClass : Type := CTdlDefinition | CTdlConsList | CTdlDiffList.

(** [_avm] is an insertion-ordered dict, or [None] after
    [ConsList.terminate] closed an empty list. *)
Inductive obj : Type :=
| PyNone
| PyStr (s : string)
| TypeIdentifier (s : string) (docstring : option string)
| String (s : string) (docstring : option string)
| Regex (s : string) (docstring : option string)
| AVM (avm : option (list (string * obj))) (docstring : option string)
| ConsList (self : ConsList_ obj)
| DiffList (avm : option (list (string * obj))) (docstring : option string)
| Coreference (identifier : option string) (docstring : option string)
| Conjunction (terms : list obj)
| TdlDefinition (cls : TdlClass) (supertypes : list string)
    (avm : option (list (string * obj))).

Definition featmap : Type := option (list (string * obj)).

(** [isinstance(o, Term)] *)
Definition is_Term (o : obj) : bool :=
  match o with
  | TypeIdentifier _ _ | String _ _ | Regex _ _ | AVM _ _ | ConsList _
  | DiffList _ _ | Coreference _ _ => true
  | _ => false
  end.

(** [isinstance(o, Conjunction)] *)
Definition is_Conjunction (o : obj) : bool :=
  match o with Conjunction _ => true | _ => false end.

(** [isinstance(o, String)] *)
Definition is_String (o : obj) : bool :=
  match o with String _ _ => true | _ => false end.

(** [isinstance(o, (TypeIdentifier, String, Regex))] *)
Definition is_TypeTerm (o : obj) : bool :=
  match o with
  | TypeIdentifier _ _ | String _ _ | Regex _ _ => true
  | _ => false
  end.

(** [isinstance(o, AVM)] *)
Definition is_AVM (o : obj) : bool :=
  match o with AVM _ _ | ConsList _ | DiffList _ _ => true | _ => false end.

(** ** [TypeTerm(Term, str)]: equality is that of [str]

    [TypeTerm.__new__] returns [str.__new__(cls, string)], and neither
    [Term] nor [TypeTerm] nor its three subclasses define [__eq__]: the
    comparison is [str.__eq__] on the text.  [as_str o] is the text of [o]
    when [o] is an instance of [str]. *)
Definition as_str (o : obj) : option string :=
  match o with
  | PyStr s | TypeIdentifier s _ | String s _ | Regex s _ => Some s
  | _ => None
  end.

(** [a == b] where [b] is an instance of [str]: an object that is not a
    [str] is never equal to one. *)
Definition eq_str (a : obj) (s : string) : bool :=
  match as_str a with
  | Some t => String.eqb t s
  | None => false
  end.

(** ** [Conjunction] *)

(** [Conjunction.add]; the state is [self._terms].  [term.terms] is a copy
    of the argument's list, so the loop runs over the terms the argument
    had when the call started. *)
Fixpoint add (term : obj) : M (list obj) unit :=
  match term with
  | Conjunction terms => for_each add terms
  | _ =>
      if is_Term term then fun _terms => (Ok tt, (_terms ++ [term])%list)
      else raise (TypeError "Not a Term or Conjunction")
  end.

(** [Conjunction.__init__(terms)] *)
Definition Conjunction_init (terms : list obj) : result obj :=
  match for_each add terms [] with
  | (Ok _, _terms) => Ok (Conjunction _terms)
  | (Raise e, _) => Raise e
  end.

(** [Conjunction.types] *)
Definition types (_terms : list obj) : list obj := filter is_TypeTerm _terms.

(** Name resolution inside [Conjunction.string]: the locals of the method,
    then the names bound at module level. *)
Definition module_globals : list string :=
  [ "re"; "deque"; "defaultdict"; "warnings"; "TdlError"; "TdlParsingError";
    "TdlWarning"; "FeatureStructure"; "LookaheadIterator"; "LIST_TYPE";
    "EMPTY_LIST_TYPE"; "LIST_HEAD"; "LIST_TAIL"; "DIFF_LIST_LIST";
    "DIFF_LIST_LAST"; "Term"; "TypeTerm"; "TypeIdentifier"; "String"; "Regex";
    "AVM"; "ConsList"; "DiffList"; "_collect_list_items"; "Coreference";
    "Conjunction"; "Type"; "InflRule"; "TdlDefinition"; "TdlConsList";
    "TdlDiffList"; "TdlType"; "TdlInflRule"; "_tdl_lex_re"; "_is_comment";
    "_peek"; "_next"; "_shift"; "_accumulate"; "_lex"; "_bounded";
    "_parse_tdl"; "_parse_tdl_affixes"; "_parse_tdl_conjunction";
    "_parse_tdl_term"; "_parse_tdl_feature_structure"; "_parse_tdl_list";
    "break_characters"; "_tdl_re"; "_tdl_start_comment_re";
    "_tdl_end_comment_re"; "tokenize"; "lex"; "_read_block"; "_nest_level";
    "_parse2"; "_parse"; "parse"; "_parse_typedef"; "_parse_affixes";
    "_parse_conjunction"; "_parse_docstring"; "_parse_avm"; "_parse_attr_val";
    "_parse_cons_list"; "_parse_diff_list"; "_parse_list";
    "_make_coreferences" ].

Definition lookup_name (name : string) (locals : list (string * obj))
  : result (option obj) :=
  match find (fun p => String.eqb (fst p) name) locals with
  | Some p => Ok (Some (snd p))
  | None =>
      if existsb (String.eqb name) module_globals then Ok None
      else Raise (NameError name)
  end.

(** [Conjunction.string]: the loop tests [isinstance(t, String)], and the
    loop variable is [term]. *)
Fixpoint string_loop (self : obj) (_terms : list obj) : result obj :=
  match _terms with
  | [] => Ok PyNone
  | term :: rest =>
      match lookup_name "t" [("self", self); ("term", term)] with
      | Raise e => Raise e
      | Ok t =>
          if match t with Some t' => is_String t' | None => false end
          then Ok term
          else string_loop self rest
      end
  end.

Definition Conjunction_string (_terms : list obj) : result obj :=
  string_loop (Conjunction _terms) _terms.

(** ** Feature structures *)

(** Insertion-ordered dict: lookup, and assignment that keeps the position
    of a key already present and appends a new key. *)
Fixpoint dict_get (k : string) (d : list (string * obj)) : option obj :=
  match d with
  | [] => None
  | (k', v) :: d' => if String.eqb k' k then Some v else dict_get k d'
  end.

Fixpoint dict_set (k : string) (v : obj) (d : list (string * obj))
  : list (string * obj) :=
  match d with
  | [] => [(k, v)]
  | (k', v') :: d' =>
      if String.eqb k' k then (k, v) :: d' else (k', v') :: dict_set k v d'
  end.

(** The [_avm] of an instance of [FeatureStructure]. *)
Definition as_fs (o : obj) : option featmap :=
  match o with
  | AVM a _ | DiffList a _ | TdlDefinition _ _ a => Some a
  | ConsList c => Some (_avm c)
  | _ => None
  end.

Definition with_fs (o : obj) (a : featmap) : obj :=
  match o with
  | AVM _ doc => AVM a doc
  | DiffList _ doc => DiffList a doc
  | TdlDefinition cls sup _ => TdlDefinition cls sup a
  | ConsList c =>
      ConsList (mkConsList a (_last_path c) (terminated c) (cl_docstring c))
  | _ => o
  end.

(** [AVM.default] and [TdlDefinition.default], the class methods. *)
Definition AVM_default : obj := AVM (Some []) None.
Definition TdlDefinition_default : obj := TdlDefinition CTdlDefinition [] (Some []).

Definition default_of (o : obj) : obj :=
  match o with
  | TdlDefinition _ _ _ => TdlDefinition_default
  | _ => AVM_default
  end.

(** Modelled from the spec: [FeatureStructure.__setitem__] of [delphin/tfs.py],
    which is not among the sources.  The spec has an AVM as an ordered
    mapping from feature-path names to values in which a dotted path
    [A.B value] is the same as [A [ B value ]], and a [None] map as an
    explicitly closed structure.  So assignment at a dotted key descends
    one segment at a time, creating the class's [default()] structure where
    a segment is absent; a closed structure, or a value on the way that is
    not a feature structure, takes no assignment.  The key is read
    left to right; [acc] is the segment read so far. *)
Fixpoint setitem_from (default : obj) (acc key : string) (val : obj)
  : M featmap unit :=
  fun avm =>
  match key with
  | EmptyString =>
      match avm with
      | Some d => (Ok tt, Some (dict_set acc val d))
      | None => (Raise (TypeError "closed feature structure"), avm)
      end
  | String.String c rest =>
      if Ascii.eqb c "." then
        match avm with
        | None => (Raise (TypeError "closed feature structure"), avm)
        | Some d =>
            let subdef :=
              match dict_get acc d with Some o => o | None => default end in
            match as_fs subdef with
            | Some sub =>
                let (r, sub') :=
                  setitem_from (default_of subdef) "" rest val sub in
                (r, Some (dict_set acc (with_fs subdef sub') d))
            | None =>
                (Raise (TypeError "object does not support item assignment"),
                 avm)
            end
        end
      else setitem_from default (acc ++ String.String c "") rest val avm
  end.

Definition setitem (default : obj) (key : string) (val : obj) : M featmap unit :=
  setitem_from default "" key val.

(** Modelled from the spec: [FeatureStructure.__getitem__] of [delphin/tfs.py],
    which is not among the sources: the value at a dotted path, read one
    segment at a time; a path that leads nowhere is a [KeyError].  In the
    closed structure [_avm] is Python's [None], as [ConsList.terminate]
    sets it, and reading a feature of it subscripts [None], which raises
    [TypeError]. *)
Fixpoint getitem_from (acc key : string) (avm : featmap) : result obj :=
  let lookup :=
    match avm with
    | Some d =>
        match dict_get acc d with
        | Some v => Ok v
        | None => Raise (KeyError acc)
        end
    | None => Raise (TypeError "'NoneType' object is not subscriptable")
    end in
  match key with
  | EmptyString => lookup
  | String.String c rest =>
      if Ascii.eqb c "." then
        match lookup with
        | Ok v =>
            match as_fs v with
            | Some sub => getitem_from "" rest sub
            | None => Raise (TypeError "object is not subscriptable")
            end
        | Raise e => Raise e
        end
      else getitem_from (acc ++ String.String c "") rest avm
  end.

Definition getitem (key : string) (avm : featmap) : result obj :=
  getitem_from "" key avm.

(** Modelled from the spec: [FeatureStructure.get] of [delphin/tfs.py]: the
    value at [key], or [default] when the path leads nowhere; only the
    [KeyError] is caught, so on a closed structure the [TypeError] goes
    through. *)
Definition get (key : string) (default : obj) (avm : featmap) : result obj :=
  match getitem key avm with
  | Raise (KeyError _) => Ok default
  | r => r
  end.

(** [d.get(key)] and [d[key]] on an arbitrary object: only feature
    structures have the method. *)
Definition py_get (d : obj) (key : string) : result obj :=
  match as_fs d with
  | Some avm => get key PyNone avm
  | None => Raise (AttributeError "get")
  end.

Definition py_getitem (d : obj) (key : string) : result obj :=
  match as_fs d with
  | Some avm => getitem key avm
  | None => Raise (TypeError "object is not subscriptable")
  end.

(** Modelled from the spec: [FeatureStructure.__init__(featvals)] of
    [delphin/tfs.py]: an empty mapping, then one assignment per pair. *)
Definition FeatureStructure_init (default : obj) (featvals : list (string * obj))
  : result featmap :=
  match for_each (fun fv => setitem default (fst fv) (snd fv)) featvals (Some [])
  with
  | (Ok _, avm) => Ok avm
  | (Raise e, _) => Raise e
  end.

(** ** [ConsList] *)

Definition set_avm (a : featmap) : M (ConsList_ obj) unit :=
  fun self =>
    (Ok tt, mkConsList a (_last_path self) (terminated self) (cl_docstring self)).
Definition set_last_path (p : string) : M (ConsList_ obj) unit :=
  fun self =>
    (Ok tt, mkConsList (_avm self) p (terminated self) (cl_docstring self)).
Definition set_terminated (b : bool) : M (ConsList_ obj) unit :=
  fun self =>
    (Ok tt, mkConsList (_avm self) (_last_path self) b (cl_docstring self)).

(** [self[key] = val] on a [ConsList] *)
Definition self_setitem (key : string) (val : obj) : M (ConsList_ obj) unit :=
  fun self =>
    let (r, a) := setitem AVM_default key val (_avm self) in
    (r, mkConsList a (_last_path self) (terminated self) (cl_docstring self)).

Definition is_not_None {A} (o : option A) : bool :=
  match o with Some _ => true | None => false end.

(** Truth value of a [str] *)
Definition nonempty (s : string) : bool :=
  match s with EmptyString => false | _ => true end.

(** [ConsList.append] *)
Definition append (value : obj) : M (ConsList_ obj) unit :=
  (self <- get_self ;;
   if is_not_None (_avm self) && negb (terminated self) then
     let path := _last_path self in
     let path := if nonempty path then path ++ "." else path in
     self_setitem (path ++ LIST_HEAD) value ;;
     set_last_path (path ++ LIST_TAIL)
   else raise (TdlError "Cannot append to a closed list."))%py.

(** [ConsList.terminate] *)
Definition terminate (end_ : obj) : M (ConsList_ obj) unit :=
  (self <- get_self ;;
   (if nonempty (_last_path self) then
      let path := _last_path self ++ "." ++ LIST_TAIL in
      self_setitem path end_
    else if eq_str end_ EMPTY_LIST_TYPE then
      match _avm self with
      | Some [] => set_avm None
      | Some _ => raise AssertionError
      | None => raise (TypeError "object of type 'NoneType' has no len()")
      end
    else if eq_str end_ LIST_TYPE then ret tt
    else raise (TdlError "Empty list must be *list* or *null*")) ;;
   set_terminated (negb (eq_str end_ LIST_TYPE)))%py.

(** [ConsList.__init__(values, end, docstring)]; [values=None] is [[]]. *)
Definition ConsList_init (values : list obj) (end_ : obj)
  (docstring : option string) : result (ConsList_ obj) :=
  match (for_each append values ;; terminate end_)%py
          (mkConsList (Some []) "" false docstring) with
  | (Ok _, self) => Ok self
  | (Raise e, _) => Raise e
  end.

(** ** Collecting the items of a list structure *)

(** Nesting depth of an object, the bound on the recursion of
    [_collect_list_items]. *)
Fixpoint obj_depth (o : obj) : nat :=
  let entries (d : list (string * obj)) :=
    list_max (map (fun kv => obj_depth (snd kv)) d) in
  match o with
  | AVM (Some d) _ | DiffList (Some d) _ | TdlDefinition _ _ (Some d) =>
      S (entries d)
  | ConsList c =>
      match _avm c with Some d => S (entries d) | None => 1 end
  | Conjunction terms => S (list_max (map obj_depth terms))
  | _ => 1
  end.

(** [_collect_list_items(d)].  The recursion follows [d.get(LIST_TAIL)], so
    it is bounded by the depth of [d]; [fuel] is that bound. *)
Fixpoint _collect_list_items (fuel : nat) (d : obj)
  : result (list (string * obj)) :=
  match fuel with
  | 0 => Raise OutOfFuel
  | S fuel' =>
      match d with
      | PyNone => Ok []
      | _ =>
          (head <-- py_get d LIST_HEAD ;;;
           match head with
           | PyNone => Ok []
           | _ =>
               first <-- py_getitem d LIST_HEAD ;;;
               tail <-- py_get d LIST_TAIL ;;;
               items <-- _collect_list_items fuel' tail ;;;
               Ok ((LIST_HEAD, first)
                     :: map (fun pv => (LIST_TAIL ++ "." ++ fst pv, snd pv))
                          items)
           end)%py
      end
  end.

(** [ConsList.values] *)
Definition ConsList_values (self : ConsList_ obj) : result (list obj) :=
  (items <-- _collect_list_items (S (obj_depth (ConsList self))) (ConsList self) ;;;
   Ok (map snd items))%py.

(** ** [DiffList] *)

(** [dict.update] of an empty dict with the entries of [src] *)
Definition dict_update (d src : list (string * obj)) : list (string * obj) :=
  fold_left (fun acc kv => dict_set (fst kv) (snd kv) acc) src d.

(** [DiffList.__init__(values, docstring)] *)
Definition DiffList_init (values : list obj) (docstring : option string)
  : result obj :=
  let cr := Coreference None None in
  (dl_list <--
     match values with
     | _ :: _ =>
         tmplist <-- ConsList_init values cr None ;;;
         match _avm tmplist with
         | Some src => Ok (AVM (Some (dict_update [] src)) None)
         | None => Raise (TypeError "'NoneType' object is not iterable")
         end
     | [] => Conjunction_init [cr]
     end ;;;
   dl_last <-- Conjunction_init [cr] ;;;
   let featvals := [(DIFF_LIST_LIST, dl_list); (DIFF_LIST_LAST, dl_last)] in
   avm <-- FeatureStructure_init AVM_default featvals ;;;
   Ok (DiffList avm docstring))%py.

(** [DiffList.values] *)
Definition DiffList_values (self : obj) : result (list obj) :=
  (lst <-- py_get self "LIST" ;;;
   items <-- _collect_list_items (S (obj_depth lst)) lst ;;;
   Ok (map snd items))%py.

(** ** Shapes of list structures, used to state what the constructors build *)

(** [REST], [REST.REST], ...: the path of the [n]-th tail. *)
Fixpoint rest_path (n : nat) : string :=
  match n with
  | 0 => ""
  | 1 => LIST_TAIL
  | S n' => LIST_TAIL ++ "." ++ rest_path n'
  end.

(** [FIRST = v1, REST = [ FIRST = v2, REST = ... [ FIRST = vn, REST = [ tail ] ] ] ]];
    with no value it is [tail] itself. *)
Fixpoint list_chain (vs : list obj) (tail : list (string * obj))
  : list (string * obj) :=
  match vs with
  | [] => tail
  | v :: vs' =>
      [(LIST_HEAD, v); (LIST_TAIL, AVM (Some (list_chain vs' tail)) None)]
  end.

(** The chain after the appends and before [terminate]: the last level has
    [FIRST] only. *)
Fixpoint open_chain (vs : list obj) : list (string * obj) :=
  match vs with
  | [] => []
  | [v] => [(LIST_HEAD, v)]
  | v :: vs' => [(LIST_HEAD, v); (LIST_TAIL, AVM (Some (open_chain vs')) None)]
  end.

(** The values before the first [None]: [_collect_list_items] reads a
    [FIRST] that is [None] as the end of the list. *)
Fixpoint before_None (vs : list obj) : list obj :=
  match vs with
  | [] => []
  | PyNone :: _ => []
  | v :: vs' => v :: before_None vs'
  end.

(** A conjunction is flat when each of its terms is a [Term]. *)
Definition flat (_terms : list obj) : bool := forallb is_Term _terms.

(** A sequence of [add] calls on one conjunction, each call's exception
    caught by the caller. *)
Definition add_all (ops : list obj) (_terms : list obj) : list obj :=
  fold_left (fun s x => snd (add x s)) ops _terms.

(** ** The classes of the type terms

    The class statements of [Term], [TypeTerm], [TypeIdentifier], [String]
    and [Regex], and the built-in classes [str] and [object] that they
    rest on.  An attribute of an instance is looked up in the classes of
    the method resolution order of its class, Python's C3 linearization of
    the bases. *)
Inductive pyclass : Type :=
| Kobject | Kstr | KTerm | KTypeTerm | KTypeIdentifier | KString | KRegex.

Definition pyclass_eqb (a b : pyclass) : bool :=
  match a, b with
  | Kobject, Kobject | Kstr, Kstr | KTerm, KTerm | KTypeTerm, KTypeTerm
  | KTypeIdentifier, KTypeIdentifier | KString, KString | KRegex, KRegex => true
  | _, _ => false
  end.

(** [class Term(object)], [class TypeTerm(Term, str)],
    [class TypeIdentifier(TypeTerm)], [class String(TypeTerm)],
    [class Regex(TypeTerm)] *)
Definition bases (c : pyclass) : list pyclass :=
  match c with
  | Kobject => []
  | Kstr => [Kobject]
  | KTerm => [Kobject]
  | KTypeTerm => [KTerm; Kstr]
  | KTypeIdentifier | KString | KRegex => [KTypeTerm]
  end.

(** The methods that the body of each class statement defines: [Term] has
    [__init__] and [__repr__], [TypeTerm] has [__new__] and [__init__], and
    the bodies of the three subclasses are [pass].  For [str] and [object]
    these are the methods of the built-in class among those looked up
    here. *)
Definition class_body (c : pyclass) : list string :=
  match c with
  | Kobject => ["__new__"; "__init__"; "__eq__"; "__ne__"; "__hash__"; "__repr__"]
  | Kstr => ["__new__"; "__eq__"; "__ne__"; "__hash__"; "__repr__"]
  | KTerm => ["__init__"; "__repr__"]
  | KTypeTerm => ["__new__"; "__init__"]
  | KTypeIdentifier | KString | KRegex => []
  end.

(** The C3 merge: the next class is the first head of a sequence that is in
    the tail of no sequence. *)
Definition in_tail (c : pyclass) (seq : list pyclass) : bool :=
  existsb (pyclass_eqb c) (tl seq).

Definition heads (seqs : list (list pyclass)) : list pyclass :=
  flat_map (fun seq => match seq with h :: _ => [h] | [] => [] end) seqs.

Definition drop_head (c : pyclass) (seq : list pyclass) : list pyclass :=
  match seq with
  | h :: t => if pyclass_eqb h c then t else seq
  | [] => []
  end.

Fixpoint c3_merge (fuel : nat) (seqs : list (list pyclass))
  : option (list pyclass) :=
  match fuel with
  | 0 => None
  | S fuel' =>
      match heads seqs with
      | [] => Some []
      | hs =>
          match find (fun c => forallb (fun seq => negb (in_tail c seq)) seqs) hs
          with
          | Some c =>
              option_map (cons c) (c3_merge fuel' (map (drop_head c) seqs))
          | None => None
          end
      end
  end.

Fixpoint all_some {A : Type} (l : list (option A)) : option (list A) :=
  match l with
  | [] => Some []
  | Some a :: l' => option_map (cons a) (all_some l')
  | None :: _ => None
  end.

(** [cls.__mro__]: the class, then the merge of the orders of its bases and
    of the list of the bases. *)
Fixpoint mro_within (fuel : nat) (c : pyclass) : option (list pyclass) :=
  match fuel with
  | 0 => None
  | S fuel' =>
      match all_some (map (mro_within fuel') (bases c)) with
      | Some orders =>
          option_map (cons c) (c3_merge 16 (orders ++ [bases c])%list)
      | None => None
      end
  end.

Definition mro (c : pyclass) : list pyclass :=
  match mro_within 4 c with
  | Some order => order
  | None => []
  end.

(** The class in which the attribute [name] of an instance of [c] is
    found. *)
Definition lookup (c : pyclass) (name : string) : option pyclass :=
  find (fun k => existsb (String.eqb name) (class_body k)) (mro c).

(** [issubclass(c, k)] *)
Definition issubclass (c k : pyclass) : bool :=
  existsb (pyclass_eqb k) (mro c).

(** The three subclasses of [TypeTerm], and [cls(string, docstring)]:
    [TypeTerm.__new__] returns [str.__new__(cls, string)], an instance of
    [cls] whose text is [string], and [TypeTerm.__init__] passes the
    docstring to [Term.__init__], which sets the attribute. *)
Inductive TypeTermClass : Type := CTypeIdentifier | CString | CRegex.

Definition pyclass_of (cls : TypeTermClass) : pyclass :=
  match cls with
  | CTypeIdentifier => KTypeIdentifier
  | CString => KString
  | CRegex => KRegex
  end.

Definition TypeTerm_new (cls : TypeTermClass) (text : string)
  (docstring : option string) : obj :=
  match cls with
  | CTypeIdentifier => TypeIdentifier text docstring
  | CString => String text docstring
  | CRegex => Regex text docstring
  end.

(** [type(o)], for a plain [str] and for the type terms. *)
Definition class_of (o : obj) : option pyclass :=
  match o with
  | PyStr _ => Some Kstr
  | TypeIdentifier _ _ => Some KTypeIdentifier
  | String _ _ => Some KString
  | Regex _ _ => Some KRegex
  | _ => None
  end.

(** [o.docstring], for the objects that have the attribute. *)
Definition docstring_of (o : obj) : option (option string) :=
  match o with
  | TypeIdentifier _ d | String _ d | Regex _ d | AVM _ d | DiffList _ d
  | Coreference _ d => Some d
  | ConsList c => Some (cl_docstring c)
  | _ => None
  end.

(** What a rich comparison method returns: a truth value, or
    [NotImplemented]. *)
Inductive answer : Type :=
| Answer (b : bool)
| NotImplemented.

(** [str.__eq__(a, b)]: the texts are compared when both objects are
    instances of [str], of whatever subclass. *)
Definition str___eq__ (a b : obj) : answer :=
  match as_str a, as_str b with
  | Some s, Some t => Answer (String.eqb s t)
  | _, _ => NotImplemented
  end.

(** The [__eq__] found in the class [k].  [object.__eq__] answers [True]
    for an object and itself and [NotImplemented] otherwise; the objects
    here are values, without identity, and only the second answer is
    kept. *)
Definition call___eq__ (k : pyclass) (a b : obj) : answer :=
  match k with
  | Kstr => str___eq__ a b
  | _ => NotImplemented
  end.

(** [a == b].  The [__eq__] of the class of [a] is called, after the one of
    the class of [b] when that class is a proper subclass of the class of
    [a] and finds another [__eq__]; when a method answers [NotImplemented]
    the other one is called, and when both do the objects are compared by
    identity, which the values do not have: the result is then [None]. *)
Definition py_eq (a b : obj) : option bool :=
  match class_of a, class_of b with
  | Some ka, Some kb =>
      match lookup ka "__eq__", lookup kb "__eq__" with
      | Some ma, Some mb =>
          let reflected_first :=
            negb (pyclass_eqb ka kb) && issubclass kb ka
            && negb (pyclass_eqb ma mb) in
          let first :=
            if reflected_first then call___eq__ mb b a
            else call___eq__ ma a b in
          match first with
          | Answer r => Some r
          | NotImplemented =>
              match (if reflected_first then call___eq__ ma a b
                     else call___eq__ mb b a) with
              | Answer r => Some r
              | NotImplemented => None
              end
          end
      | _, _ => None
      end
  | _, _ => None
  end.

(** ** The token-stream parser *)

(** A token of [_lex]: [(gid, token, line_number)]. *)
Definition Token : Type := nat * string * nat.

Definition tok_gid (t : Token) : nat := fst (fst t).

(** [_is_comment] *)
Definition _is_comment (data : Token) : bool :=
  ((2 <=? tok_gid data) && (tok_gid data <=? 3))%nat.

Definition lift {S A} (r : result A) : M S A := fun s => (r, s).

Notation "' pat <- c ;; k" :=
  (bind c (fun x => match x with pat => k end))
  (at level 61, pat pattern, c at next level, right associativity) : py_scope.

(** Modelled from the spec: [LookaheadIterator.next] of [delphin/util.py],
    which is not among the sources, called without [skip].  The spec has
    the parser read a lazy sequence of tokens, of which the remaining
    stream is the state; the end of the stream is [StopIteration]. *)
Definition tokens_next : M (list Token) Token :=
  fun ts =>
    match ts with
    | [] => (Raise StopIteration, ts)
    | t :: ts' => (Ok t, ts')
    end.

(** Modelled from the spec: [LookaheadIterator.next(skip=_is_comment)]:
    the spec has comments skipped and never seen by the grammar rules. *)
Fixpoint tokens_next_skip (ts : list Token) : result Token * list Token :=
  match ts with
  | [] => (Raise StopIteration, ts)
  | t :: ts' => if _is_comment t then tokens_next_skip ts' else (Ok t, ts')
  end.

(** Modelled from the spec:
    [LookaheadIterator.peek(n=n, skip=_is_comment, drop=True)]: the spec
    has the grammar look one significant token ahead, so the [n]-th token
    that is not a comment is returned and stays in the stream, the comments
    met on the way are dropped, and the end of the input inside a
    definition is an error. *)
Fixpoint tokens_peek (n : nat) (ts : list Token) : result Token * list Token :=
  match ts with
  | [] => (Raise StopIteration, ts)
  | t :: ts' =>
      if _is_comment t then tokens_peek n ts'
      else
        match n with
        | 0 => (Ok t, ts)
        | S n' => let (r, ts'') := tokens_peek n' ts' in (r, t :: ts'')
        end
  end.

(** [tokens._buffer.popleft()], on the deque that holds the stream. *)
Definition buffer_popleft : M (list Token) Token :=
  fun ts =>
    match ts with
    | [] => (Raise IndexError, ts)
    | t :: ts' => (Ok t, ts')
    end.

(** [_peek], [_next] and [_shift] *)
Definition _peek (n : nat) : M (list Token) Token := tokens_peek n.

Definition _next : M (list Token) Token := tokens_next_skip.

Definition _shift : M (list Token) (nat * string * nat * nat) :=
  (after <- tokens_peek 1 ;;
   '(gid, token, line_no) <- buffer_popleft ;;
   ret (gid, token, line_no, tok_gid after))%py.

(** Python's white space, [str.isspace], on the characters of the model:
    the code points 9 to 13, 28 to 32, 133 (next line) and 160 (no-break
    space).  Then [s.split(None, 1)]: the first word, and what follows it
    without its leading white space. *)
Definition is_space (c : ascii) : bool :=
  let n := nat_of_ascii c in
  ((9 <=? n) && (n <=? 13) || (28 <=? n) && (n <=? 32)
   || (n =? 133) || (n =? 160))%nat.

Fixpoint lstrip (s : string) : string :=
  match s with
  | String.String c s' => if is_space c then lstrip s' else s
  | EmptyString => s
  end.

Fixpoint first_word (s : string) : string * string :=
  match s with
  | EmptyString => ("", "")
  | String.String c s' =>
      if is_space c then ("", s)
      else let (w, r) := first_word s' in (String.String c w, r)
  end.

Definition split_None_1 (s : string) : list string :=
  match lstrip s with
  | EmptyString => []
  | s1 =>
      let (w, r) := first_word s1 in
      match lstrip r with
      | EmptyString => [w]
      | r' => [w; r']
      end
  end.

(** [_parse_tdl_affixes]; the loop is [affixes_loop], bounded by [fuel]. *)
Fixpoint affixes_loop (fuel : nat) (affixes : list (string * string))
  (nextgid : nat) : M (list Token) (list (string * string)) :=
  match fuel with
  | 0 => raise OutOfFuel
  | S fuel' =>
      if (nextgid =? 22)%nat then
        ('(gid, token, line_no, nextgid) <- _shift ;;
         match split_None_1 token with
         | [match_; replacement] =>
             affixes_loop fuel' (affixes ++ [(match_, replacement)])%list nextgid
         | _ => raise (ValueError "wrong number of values to unpack")
         end)%py
      else ret affixes
  end.

Definition _parse_tdl_affixes (fuel : nat)
  : M (list Token) (string * list (string * string)) :=
  ('(gid, token, line_no, nextgid) <- _shift ;;
   if negb (gid =? 21)%nat then raise AssertionError
   else
     let affixtype := token in
     affixes <- affixes_loop fuel [] nextgid ;;
     ret (affixtype, affixes))%py.

(** [AVM.__init__(featvals, docstring)] *)
Definition AVM_init (featvals : list (string * obj)) (docstring : option string)
  : result obj :=
  (avm <-- FeatureStructure_init AVM_default featvals ;;;
   Ok (AVM avm docstring))%py.

(** ['.'.join(path)] *)
Fixpoint join_dot (path : list string) : string :=
  match path with
  | [] => ""
  | [p] => p
  | p :: path' => p ++ "." ++ join_dot path'
  end.

(** The inner loop of [_parse_tdl_feature_structure] that reads a dotted
    attribute path; it also leaves the line number of the last token read. *)
Fixpoint path_loop (fuel : nat) (path : list string) (line_no nextgid : nat)
  : M (list Token) (list string * nat * nat) :=
  match fuel with
  | 0 => raise OutOfFuel
  | S fuel' =>
      if (nextgid =? 10)%nat then
        (_ <- tokens_next ;;
         '(gid, token, line_no, nextgid) <- _shift ;;
         if negb (gid =? 24)%nat then raise AssertionError
         else path_loop fuel' (path ++ [token])%list line_no nextgid)%py
      else ret (path, line_no, nextgid)
  end.

Definition is_None (o : obj) : bool :=
  match o with PyNone => true | _ => false end.

(** [_parse_tdl_conjunction], [_parse_tdl_term],
    [_parse_tdl_feature_structure] and [_parse_tdl_list], with their
    [while True] loops as functions of their own.  Every call and every
    turn of a loop takes one unit of [fuel].  The two warnings
    ([TdlWarning]) are not raised and are left out. *)
Fixpoint _parse_tdl_conjunction (fuel : nat) : M (list Token) (obj * nat) :=
  match fuel with
  | 0 => raise OutOfFuel
  | S fuel' =>
      ('(terms, nextgid) <- conjunction_loop fuel' [] ;;
       c <- lift (Conjunction_init terms) ;;
       ret (c, nextgid))%py
  end

with conjunction_loop (fuel : nat) (terms : list obj)
  : M (list Token) (list obj * nat) :=
  match fuel with
  | 0 => raise OutOfFuel
  | S fuel' =>
      ('(term, nextgid) <- _parse_tdl_term fuel' ;;
       let terms := (terms ++ [term])%list in
       if (nextgid =? 11)%nat then
         _ <- tokens_next ;; conjunction_loop fuel' terms
       else ret (terms, nextgid))%py
  end

with _parse_tdl_term (fuel : nat) : M (list Token) (obj * nat) :=
  match fuel with
  | 0 => raise OutOfFuel
  | S fuel' =>
      ('(gid, token, line_no, nextgid) <- _shift ;;
       '(doc, gid, token, line_no, nextgid) <-
         (if (gid =? 1)%nat then
            '(gid', token', line_no', nextgid') <- _shift ;;
            ret (Some token, gid', token', line_no', nextgid')
          else ret (None, gid, token, line_no, nextgid)) ;;
       if (gid =? 4)%nat then ret (String token doc, nextgid)
       else if (gid =? 5)%nat then ret (TypeIdentifier token doc, nextgid)
       else if (gid =? 6)%nat then ret (Regex token doc, nextgid)
       else if (gid =? 13)%nat then
         '(featvals, nextgid) <- _parse_tdl_feature_structure fuel' ;;
         term <- lift (AVM_init featvals doc) ;;
         ret (term, nextgid)
       else if (gid =? 14)%nat then
         '(values, _, nextgid) <- _parse_tdl_list fuel' 17 ;;
         term <- lift (DiffList_init values doc) ;;
         ret (term, nextgid)
       else if (gid =? 15)%nat then
         '(values, end_, nextgid) <- _parse_tdl_list fuel' 18 ;;
         term <- lift (ConsList_init values end_ doc) ;;
         ret (ConsList term, nextgid)
       else if (gid =? 19)%nat then ret (Coreference (Some token) doc, nextgid)
       else if (gid =? 24)%nat then ret (TypeIdentifier token doc, nextgid)
       else raise (TdlParsingError "Expected a TDL conjunction term."
                     (Some line_no) None))%py
  end

with _parse_tdl_feature_structure (fuel : nat)
  : M (list Token) (list (string * obj) * nat) :=
  match fuel with
  | 0 => raise OutOfFuel
  | S fuel' =>
      ('(gid, token, line_no, nextgid) <- _shift ;;
       '(feats, gid, nextgid) <-
         (if negb (gid =? 16)%nat then
            feature_loop fuel' [] gid token line_no nextgid
          else ret ([], gid, nextgid)) ;;
       if negb (gid =? 16)%nat then raise AssertionError
       else ret (feats, nextgid))%py
  end

with feature_loop (fuel : nat) (feats : list (string * obj))
  (gid : nat) (token : string) (line_no nextgid : nat)
  : M (list Token) (list (string * obj) * nat * nat) :=
  match fuel with
  | 0 => raise OutOfFuel
  | S fuel' =>
      if negb (gid =? 24)%nat then
        raise (TdlParsingError "Expected a feature name" (Some line_no) None)
      else
        ('(path, line_no, nextgid) <- path_loop fuel' [token] line_no nextgid ;;
         let attr := join_dot path in
         '(conjunction, nextgid) <- _parse_tdl_conjunction fuel' ;;
         let feats := (feats ++ [(attr, conjunction)])%list in
         if (nextgid =? 12)%nat then
           _ <- tokens_next ;;
           '(gid, token, line_no, nextgid) <- _shift ;;
           feature_loop fuel' feats gid token line_no nextgid
         else if (nextgid =? 16)%nat then
           '(gid, _, _, nextgid) <- _shift ;;
           ret (feats, gid, nextgid)
         else raise (TdlParsingError "Expected: , or ]" (Some line_no) None))%py
  end

with _parse_tdl_list (fuel : nat) (break_gid : nat)
  : M (list Token) (list obj * obj * nat) :=
  match fuel with
  | 0 => raise OutOfFuel
  | S fuel' =>
      (tok <- _peek 0 ;;
       let nextgid := tok_gid tok in
       '(values, end_, nextgid) <-
         (if (nextgid =? break_gid)%nat then
            '(_, _, _, nextgid) <- _shift ;;
            ret ([], PyNone, nextgid)
          else
            '(values, end_, nextgid) <- list_loop fuel' break_gid [] nextgid ;;
            '(gid, _, line_no, nextgid) <- _shift ;;
            if negb (gid =? break_gid)%nat then
              raise (TdlParsingError "Expected: end of list" (Some line_no) None)
            else ret (values, end_, nextgid)) ;;
       let end_ :=
         if (length values =? 0)%nat && is_None end_
         then PyStr EMPTY_LIST_TYPE else end_ in
       ret (values, end_, nextgid))%py
  end

with list_loop (fuel : nat) (break_gid : nat) (values : list obj) (nextgid : nat)
  : M (list Token) (list obj * obj * nat) :=
  match fuel with
  | 0 => raise OutOfFuel
  | S fuel' =>
      if (nextgid =? 9)%nat then
        ('(_, _, _, nextgid) <- _shift ;;
         ret (values, PyStr LIST_TYPE, nextgid))%py
      else
        ('(term, nextgid) <- _parse_tdl_conjunction fuel' ;;
         let values := (values ++ [term])%list in
         if (nextgid =? 10)%nat then
           _ <- tokens_next ;;
           '(end_, nextgid) <- _parse_tdl_conjunction fuel' ;;
           ret (values, end_, nextgid)
         else if (nextgid =? break_gid)%nat then ret (values, PyNone, nextgid)
         else if (nextgid =? 12)%nat then
           '(_, _, _, nextgid) <- _shift ;;
           list_loop fuel' break_gid values nextgid
         else raise (TdlParsingError "Expected: comma or end of list" None None))%py
  end.

(** ** Top-level definitions *)

(** [Type]: a top-level conjunction with an identifier. *)
Record Type_ : Type := mkType
  { identifier : string;
    conjunction : obj;
    coreferences : list (option string * list string);
    docstring : option string }.

(** [Type.__init__(identifier, conjunction, coreferences=None, docstring=None)] *)
Definition Type_init (identifier : string) (conjunction : obj) : Type_ :=
  mkType identifier conjunction [] None.

(** [Type.supertypes] *)
Definition Type_supertypes (t : Type_) : list obj :=
  match conjunction t with
  | Conjunction _terms => types _terms
  | _ => []
  end.

(** [TdlType]: the top-level object of the older classes. *)
Record TdlType_ : Type := mkTdlType
  { tt_identifier : string;
    tt_definition : obj;
    tt_coreferences : list (option string * list string);
    tt_docstring : list string;
    tt_supertypes : list string;
    tt_avm : featmap }.

(** [TdlType.__init__(identifier, definition, coreferences, docstring)]: it
    reads [definition.supertypes] and [definition._avm.items()], which only
    a [TdlDefinition] has. *)
Definition TdlType_init (identifier : string) (definition : obj)
  (coreferences : list (option string * list string)) (docstring : list string)
  : result TdlType_ :=
  match definition with
  | TdlDefinition _ supertypes avm =>
      match avm with
      | Some items =>
          (avm' <-- FeatureStructure_init TdlDefinition_default items ;;;
           Ok (mkTdlType identifier definition coreferences docstring
                 supertypes avm'))%py
      | None => Raise (AttributeError "items")
      end
  | _ => Raise (AttributeError "supertypes")
  end.

(** [InflRule(Type)]; its [__init__] calls [TdlType.__init__] with the
    conjunction, then sets [affix_type] and [affix]. *)
Record InflRule_ : Type := mkInflRule
  { ir_base : TdlType_;
    affix_type : string;
    affix : list (string * string);
    ir_docstring : option string }.

Definition InflRule_init (identifier affix_type : string)
  (affix : list (string * string)) (terms : obj) : result InflRule_ :=
  (base <-- TdlType_init identifier terms [] [] ;;;
   Ok (mkInflRule base affix_type affix None))%py.

(** What [_parse_tdl] yields: the tuples for comments and letter-sets, and
    the definitions. *)
Inductive event : Type :=
| EvTuple (line_no : nat) (kind : string) (data : string)
| EvType (t : Type_)
| EvInflRule (r : InflRule_).

Definition set_docstring (ev : event) (doc : string) : event :=
  match ev with
  | EvType t =>
      EvType (mkType (identifier t) (conjunction t) (coreferences t) (Some doc))
  | EvInflRule r =>
      EvInflRule (mkInflRule (ir_base r) (affix_type r) (affix r) (Some doc))
  | _ => ev
  end.

(** The branch [gid == 24] of the loop of [_parse_tdl]: one definition,
    from the operator to the dot. *)
Definition parse_definition (fuel : nat) (identifier : string)
  : M (list Token) event :=
  ('(gid, token, line_no, nextgid) <- _shift ;;
   '(obj, nextgid) <-
     (if (gid =? 7)%nat && (nextgid =? 21)%nat then
        '(atype, affs) <- _parse_tdl_affixes fuel ;;
        '(conjunction, nextgid) <- _parse_tdl_conjunction fuel ;;
        rule <- lift (InflRule_init identifier atype affs conjunction) ;;
        ret (EvInflRule rule, nextgid)
      else if (gid =? 7)%nat || (gid =? 8)%nat then
        '(conjunction, nextgid) <-
          (if (nextgid =? 1)%nat then
             after <- _peek 1 ;;
             if (tok_gid after =? 10)%nat then
               c <- lift (Conjunction_init []) ;; ret (c, nextgid)
             else _parse_tdl_conjunction fuel
           else _parse_tdl_conjunction fuel) ;;
        ret (EvType (Type_init identifier conjunction), nextgid)
      else raise (TdlParsingError "Expected: := or :+" (Some line_no) None)) ;;
   '(obj, nextgid) <-
     (if (nextgid =? 1)%nat then
        '(_, token, _, nextgid) <- _shift ;;
        ret (set_docstring obj token, nextgid)
      else ret (obj, nextgid)) ;;
   if negb (nextgid =? 10)%nat then
     raise (TdlParsingError "Expected: ." (Some line_no) None)
   else
     _ <- tokens_next ;; ret obj)%py.

(** The loop of the generator [_parse_tdl]: the events yielded, and the
    exception that ends the generator, if any. *)
Fixpoint _parse_tdl_loop (fuel : nat) (tokens : list Token)
  : list event * option exn :=
  match fuel with
  | 0 => ([], Some OutOfFuel)
  | S fuel' =>
      match tokens_next tokens with
      | (Raise _, _) => ([], None)
      | (Ok (gid, token, line_no), tokens) =>
          let yield (ev : event) (tokens : list Token) :=
            let (evs, e) := _parse_tdl_loop fuel' tokens in (ev :: evs, e) in
          if (gid =? 2)%nat then yield (EvTuple line_no "BLOCKCOMMENT" token) tokens
          else if (gid =? 3)%nat then yield (EvTuple line_no "LINECOMMENT" token) tokens
          else if (gid =? 20)%nat then yield (EvTuple line_no "LETTERSET" token) tokens
          else if (gid =? 24)%nat then
            match parse_definition fuel' token tokens with
            | (Ok obj, tokens) => yield obj tokens
            | (Raise e, _) => ([], Some e)
            end
          else
            ([], Some (TdlParsingError
                         ("Syntax error; unexpected token: " ++ token)
                         (Some line_no) None))
      end
  end.

(** [_parse_tdl]: [StopIteration] inside a definition becomes a parsing
    error. *)
Definition _parse_tdl (fuel : nat) (tokens : list Token)
  : list event * option exn :=
  match _parse_tdl_loop fuel tokens with
  | (evs, Some StopIteration) =>
      (evs, Some (TdlParsingError "Unexpected end of input." None None))
  | r => r
  end.

(** A bound on the calls and loop turns that a stream can cause: each of
    them reads a token within a few steps. *)
Definition parse_fuel (tokens : list Token) : nat := 8 * length tokens + 8.

(** ** The older parser, on blocks of token strings

    [parse] uses it by default ([_parsefunc=_parse]).  The state is the
    deque of the tokens of one block. *)

Definition popleft : M (list string) string :=
  fun tokens =>
    match tokens with
    | [] => (Raise IndexError, tokens)
    | t :: tokens' => (Ok t, tokens')
    end.

(** [tokens[0]] *)
Definition tokens0 : M (list string) string :=
  fun tokens =>
    match tokens with
    | [] => (Raise IndexError, tokens)
    | t :: _ => (Ok t, tokens)
    end.

(** [tokens[1]] *)
Definition tokens1 : M (list string) string :=
  fun tokens =>
    match tokens with
    | _ :: t :: _ => (Ok t, tokens)
    | _ => (Raise IndexError, tokens)
    end.

Definition appendleft (t : string) : M (list string) unit :=
  fun tokens => (Ok tt, t :: tokens).

(** [assert b] *)
Definition assert {S} (b : bool) : M S unit :=
  if b then ret tt else raise AssertionError.

(** [str.startswith], [str.endswith], [s[3:-3]] and [str.replace] *)
Definition startswith (s p : string) : bool := String.prefix p s.

Definition endswith (s p : string) : bool :=
  (String.length p <=? String.length s)%nat
  && String.eqb (substring (String.length s - String.length p) (String.length p) s) p.

Definition slice_3_m3 (s : string) : string :=
  substring 3 (String.length s - 3 - 3) s.

Fixpoint replace_from (skip : nat) (old new s : string) : string :=
  match s with
  | EmptyString => ""
  | String.String c s' =>
      match skip with
      | S k => replace_from k old new s'
      | 0 =>
          if String.prefix old s
          then new ++ replace_from (String.length old - 1) old new s'
          else String.String c (replace_from 0 old new s')
      end
  end.

(** [s.replace(old, new)], for a non-empty [old] *)
Definition str_replace (s old new : string) : string := replace_from 0 old new s.

(** The double quote, and the three double quotes that open and close a
    docstring. *)
Definition dquote : ascii := ascii_of_nat 34.
Definition triple_quote : string :=
  String.String dquote (String.String dquote (String.String dquote "")).

(** The test of [_parse_conjunction] for a basic string value: the first
    character of [tokens[0]] is a single or a double quote and the token
    does not start a docstring.  The first operand is a test for a substring
    of the two-character string of the quotes, which the empty string
    passes. *)
Definition is_basic_string (t : string) : bool :=
  match t with
  | EmptyString => true
  | String.String c _ =>
      (Ascii.eqb c "'" || Ascii.eqb c dquote)
      && negb (String.eqb (substring 0 3 t) triple_quote)
  end.

(** [_parse_docstring] *)
Definition _parse_docstring : M (list string) string :=
  (t <- tokens0 ;;
   assert (endswith t triple_quote) ;;
   t <- popleft ;;
   ret (slice_3_m3 t))%py.

(** A coreference record of the older parser: the tag and the paths, each a
    list of segments. *)
Definition coref : Type := option string * list (list string).

(** [[(c, [[path] + p for p in ps]) for c, ps in corefs]] *)
Definition prefix_corefs (path : string) (corefs : list coref) : list coref :=
  map (fun cps => (fst cps, map (fun p => path :: p) (snd cps))) corefs.

(** [TdlDefinition.__init__(supertypes, featvals)] for the class [cls];
    [featvals] may be [None]. *)
Definition TdlDefinition_init (cls : TdlClass) (supertypes : list string)
  (featvals : option (list (string * obj))) : result obj :=
  (avm <-- FeatureStructure_init TdlDefinition_default
             (match featvals with Some fv => fv | None => [] end) ;;;
   Ok (TdlDefinition cls supertypes avm))%py.

(** [t in ('>', '.', '...')], and [t in ('!>')], which is a test for a
    substring of the string [!>]. *)
Definition cons_break_on (t : string) : bool :=
  existsb (String.eqb t) [">"; "."; "..."].

Definition diff_break_on (t : string) : bool :=
  existsb (String.eqb t) [""; "!"; ">"; "!>"].

(** The loop of [_parse_attr_val] that reads a dotted path. *)
Fixpoint attr_path_loop (fuel : nat) (path : list string)
  : M (list string) (list string) :=
  match fuel with
  | 0 => raise OutOfFuel
  | S fuel' =>
      (t0 <- tokens0 ;;
       if String.eqb t0 "." then
         _ <- popleft ;;
         t <- popleft ;;
         attr_path_loop fuel' (path ++ [t])%list
       else ret path)%py
  end.

Definition is_CTdlDefinition (cls : TdlClass) : bool :=
  match cls with CTdlDefinition => true | _ => false end.

(** The message of the error for a dot after [&]. *)
Definition dot_after_amp_msg : string :=
  String.String dquote ("." ++ String.String dquote
                                 " cannot appear after & in conjunction.").

(** [_parse_conjunction], [_parse_avm], [_parse_attr_val],
    [_parse_cons_list], [_parse_diff_list] and [_parse_list], with their
    loops as functions of their own; every call and every turn of a loop
    takes one unit of [fuel].  A conjunction is returned as
    [(tdldef, coreferences, doc)]. *)
Fixpoint _parse_conjunction (fuel : nat)
  : M (list string) (obj * list coref * list string) :=
  match fuel with
  | 0 => raise OutOfFuel
  | S fuel' =>
      (tokens <- get_self ;;
       if match tokens with
          | t :: _ => is_basic_string t
          | [] => false
          end
       then t <- popleft ;; ret (PyStr t, [], [])
       else
         t0 <- tokens0 ;;
         only_doc <-
           (if startswith t0 triple_quote then
              t1 <- tokens1 ;; ret (String.eqb t1 ".")
            else ret false) ;;
         if only_doc then
           d <- _parse_docstring ;;
           tdldef <- lift (TdlDefinition_init CTdlDefinition [] None) ;;
           ret (tdldef, [], [d])
         else
           appendleft "&" ;;
           '(supertypes, features, coreferences, doc, cls) <-
             conjunction_terms fuel' [] (Some []) [] [] CTdlDefinition ;;
           tdldef <-
             (match features with
              | None =>
                  if is_CTdlDefinition cls then ret PyNone
                  else lift (TdlDefinition_init cls supertypes features)
              | Some _ => lift (TdlDefinition_init cls supertypes features)
              end) ;;
           ret (tdldef, coreferences, doc))%py
  end

with conjunction_terms (fuel : nat) (supertypes : list string)
  (features : option (list (string * obj))) (coreferences : list coref)
  (doc : list string) (cls : TdlClass)
  : M (list string)
      (list string * option (list (string * obj)) * list coref * list string
       * TdlClass) :=
  match fuel with
  | 0 => raise OutOfFuel
  | S fuel' =>
      (t0 <- tokens0 ;;
       if negb (String.eqb t0 "&") then
         ret (supertypes, features, coreferences, doc, cls)
       else
         _ <- popleft ;;
         t0 <- tokens0 ;;
         doc <-
           (if startswith t0 triple_quote then
              d <- _parse_docstring ;; ret (doc ++ [d])%list
            else ret doc) ;;
         t0 <- tokens0 ;;
         if String.eqb t0 "." then
           raise (TdlParsingError dot_after_amp_msg None None)
         else if startswith t0 "#" then
           t <- popleft ;;
           conjunction_terms fuel' supertypes features
             (coreferences ++ [(Some t, [[]])])%list doc cls
         else
           '(feats, corefs, supertypes, cls) <-
             (if String.eqb t0 "[" then
                '(f, c) <- _parse_avm fuel' ;;
                ret (Some f, c, supertypes, cls)
              else if String.eqb t0 "<" then
                '(f, c) <- _parse_cons_list fuel' ;;
                ret (f, c, supertypes, CTdlConsList)
              else if String.eqb t0 "<!" then
                '(f, c) <- _parse_diff_list fuel' ;;
                ret (Some f, c, supertypes, CTdlDiffList)
              else if negb (startswith t0 triple_quote) then
                t <- popleft ;;
                ret (Some [], [], (supertypes ++ [t])%list, cls)
              else ret (Some [], [], supertypes, cls)) ;;
           features <-
             (match feats with
              | None => ret None
              | Some f =>
                  match features with
                  | None => raise AssertionError
                  | Some fs => ret (Some (fs ++ f)%list)
                  end
              end) ;;
           conjunction_terms fuel' supertypes features
             (coreferences ++ corefs)%list doc cls)%py
  end

with _parse_avm (fuel : nat)
  : M (list string) (list (string * obj) * list coref) :=
  match fuel with
  | 0 => raise OutOfFuel
  | S fuel' =>
      (t <- popleft ;;
       assert (String.eqb t "[") ;;
       t0 <- tokens0 ;;
       (if negb (String.eqb t0 "]") then appendleft "," else ret tt) ;;
       '(features, coreferences) <- avm_loop fuel' [] [] ;;
       t <- popleft ;;
       assert (String.eqb t "]") ;;
       ret (features, coreferences))%py
  end

with avm_loop (fuel : nat) (features : list (string * obj))
  (coreferences : list coref)
  : M (list string) (list (string * obj) * list coref) :=
  match fuel with
  | 0 => raise OutOfFuel
  | S fuel' =>
      (t0 <- tokens0 ;;
       if String.eqb t0 "]" then ret (features, coreferences)
       else
         _ <- popleft ;;
         '(attrval, corefs) <- _parse_attr_val fuel' ;;
         avm_loop fuel' (features ++ [attrval])%list
           (coreferences ++ corefs)%list)%py
  end

with _parse_attr_val (fuel : nat)
  : M (list string) ((string * obj) * list coref) :=
  match fuel with
  | 0 => raise OutOfFuel
  | S fuel' =>
      (t <- popleft ;;
       path <- attr_path_loop fuel' [t] ;;
       let path := join_dot path in
       '(value, corefs, _) <- _parse_conjunction fuel' ;;
       ret ((path, value), prefix_corefs path corefs))%py
  end

with _parse_cons_list (fuel : nat)
  : M (list string) (option (list (string * obj)) * list coref) :=
  match fuel with
  | 0 => raise OutOfFuel
  | S fuel' =>
      (t <- popleft ;;
       assert (String.eqb t "<") ;;
       '(feats, last_path, coreferences) <- _parse_list fuel' cons_break_on ;;
       t0 <- tokens0 ;;
       '(feats, coreferences) <-
         (if String.eqb t0 "..." then
            _ <- popleft ;; ret (Some feats, coreferences)
          else if String.eqb t0 "." then
            _ <- popleft ;;
            '(tdldef, corefs, _) <- _parse_conjunction fuel' ;;
            ret (Some (feats ++ [(last_path, tdldef)])%list,
                 (coreferences ++ prefix_corefs last_path corefs)%list)
          else if (length feats =? 0)%nat then ret (None, coreferences)
          else ret (Some (feats ++ [(last_path, PyNone)])%list, coreferences)) ;;
       t <- popleft ;;
       assert (String.eqb t ">") ;;
       ret (feats, coreferences))%py
  end

with _parse_diff_list (fuel : nat)
  : M (list string) (list (string * obj) * list coref) :=
  match fuel with
  | 0 => raise OutOfFuel
  | S fuel' =>
      (t <- popleft ;;
       assert (String.eqb t "<!") ;;
       '(feats, last_path, coreferences) <- _parse_list fuel' diff_break_on ;;
       '(feats, last_path) <-
         (match feats with
          | [] =>
              d <- lift (TdlDefinition_init CTdlDefinition [] None) ;;
              ret ([(DIFF_LIST_LIST, d)], DIFF_LIST_LIST)
          | _ =>
              ret (map (fun pv => (DIFF_LIST_LIST ++ "." ++ fst pv, snd pv)) feats,
                   DIFF_LIST_LIST ++ "." ++ last_path)
          end) ;;
       d <- lift (TdlDefinition_init CTdlDefinition [] None) ;;
       let feats := (feats ++ [(DIFF_LIST_LAST, d)])%list in
       let coreferences :=
         (coreferences ++ [(None, [[last_path]; [DIFF_LIST_LAST]])])%list in
       t <- popleft ;;
       assert (String.eqb t "!>") ;;
       ret (feats, coreferences))%py
  end

with _parse_list (fuel : nat) (break_on : string -> bool)
  : M (list string) (list (string * obj) * string * list coref) :=
  match fuel with
  | 0 => raise OutOfFuel
  | S fuel' =>
      ('(feats, path, coreferences) <- list_items fuel' break_on [] [] LIST_HEAD ;;
       let path := str_replace path LIST_HEAD LIST_TAIL in
       ret (feats, path, coreferences))%py
  end

with list_items (fuel : nat) (break_on : string -> bool)
  (feats : list (string * obj)) (coreferences : list coref) (path : string)
  : M (list string) (list (string * obj) * string * list coref) :=
  match fuel with
  | 0 => raise OutOfFuel
  | S fuel' =>
      (t0 <- tokens0 ;;
       if break_on t0 then ret (feats, path, coreferences)
       else
         '(tdldef, corefs, _) <- _parse_conjunction fuel' ;;
         let feats := (feats ++ [(path, tdldef)])%list in
         let coreferences := (coreferences ++ prefix_corefs path corefs)%list in
         t0 <- tokens0 ;;
         if String.eqb t0 "," then
           let path := LIST_TAIL ++ "." ++ path in
           _ <- popleft ;;
           list_items fuel' break_on feats coreferences path
         else if String.eqb t0 "." then ret (feats, path, coreferences)
         else list_items fuel' break_on feats coreferences path)%py
  end.

(** [repr] of a [str] and of a list of [str].  The quote is the double
    quote when the text has a single quote and no double quote, and the
    single quote otherwise.  The backslash and the chosen quote are written
    after a backslash; tab, line feed and carriage return as [\t], [\n] and
    [\r]; every other character that is not printable, which among the code
    points below 256 are those below 32, 127 to 160 and 173, as [\x] and its
    two lower-case hexadecimal digits; every other character as it is. *)
Fixpoint has_char (c : ascii) (s : string) : bool :=
  match s with
  | EmptyString => false
  | String.String c' s' => Ascii.eqb c c' || has_char c s'
  end.

Definition hex_digit (n : nat) : ascii :=
  match String.get n "0123456789abcdef" with
  | Some d => d
  | None => "0"%char
  end.

Definition hex2 (n : nat) : string :=
  String.String (hex_digit (n / 16)) (String.String (hex_digit (n mod 16)) "").

Definition printable (n : nat) : bool :=
  ((32 <=? n) && (n <=? 126) || (161 <=? n) && negb (n =? 173))%nat.

Definition escape_char (q c : ascii) : string :=
  if Ascii.eqb c q || Ascii.eqb c "\" then String.String "\" (String.String c "")
  else
    let n := nat_of_ascii c in
    if (n =? 9)%nat then "\t"
    else if (n =? 10)%nat then "\n"
    else if (n =? 13)%nat then "\r"
    else if printable n then String.String c ""
    else "\x" ++ hex2 n.

Fixpoint escape (q : ascii) (s : string) : string :=
  match s with
  | EmptyString => ""
  | String.String c s' => escape_char q c ++ escape q s'
  end.

Definition repr_str (s : string) : string :=
  let q := if has_char "'" s && negb (has_char dquote s) then dquote else "'"%char in
  String.String q (escape q s ++ String.String q "").

Fixpoint join_comma (l : list string) : string :=
  match l with
  | [] => ""
  | [x] => x
  | x :: l' => x ++ ", " ++ join_comma l'
  end.

Definition repr_list (l : list string) : string :=
  "[" ++ join_comma (map repr_str l) ++ "]".

(** [str(cr)] for a tag or [None] *)
Definition str_of_tag (cr : option string) : string :=
  match cr with Some t => t | None => "None" end.

Definition newline : string := String.String (ascii_of_nat 10) "".

(** [merged[cr].extend(paths)] on the [defaultdict(list)], which keeps the
    order in which the tags were first met. *)
Fixpoint merged_extend (cr : string) (paths : list string)
  (merged : list (string * list string)) : list (string * list string) :=
  match merged with
  | [] => [(cr, paths)]
  | (k, v) :: merged' =>
      if String.eqb k cr then (k, (v ++ paths)%list) :: merged'
      else (k, v) :: merged_extend cr paths merged'
  end.

(** The first part of [_make_coreferences]: the paths joined with dots. *)
Definition joined_corefs (corefs : list coref)
  : list (option string * list string) :=
  map (fun cp => (fst cp, map join_dot (snd cp))) corefs.

(** The loop of [_make_coreferences] and the list it puts back together:
    the merged records in the order of their tags, then the unlabeled
    ones. *)
Definition merge_step
  (acc : list (string * list string) * list (option string * list string))
  (cp : option string * list string)
  : list (string * list string) * list (option string * list string) :=
  let (merged, unlabeled) := acc in
  match fst cp with
  | None => (merged, (unlabeled ++ [(None, snd cp)])%list)
  | Some cr => (merged_extend cr (snd cp) merged, unlabeled)
  end.

Definition merged_corefs (corefs : list (option string * list string))
  : list (option string * list string) :=
  let (merged, unlabeled) := fold_left merge_step corefs ([], []) in
  (map (fun kv => (Some (fst kv), snd kv)) merged ++ unlabeled)%list.

(** [len(paths) >= 2] *)
Definition two_paths (cp : option string * list string) : bool :=
  (2 <=? length (snd cp))%nat.

(** [_make_coreferences].  The error message is formatted from [cr] and
    [paths], which are the variables of the [for] loop: after the loop they
    hold the last record of the list. *)
Definition _make_coreferences (corefs : list coref)
  : result (list (option string * list string)) :=
  let corefs := joined_corefs corefs in
  let loop_vars := last (map Some corefs) None in
  let corefs := merged_corefs corefs in
  if forallb two_paths corefs then Ok corefs
  else
    match loop_vars with
    | Some (cr, paths) =>
        Raise (TdlError ("Solitary coreference: " ++ str_of_tag cr ++ newline
                           ++ repr_list paths))
    | None => Raise (NameError "cr")
    end.

(** [_parse_affixes]: the first turn of its loop raises, since
    [list.append] is called with two arguments, after they were popped. *)
Definition _parse_affixes : M (list string) (option (list (string * string))) :=
  (t0 <- tokens0 ;;
   if String.eqb t0 "%prefix" || String.eqb t0 "%suffix" then
     aff <- popleft ;;
     t0 <- tokens0 ;;
     if String.eqb t0 "(" then
       _ <- popleft ;;
       a <- popleft ;;
       b <- popleft ;;
       raise (TypeError "append() takes exactly one argument (2 given)")
     else ret (Some [])
   else ret None)%py.

(** [tdldef.supertypes] *)
Definition obj_supertypes (o : obj) : result (list string) :=
  match o with
  | TdlDefinition _ supertypes _ => Ok supertypes
  | _ => Raise (AttributeError "supertypes")
  end.

(** The body of the [try] of [_parse_typedef], after the identifier. *)
Definition typedef_body (fuel : nat) (identifier : string)
  : M (list string) TdlType_ :=
  (assignment <- popleft ;;
   affixes <- _parse_affixes ;;
   '(tdldef, corefs, doc) <- _parse_conjunction fuel ;;
   corefs <- lift (_make_coreferences corefs) ;;
   t0 <- tokens0 ;;
   doc <-
     (if startswith t0 triple_quote then
        d <- _parse_docstring ;; ret (doc ++ [d])%list
      else ret doc) ;;
   t <- popleft ;;
   assert (String.eqb t ".") ;;
   lacking <-
     (if negb (String.eqb assignment ":+") then
        supertypes <- lift (obj_supertypes tdldef) ;;
        ret (length supertypes =? 0)%nat
      else ret false) ;;
   if lacking then
     raise (TdlParsingError "Type definition requires supertypes." None None)
   else lift (TdlType_init identifier tdldef corefs doc))%py.

(** The [except] clauses of [_parse_typedef]. *)
Definition typedef_except (identifier : option string) (e : exn)
  (tokens : list string) : exn :=
  match e with
  | AssertionError =>
      TdlParsingError ("Remaining tokens: " ++ repr_list tokens) None identifier
  | StopIteration | IndexError =>
      TdlParsingError "Unexpected termination." None
        (Some (match identifier with
               | Some i => if nonempty i then i else "?"
               | None => "?"
               end))
  | _ => e
  end.

(** [_parse_typedef] *)
Definition _parse_typedef (fuel : nat) (tokens : list string) : result TdlType_ :=
  match popleft tokens with
  | (Raise e, tokens) => Raise (typedef_except None e tokens)
  | (Ok identifier, tokens) =>
      match typedef_body fuel identifier tokens with
      | (Ok t, _) => Ok t
      | (Raise e, tokens) => Raise (typedef_except (Some identifier) e tokens)
      end
  end.

Definition typedef_fuel (tokens : list string) : nat := 8 * length tokens + 8.

(** ** Further shapes, used to state what the functions compute *)

(** The terms of an object, conjunctions opened at every depth, in order. *)
Fixpoint flatten (o : obj) : list obj :=
  match o with
  | Conjunction terms => flat_map flatten terms
  | _ => [o]
  end.

(** An object that [Conjunction.add] accepts: a [Term], or a conjunction of
    such objects. *)
Fixpoint addable (o : obj) : bool :=
  match o with
  | Conjunction terms => forallb addable terms
  | _ => is_Term o
  end.

(** [FIRST], [REST.FIRST], [REST.REST.FIRST], ...: the path of the [i]-th
    item of a list structure. *)
Definition item_path (i : nat) : string :=
  match i with
  | 0 => LIST_HEAD
  | S _ => rest_path i ++ "." ++ LIST_HEAD
  end.

(** The paths recorded for the tag [cr], in the order of the records. *)
Definition paths_of_tag (cr : string) (corefs : list (option string * list string))
  : list string :=
  flat_map
    (fun cp =>
       match fst cp with
       | Some t => if String.eqb t cr then snd cp else []
       | None => []
       end)
    corefs.

(** The records without a tag, and whether a tag was recorded. *)
Definition unlabeled_corefs (corefs : list (option string * list string))
  : list (option string * list string) :=
  filter (fun cp => match fst cp with None => true | Some _ => false end) corefs.

Definition tag_recorded (cr : string) (corefs : list (option string * list string))
  : bool :=
  existsb
    (fun cp => match fst cp with Some t => String.eqb t cr | None => false end)
    corefs.

(** *** Streams of tokens with a known shape *)

(** The tokens that [_parse_tdl] passes through as tuples, and the tuple of
    each. *)
Definition passthrough_kind (gid : nat) : option string :=
  match gid with
  | 2 => Some "BLOCKCOMMENT"
  | 3 => Some "LINECOMMENT"
  | 20 => Some "LETTERSET"
  | _ => None
  end.

Definition is_passthrough (t : Token) : bool :=
  match passthrough_kind (tok_gid t) with Some _ => true | None => false end.

Definition passthrough_event (t : Token) : event :=
  EvTuple (snd t)
    (match passthrough_kind (tok_gid t) with Some k => k | None => "" end)
    (snd (fst t)).

(** A term written as one token (a string, a quoted symbol, a regular
    expression, a coreference or an identifier), with the docstring that
    may precede it. *)
Record simple_term : Type := mkSimple
  { st_doc : option (string * nat);
    st_gid : nat;
    st_text : string;
    st_line : nat }.

Definition simple_gid (g : nat) : bool :=
  existsb (Nat.eqb g) [4; 5; 6; 19; 24].

Definition doc_tokens (doc : option (string * nat)) : list Token :=
  match doc with
  | Some (d, l) => [(1, d, l)]
  | None => []
  end.

Definition doc_text (doc : option (string * nat)) : option string :=
  match doc with
  | Some (d, _) => Some d
  | None => None
  end.

Definition simple_tokens (t : simple_term) : list Token :=
  (doc_tokens (st_doc t) ++ [(st_gid t, st_text t, st_line t)])%list.

(** The term that the token stands for. *)
Definition simple_obj (t : simple_term) : obj :=
  let doc := doc_text (st_doc t) in
  match st_gid t with
  | 4 => String (st_text t) doc
  | 6 => Regex (st_text t) doc
  | 19 => Coreference (Some (st_text t)) doc
  | _ => TypeIdentifier (st_text t) doc
  end.

(** The tokens of [t0 & t1 & ... & tn]; each [&] has its line. *)
Definition conj_tokens (t0 : simple_term) (more : list (nat * simple_term))
  : list Token :=
  (simple_tokens t0
     ++ flat_map (fun lt => (11, "&", fst lt) :: simple_tokens (snd lt)) more)%list.

Definition conj_objs (t0 : simple_term) (more : list (nat * simple_term))
  : list obj :=
  simple_obj t0 :: map (fun lt => simple_obj (snd lt)) more.

(** The state of the loop of [_make_coreferences] after the records [l]. *)
Definition merge_invariant (l : list (option string * list string))
  (acc : list (string * list string) * list (option string * list string))
  : Prop :=
  NoDup (map fst (fst acc))
  /\ (forall t ps,
         In (t, ps) (fst acc)
         <-> tag_recorded t l = true /\ ps = paths_of_tag t l)
  /\ snd acc = unlabeled_corefs l.

(** The tokens of a definition [identifier op t0 & ... & tn doc? .], after
    the identifier: the operator, the terms, the docstring that may stand
    before the dot, and the dot. *)
Definition definition_tokens (op : Token) (t0 : simple_term)
  (more : list (nat * simple_term)) (pre_dot : option (string * nat))
  (dot : string * nat) : list Token :=
  (op :: conj_tokens t0 more ++ doc_tokens pre_dot ++ [(10, fst dot, snd dot)])%list.

(** *** Blocks of token strings with a known shape *)

(** A token that [_parse_conjunction] reads as a type name: it does not
    begin with a quote or with [#], and it is none of the punctuation
    tokens and affix markers. *)
Definition plain_token (t : string) : bool :=
  negb (is_basic_string t)
  && negb (startswith t "#")
  && negb (startswith t triple_quote)
  && negb (existsb (String.eqb t)
             ["."; "&"; "["; "<"; "<!"; "%prefix"; "%suffix"]).

(** The tokens of [s0 & s1 & ... & sn]. *)
Definition supertype_tokens (s0 : string) (more : list string) : list string :=
  s0 :: flat_map (fun s => ["&"; s]) more.

(** ** Shapes of the lists read by the older parser *)

(** The tokens of the items [a0 , a1 , ... , an] of a list. *)
Definition list_tokens (a0 : string) (more : list string) : list string :=
  a0 :: flat_map (fun a => [","; a]) more.

(** A list item that is one type name: a type name that does not end the
    list. *)
Definition item_token (break_on : string -> bool) (a : string) : bool :=
  plain_token a && negb (break_on a).

(** The features of the items from position [i] on: each item is a
    definition with one supertype, at the [FIRST] of its position. *)
Fixpoint item_feats (i : nat) (items : list string) : list (string * obj) :=
  match items with
  | [] => []
  | a :: items' =>
      (item_path i, TdlDefinition CTdlDefinition [a] (Some []))
        :: item_feats (S i) items'
  end.

(** ** The lexer: texts between delimiters, [_bounded]

    [lines] is the iterator [enumerate(stream, 1)]: the state of the
    function is the list of the numbered lines not read yet. *)

(** [s[n:]] *)
Fixpoint str_from (n : nat) (s : string) : string :=
  match n, s with
  | 0, _ => s
  | S n', String.String _ s' => str_from n' s'
  | S _, EmptyString => EmptyString
  end.

(** [line.startswith(p, start)]: past the end of the line it is false. *)
Definition startswith_at (line p : string) (start : nat) : bool :=
  (start <=? String.length line)%nat && startswith (str_from start line) p.

(** [''.join(substrings)] *)
Definition join_empty (substrings : list string) : string :=
  fold_right String.append "" substrings.

Definition backslash : ascii := ascii_of_nat 92.

(** The message of the error of [_bounded]. *)
Definition unterminated_msg (p1 : string) : string :=
  "Unterminated "
  ++ (if String.eqb p1 triple_quote then "docstring" else "block comment").

(** The [while] loop of [_bounded] and the statements after it; one turn
    of the loop takes one unit of [fuel]. *)
Fixpoint bounded_loop (fuel : nat) (p1 p2 : string) (start_line_no : nat)
  (substrings : list string) (line : string) (pos end_ line_no : nat)
  : M (list (nat * string)) (string * nat * nat * string * nat) :=
  match fuel with
  | 0 => raise OutOfFuel
  | S fuel' =>
      if startswith_at line p2 end_ then
        let substrings :=
          (substrings ++ [substring pos (end_ - pos) line])%list in
        ret (join_empty substrings, start_line_no, line_no, line,
             end_ + String.length p2)
      else
        match String.get end_ line with
        | None => raise IndexError
        | Some c =>
            let end_ := if Ascii.eqb c backslash then end_ + 2 else end_ + 1 in
            if (String.length line <=? end_)%nat then
              let substrings := (substrings ++ [str_from pos line])%list in
              fun lines =>
                match lines with
                | [] =>
                    (Raise (TdlParsingError (unterminated_msg p1)
                              (Some start_line_no) None), [])
                | (line_no, line) :: lines' =>
                    bounded_loop fuel' p1 p2 start_line_no substrings line
                      0 0 line_no lines'
                end
            else
              bounded_loop fuel' p1 p2 start_line_no substrings line pos end_
                line_no
        end
  end.

(** [_bounded(p1, p2, line, pos, line_no, lines)] *)
Definition _bounded (fuel : nat) (p1 p2 line : string) (pos line_no : nat)
  : M (list (nat * string)) (string * nat * nat * string * nat) :=
  bounded_loop fuel p1 p2 line_no [] line pos pos line_no.

(** A text without a backslash and without the character [q]. *)
Fixpoint plain_text (q : ascii) (s : string) : bool :=
  match s with
  | EmptyString => true
  | String.String c s' =>
      negb (Ascii.eqb c backslash) && negb (Ascii.eqb c q) && plain_text q s'
  end.

(** The lines of a text that has no delimiter: each is plain and has at
    least one character. *)
Definition plain_line (q : ascii) (s : string) : bool :=
  nonempty s && plain_text q s.

(** ** [_accumulate]: blocks of tokens by level of nesting

    A generator: the result is the list of the blocks it yields and the
    exception that ends it, if any.  [stack] has its top, the end of the
    Python list, at its head. *)

(** [yield block], then the rest of the generator *)
Definition yield_ {A : Type} (block : A) (r : list A * option exn)
  : list A * option exn :=
  (block :: fst r, snd r).

Fixpoint _accumulate_loop (lexitems data : list Token) (stack : list nat)
  (break_on : nat) (in_def : bool) : list (list Token) * option exn :=
  match lexitems with
  | [] => (if (length data =? 0)%nat then [] else [data], None)
  | item :: lexitems' =>
      let gid := tok_gid item in
      if (gid =? 2)%nat || (gid =? 3)%nat then
        if (length data =? 0)%nat then
          yield_ [item] (_accumulate_loop lexitems' data stack break_on in_def)
        else _accumulate_loop lexitems' data stack break_on in_def
      else if (gid =? 20)%nat then
        if (length data =? 0)%nat then
          yield_ [item] (_accumulate_loop lexitems' data stack break_on in_def)
        else ([], Some AssertionError)
      else if (gid =? 7)%nat || (gid =? 8)%nat then
        if in_def then
          yield_ (firstn (length data - 1) data)
            (_accumulate_loop lexitems'
               (skipn (length data - 1) data ++ [item])%list [] 10 in_def)
        else
          _accumulate_loop lexitems' (data ++ [item])%list stack break_on true
      else
        let data := (data ++ [item])%list in
        if (gid =? break_on)%nat then
          match stack with
          | [] =>
              yield_ data (_accumulate_loop lexitems' [] stack break_on false)
          | b :: stack' => _accumulate_loop lexitems' data stack' b in_def
          end
        else if (gid =? 13)%nat || (gid =? 14)%nat || (gid =? 15)%nat then
          _accumulate_loop lexitems' data (break_on :: stack) (gid + 3) in_def
        else _accumulate_loop lexitems' data stack break_on in_def
  end.

(** [_accumulate(lexitems)] *)
Definition _accumulate (lexitems : list Token)
  : list (list Token) * option exn :=
  _accumulate_loop lexitems [] [] 10 false.

(** Bracket matching on the kinds of the tokens, the reading of the
    nesting that the blocks are meant to follow: [open] lists the closing
    kinds that are awaited, the innermost first, and the result is that
    list after [body].  A comment may stand anywhere, a definition operator
    or a letter-set nowhere, a dot only inside brackets, and a closing
    bracket only where it is the one awaited. *)
Fixpoint nesting (open : list nat) (body : list Token) : option (list nat) :=
  match body with
  | [] => Some open
  | t :: body' =>
      let g := tok_gid t in
      if _is_comment t then nesting open body'
      else if (g =? 13)%nat || (g =? 14)%nat || (g =? 15)%nat then
        nesting (g + 3 :: open) body'
      else if (g =? 16)%nat || (g =? 17)%nat || (g =? 18)%nat then
        match open with
        | c :: open' => if (g =? c)%nat then nesting open' body' else None
        | [] => None
        end
      else if (g =? 7)%nat || (g =? 8)%nat || (g =? 20)%nat then None
      else if (g =? 10)%nat then
        match open with
        | [] => None
        | _ :: _ => nesting open body'
        end
      else nesting open body'
  end.

(** The tokens that are not comments. *)
Definition uncommented (body : list Token) : list Token :=
  filter (fun t => negb (_is_comment t)) body.

(** [break_on] and [stack] when the closing kinds [open] are awaited. *)
Definition break_of (open : list nat) : nat := hd 10 open.

Definition stack_of (open : list nat) : list nat := tl (open ++ [10])%list.

Definition is_closer (g : nat) : bool :=
  (g =? 16)%nat || (g =? 17)%nat || (g =? 18)%nat.

(** ** [AVM.normalize]

    The method changes [self] in place and returns nothing.  It is a
    function from the object to the outcome and the object as the call
    leaves it, also when it raises.  The objects are trees: no structure
    is the value of two features.  The recursion is bounded by the depth of
    the structure; [fuel] is that bound. *)

Section NormalizeLoops.
Variable normalize_ : obj -> result unit * obj.

(** [for term in val.terms: if isinstance(term, AVM): term.normalize()] *)
Fixpoint normalize_terms (terms : list obj) : result unit * list obj :=
  match terms with
  | [] => (Ok tt, [])
  | term :: terms' =>
      if is_AVM term then
        match normalize_ term with
        | (Ok _, term') =>
            let (r, terms'') := normalize_terms terms' in (r, term' :: terms'')
        | (Raise e, term') => (Raise e, term' :: terms')
        end
      else
        let (r, terms'') := normalize_terms terms' in (r, term :: terms'')
  end.

(** One turn of the loop over the features: the outcome, and the value
    that the feature has afterwards. *)
Definition normalize_value (val : obj) : result unit * obj :=
  match val with
  | Conjunction terms =>
      match normalize_terms terms with
      | (Ok _, terms') =>
          match terms' with
          | [term] =>
              if is_AVM term then
                match normalize_ term with
                | (Ok _, term') => (Ok tt, term')
                | (Raise e, term') => (Raise e, Conjunction [term'])
                end
              else (Ok tt, Conjunction terms')
          | _ => (Ok tt, Conjunction terms')
          end
      | (Raise e, terms') => (Raise e, Conjunction terms')
      end
  | _ => if is_AVM val then normalize_ val else (Ok tt, val)
  end.

(** [for attr in self._avm: ...] *)
Fixpoint normalize_items (items : list (string * obj))
  : result unit * list (string * obj) :=
  match items with
  | [] => (Ok tt, [])
  | (attr, val) :: items' =>
      match normalize_value val with
      | (Ok _, val') =>
          let (r, items'') := normalize_items items' in
          (r, (attr, val') :: items'')
      | (Raise e, val') => (Raise e, (attr, val') :: items')
      end
  end.

End NormalizeLoops.

Definition not_iterable : exn := TypeError "'NoneType' object is not iterable".

(** [AVM.normalize] *)
Fixpoint normalize (fuel : nat) (self : obj) : result unit * obj :=
  match fuel with
  | 0 => (Raise OutOfFuel, self)
  | S fuel' =>
      if is_AVM self then
        match as_fs self with
        | Some (Some items) =>
            let (r, items') := normalize_items (normalize fuel') items in
            (r, with_fs self (Some items'))
        | _ => (Raise not_iterable, self)
        end
      else (Raise (AttributeError "normalize"), self)
  end.

(** What [normalize] returns on a structure in which every structure it
    reaches has features, and on one in which some has none. *)
Definition outcome (free : bool) : result unit :=
  if free then Ok tt else Raise not_iterable.

(** A structure that [normalize] can go through: neither it nor any of
    the structures that the method visits in it, the values that are AVMs
    and the AVMs among the terms of the values that are conjunctions, is
    closed (has [None] for its features, as the empty list has). *)
Fixpoint closed_free (o : obj) : bool :=
  let value (v : obj) : bool :=
    match v with
    | Conjunction terms =>
        forallb (fun t => if is_AVM t then closed_free t else true) terms
    | _ => if is_AVM v then closed_free v else true
    end in
  match o with
  | AVM (Some d) _ | DiffList (Some d) _ =>
      forallb (fun kv => value (snd kv)) d
  | ConsList c =>
      match _avm c with
      | Some d => forallb (fun kv => value (snd kv)) d
      | None => false
      end
  | AVM None _ | DiffList None _ => false
  | _ => true
  end.

Definition free_value (v : obj) : bool :=
  match v with
  | Conjunction terms =>
      forallb (fun t => if is_AVM t then closed_free t else true) terms
  | _ => if is_AVM v then closed_free v else true
  end.

(** [len(terms) == 1 and isinstance(terms[0], AVM)] *)
Definition single_AVM (terms : list obj) : bool :=
  match terms with
  | [term] => is_AVM term
  | _ => false
  end.

(** A normalized structure: no feature has for value a conjunction whose
    only term is an AVM, in the structure and in the structures that
    [normalize] visits in it. *)
Fixpoint normal (o : obj) : bool :=
  let value (v : obj) : bool :=
    match v with
    | Conjunction terms =>
        negb (single_AVM terms)
        && forallb (fun t => if is_AVM t then normal t else true) terms
    | _ => if is_AVM v then normal v else true
    end in
  match o with
  | AVM (Some d) _ | DiffList (Some d) _ =>
      forallb (fun kv => value (snd kv)) d
  | ConsList c =>
      match _avm c with
      | Some d => forallb (fun kv => value (snd kv)) d
      | None => true
      end
  | _ => true
  end.

Definition normal_value (v : obj) : bool :=
  match v with
  | Conjunction terms =>
      negb (single_AVM terms)
      && forallb (fun t => if is_AVM t then normal t else true) terms
  | _ => if is_AVM v then normal v else true
  end.

(** ** Feature structures and lists of one-token terms, as token streams *)

(** A feature [a0.a1. ... .ak t0 & ... & tn]: the first name and its line,
    the further names, each with the line of its dot and its own line, and
    the terms, each one token. *)
Record simple_feature : Type := mkFeature
  { sf_name : string;
    sf_line : nat;
    sf_path : list (nat * (string * nat));
    sf_t0 : simple_term;
    sf_more : list (nat * simple_term) }.

Definition simple_terms_ok (t0 : simple_term) (more : list (nat * simple_term))
  : bool :=
  simple_gid (st_gid t0)
  && forallb (fun lt => simple_gid (st_gid (snd lt))) more.

Definition path_tokens (path : list (nat * (string * nat))) : list Token :=
  flat_map (fun d => [(10, ".", fst d); (24, fst (snd d), snd (snd d))]) path.

(** The tokens of a feature after its first name. *)
Definition after_name (f : simple_feature) : list Token :=
  (path_tokens (sf_path f) ++ conj_tokens (sf_t0 f) (sf_more f))%list.

Definition feature_tokens (f : simple_feature) : list Token :=
  (24, sf_name f, sf_line f) :: after_name f.

(** The attribute and the value that the feature stands for. *)
Definition feature_pair (f : simple_feature) : string * obj :=
  (join_dot (sf_name f :: map (fun d => fst (snd d)) (sf_path f)),
   Conjunction (conj_objs (sf_t0 f) (sf_more f))).

(** The tokens of [f0 , f1 , ... , fn]; each comma has its line. *)
Definition more_features (fs : list (nat * simple_feature)) : list Token :=
  flat_map (fun cf => (12, ",", fst cf) :: feature_tokens (snd cf)) fs.

Definition features_tokens (f0 : simple_feature)
  (fs : list (nat * simple_feature)) : list Token :=
  (feature_tokens f0 ++ more_features fs)%list.

Definition simple_feature_ok (f : simple_feature) : bool :=
  simple_terms_ok (sf_t0 f) (sf_more f).

(** The kind of the first token of a stream. *)
Definition first_gid (ts : list Token) : nat :=
  match ts with
  | t :: _ => tok_gid t
  | [] => 0
  end.

(** A list item [t0 & ... & tn] of one-token terms. *)
Definition simple_item : Type := simple_term * list (nat * simple_term).

Definition simple_item_ok (c : simple_item) : bool :=
  simple_terms_ok (fst c) (snd c).

Definition item_tokens (c : simple_item) : list Token :=
  conj_tokens (fst c) (snd c).

(** The value that the item stands for. *)
Definition item_value (c : simple_item) : obj :=
  Conjunction (conj_objs (fst c) (snd c)).

(** The tokens of [, c1 , ... , cn]; each comma has its line. *)
Definition more_items (cs : list (nat * simple_item)) : list Token :=
  flat_map (fun lc => (12, ",", fst lc) :: item_tokens (snd lc)) cs.

(** * Properties *)

(** ** Auxiliary facts *)

Lemma string_app_assoc (a b c : string) : (a ++ b) ++ c = a ++ (b ++ c).
Proof.
  induction a as [|ch a IH]; simpl; [reflexivity | now rewrite IH].
Qed.

(** Induction on objects that goes through the terms of a conjunction. *)
Lemma obj_conj_ind (P : obj -> Prop) :
  (forall terms, Forall P terms -> P (Conjunction terms)) ->
  (forall o, is_Conjunction o = false -> P o) ->
  forall o, P o.
Proof.
  intros Hconj Hother.
  fix IH 1.
  intros o; destruct o; try (apply Hother; reflexivity).
  apply Hconj.
  revert terms. fix IHl 1.
  intros [|t ts]; constructor; [apply IH | apply IHl].
Qed.

Lemma flat_app (s t : list obj) : flat (s ++ t) = flat s && flat t.
Proof. unfold flat. apply forallb_app. Qed.

Lemma add_non_conjunction (o : obj) (s : list obj) :
  is_Conjunction o = false ->
  add o s = if is_Term o then (Ok tt, (s ++ [o])%list)
            else (Raise (TypeError "Not a Term or Conjunction"), s).
Proof.
  destruct o; simpl; try reflexivity; discriminate.
Qed.

(** One [add] keeps the receiver flat, whatever is added and whether or not
    the call raises. *)
Lemma add_keeps_flat (x : obj) :
  forall s, flat s = true -> flat (snd (add x s)) = true.
Proof.
  induction x as [terms IH | o Ho] using obj_conj_ind; intros s Hs.
  - simpl. revert s Hs.
    induction IH as [|t ts Ht _ IHts]; intros s Hs; simpl; [assumption|].
    unfold bind. specialize (Ht s Hs).
    destruct (add t s) as [[[]|e] s']; simpl in *; [apply IHts|]; assumption.
  - rewrite (add_non_conjunction _ _ Ho).
    destruct (is_Term o) eqn:Ht; simpl; [|assumption].
    rewrite flat_app, Hs. simpl. now rewrite Ht.
Qed.

Lemma add_all_keeps_flat (ops : list obj) :
  forall s, flat s = true -> flat (add_all ops s) = true.
Proof.
  unfold add_all.
  induction ops as [|x ops IH]; intros s Hs; simpl; [assumption|].
  apply IH, add_keeps_flat, Hs.
Qed.

(** Adding the terms of a flat list one by one appends them in order. *)
Lemma for_each_add_flat (c : list obj) :
  forall s, flat c = true -> for_each add c s = (Ok tt, (s ++ c)%list).
Proof.
  induction c as [|t c IH]; intros s Hc; simpl.
  - now rewrite app_nil_r.
  - simpl in Hc. apply andb_prop in Hc as [Ht Hc].
    unfold bind.
    assert (Hadd : add t s = (Ok tt, (s ++ [t])%list)).
    { destruct t; simpl in *; try discriminate; reflexivity. }
    rewrite Hadd, (IH _ Hc), <- app_assoc. reflexivity.
Qed.

(** ** Conjunction *)

(** C7. Whatever sequence of objects is added to a conjunction (terms,
    conjunctions, nested conjunctions, objects that make [add] raise), its
    term list holds only [Term]s, never a conjunction; and adding a flat
    conjunction is adding each of its terms in order, so that building a
    conjunction from a conjunction gives the same terms again. *)
Theorem Conjunction_add_flattens :
  (forall ops : list obj, flat (add_all ops []) = true) /\
  (forall ops _terms,
      Conjunction_init ops = Ok (Conjunction _terms) -> flat _terms = true) /\
  (forall c s : list obj,
      flat c = true ->
      add (Conjunction c) s = for_each add c s /\
      add (Conjunction c) s = (Ok tt, (s ++ c)%list) /\
      Conjunction_init [Conjunction c] = Ok (Conjunction c)).
Proof.
  split; [|split].
  - intros ops. now apply add_all_keeps_flat.
  - intros ops ts. unfold Conjunction_init.
    assert (H : flat (snd (for_each add ops [])) = true).
    { change (for_each add ops []) with (add (Conjunction ops) []).
      now apply add_keeps_flat. }
    destruct (for_each add ops []) as [[[]|e] s]; simpl in *; [|discriminate].
    intros [= <-]. exact H.
  - intros c s Hc. split; [reflexivity|]. split.
    + simpl. now apply for_each_add_flat.
    + unfold Conjunction_init. simpl. unfold bind.
      rewrite (for_each_add_flat c [] Hc). reflexivity.
Qed.

Lemma Conjunction_add_flattens_witness :
  flat [TypeIdentifier "a" None; Coreference (Some "#1") None] = true /\
  add (Conjunction [TypeIdentifier "a" None; Coreference (Some "#1") None])
      [String "s" None]
  = (Ok tt, [String "s" None; TypeIdentifier "a" None;
             Coreference (Some "#1") None]).
Proof.
  split; [reflexivity|].
  apply (proj2 (proj2 Conjunction_add_flattens)
           [TypeIdentifier "a" None; Coreference (Some "#1") None]
           [String "s" None]).
  reflexivity.
Defined.

(** C6. [Conjunction.string] on a conjunction with at least one term does
    not return: the first pass of the loop evaluates the unbound name [t]
    and raises [NameError], whether or not a string literal is among the
    terms.  Only the empty conjunction gets its [None]. *)
Theorem Conjunction_string_raises (term : obj) (rest : list obj) :
  Conjunction_string (term :: rest) = Raise (NameError "t")
  /\ Conjunction_string [] = Ok PyNone.
Proof. split; reflexivity. Qed.

(** ** Type terms *)

(** The method resolution order of the three classes: [Term] comes before
    [str], and neither it nor [TypeTerm] defines a comparison. *)
Example mro_of_the_type_terms :
  mro KTypeIdentifier = [KTypeIdentifier; KTypeTerm; KTerm; Kstr; Kobject]
  /\ mro KString = [KString; KTypeTerm; KTerm; Kstr; Kobject]
  /\ mro KRegex = [KRegex; KTypeTerm; KTerm; Kstr; Kobject].
Proof. repeat split. Qed.

(** The comparison and the hash of a type term are those of [str]: no
    class between the term's class and [str] defines them. *)
Lemma TypeTerm_methods (cls : TypeTermClass) :
  lookup (pyclass_of cls) "__eq__" = Some Kstr
  /\ lookup (pyclass_of cls) "__ne__" = Some Kstr
  /\ lookup (pyclass_of cls) "__hash__" = Some Kstr
  /\ lookup (pyclass_of cls) "__new__" = Some KTypeTerm
  /\ lookup (pyclass_of cls) "__init__" = Some KTypeTerm.
Proof. destruct cls; repeat split. Qed.

(** C9. A type term is an instance of its variant that carries its text
    and its docstring, and its [__eq__] is the one of [str].  So two type
    terms of any of the three variants, with any docstrings, compare as
    their texts do, and so does a type term with a plain [str], on either
    side: with the same text they are equal. *)
Theorem TypeTerm_equality_is_text_equality
  (cls1 cls2 : TypeTermClass) (s t : string) (d1 d2 : option string) :
  (class_of (TypeTerm_new cls1 s d1) = Some (pyclass_of cls1)
   /\ as_str (TypeTerm_new cls1 s d1) = Some s
   /\ docstring_of (TypeTerm_new cls1 s d1) = Some d1
   /\ lookup (pyclass_of cls1) "__eq__" = Some Kstr)
  /\ py_eq (TypeTerm_new cls1 s d1) (TypeTerm_new cls2 t d2)
     = Some (String.eqb s t)
  /\ py_eq (TypeTerm_new cls1 s d1) (PyStr t) = Some (String.eqb s t)
  /\ py_eq (PyStr s) (TypeTerm_new cls2 t d2) = Some (String.eqb s t)
  /\ py_eq (TypeTerm_new cls1 s d1) (TypeTerm_new cls2 s d2) = Some true
  /\ py_eq (TypeTerm_new cls1 s d1) (PyStr s) = Some true
  /\ py_eq (PyStr s) (TypeTerm_new cls2 s d2) = Some true.
Proof.
  assert (Heq : forall a b : obj,
             (exists c x d, a = TypeTerm_new c x d) \/ (exists x, a = PyStr x) ->
             (exists c x d, b = TypeTerm_new c x d) \/ (exists x, b = PyStr x) ->
             forall x y, as_str a = Some x -> as_str b = Some y ->
                         py_eq a b = Some (String.eqb x y)).
  { intros a b Ha Hb x y Hx Hy.
    destruct Ha as [(c & xa & da & ->) | (xa & ->)];
      destruct Hb as [(c' & xb & db & ->) | (xb & ->)];
      try destruct c; try destruct c';
      cbn in Hx, Hy; injection Hx as <-; injection Hy as <-;
      reflexivity. }
  assert (Hterm : forall c x d,
             (exists c' x' d', TypeTerm_new c x d = TypeTerm_new c' x' d')
             \/ (exists x', TypeTerm_new c x d = PyStr x'))
    by (intros c x d; left; now exists c, x, d).
  assert (Hstr : forall x,
             (exists c' x' d', PyStr x = TypeTerm_new c' x' d')
             \/ (exists x', PyStr x = PyStr x'))
    by (intros x; right; now exists x).
  assert (Htext : forall c x d, as_str (TypeTerm_new c x d) = Some x)
    by (intros c x d; now destruct c).
  split; [|repeat split].
  - repeat split; destruct cls1; reflexivity.
  - now apply Heq.
  - now apply Heq.
  - now apply Heq.
  - rewrite <- (String.eqb_refl s). now apply Heq.
  - rewrite <- (String.eqb_refl s). now apply Heq.
  - rewrite <- (String.eqb_refl s). now apply Heq.
Qed.

(** [TypeIdentifier("a")], [String("a")], [Regex("a")] and ["a"] are equal to
    each other, with or without a docstring, and a term is not equal to a
    term of its own class with another text. *)
Example type_terms_of_a_are_equal :
  let terms := [TypeTerm_new CTypeIdentifier "a" (Some "doc");
                TypeTerm_new CString "a" None;
                TypeTerm_new CRegex "a" None; PyStr "a"] in
  forallb (fun x => forallb (fun y => match py_eq x y with
                                      | Some true => true
                                      | _ => false
                                      end) terms) terms = true
  /\ py_eq (TypeTerm_new CString "a" None) (TypeTerm_new CString "b" None)
     = Some false.
Proof. split; reflexivity. Qed.

(** ** Cons-lists *)

Lemma rest_path_SS (n : nat) :
  rest_path (S (S n)) = LIST_TAIL ++ "." ++ rest_path (S n).
Proof. reflexivity. Qed.

(** The path [append] computes for the next tail. *)
Lemma rest_path_snoc (n : nat) :
  (rest_path (S n) ++ ".") ++ LIST_TAIL = rest_path (S (S n)).
Proof.
  induction n as [|n IH]; [reflexivity|].
  assert (E : rest_path (S (S (S n)))
              = LIST_TAIL ++ "." ++ ((rest_path (S n) ++ ".") ++ LIST_TAIL))
    by (rewrite IH; reflexivity).
  rewrite E, (rest_path_SS n). now rewrite !string_app_assoc.
Qed.

Lemma nonempty_rest_path (n : nat) : nonempty (rest_path (S n)) = true.
Proof. destruct n; reflexivity. Qed.

(** Writing [k = val] below the last tail of an open chain, for [k] one of
    [FIRST] and [REST]: the tail is absent, so a default AVM is created
    there and takes the feature. *)
Lemma setitem_below_last_tail (k : string) (val : obj) :
  k = LIST_HEAD \/ k = LIST_TAIL ->
  forall (v : obj) (vs : list obj),
    setitem AVM_default (rest_path (S (length vs)) ++ "." ++ k) val
      (Some (open_chain (v :: vs)))
    = (Ok tt, Some (list_chain (v :: vs) [(k, val)])).
Proof.
  intros Hk v vs. revert v.
  induction vs as [|v' vs IH]; intros v.
  - destruct Hk as [-> | ->]; reflexivity.
  - cbn [length]. rewrite rest_path_SS, !string_app_assoc.
    specialize (IH v'). unfold setitem in *.
    change (open_chain (v :: v' :: vs))
      with [(LIST_HEAD, v); (LIST_TAIL, AVM (Some (open_chain (v' :: vs))) None)].
    cbn -[rest_path open_chain list_chain].
    match goal with
    | |- context [setitem_from ?d ?a ?key ?x ?m] =>
        replace (setitem_from d a key x m)
          with (@Ok unit tt, Some (list_chain (v' :: vs) [(k, val)]))
          by (symmetry; exact IH)
    end.
    reflexivity.
Qed.

Lemma open_chain_snoc (v : obj) (vs : list obj) (x : obj) :
  list_chain (v :: vs) [(LIST_HEAD, x)] = open_chain ((v :: vs) ++ [x]).
Proof.
  revert v. induction vs as [|v' vs IH]; intros v; [reflexivity|].
  change (list_chain (v :: v' :: vs) [(LIST_HEAD, x)])
    with [(LIST_HEAD, v);
          (LIST_TAIL, AVM (Some (list_chain (v' :: vs) [(LIST_HEAD, x)])) None)].
  rewrite IH. reflexivity.
Qed.

(** The state after the appends of the constructor. *)
Lemma appends_build_open_chain (doc : option string) (xs : list obj) :
  forall (v : obj) (vs : list obj),
    for_each append xs
      (mkConsList (Some (open_chain (v :: vs))) (rest_path (S (length vs)))
         false doc)
    = (Ok tt,
       mkConsList (Some (open_chain (v :: vs ++ xs)))
         (rest_path (S (length (vs ++ xs)))) false doc).
Proof.
  induction xs as [|x xs IH]; intros v vs.
  - simpl for_each. now rewrite app_nil_r.
  - cbn [for_each]. unfold bind at 1.
    assert (Hstep : append x
              (mkConsList (Some (open_chain (v :: vs)))
                 (rest_path (S (length vs))) false doc)
            = (Ok tt,
               mkConsList (Some (open_chain (v :: vs ++ [x])))
                 (rest_path (S (length (vs ++ [x])))) false doc)).
    { unfold append, bind, get_self, self_setitem, set_last_path.
      cbn [_avm terminated _last_path cl_docstring is_not_None negb andb].
      rewrite nonempty_rest_path, string_app_assoc.
      rewrite (setitem_below_last_tail (k := LIST_HEAD) x (or_introl eq_refl) v vs).
      cbn [_avm terminated _last_path cl_docstring].
      rewrite open_chain_snoc, rest_path_snoc.
      rewrite length_app, Nat.add_1_r. reflexivity. }
    rewrite Hstep, IH, <- app_assoc. reflexivity.
Qed.

Lemma first_append (doc : option string) (v : obj) :
  append v (mkConsList (Some []) "" false doc)
  = (Ok tt, mkConsList (Some (open_chain [v])) (rest_path 1) false doc).
Proof. reflexivity. Qed.

(** What the constructor builds from a non-empty list of values. *)
Lemma ConsList_init_nonempty (v : obj) (vs : list obj) (end_ : obj)
  (doc : option string) :
  ConsList_init (v :: vs) end_ doc
  = Ok (mkConsList (Some (list_chain (v :: vs) [(LIST_TAIL, end_)]))
          (rest_path (S (length vs)))
          (negb (eq_str end_ LIST_TYPE)) doc).
Proof.
  unfold ConsList_init. unfold bind at 1. cbn [for_each]. unfold bind at 1.
  rewrite first_append.
  change (rest_path 1) with (rest_path (S (@length obj []))).
  rewrite (appends_build_open_chain doc vs v []).
  cbn [app].
  unfold terminate, bind, get_self, self_setitem, set_terminated.
  cbn [_avm terminated _last_path cl_docstring].
  rewrite nonempty_rest_path.
  cbn [_avm terminated _last_path cl_docstring].
  rewrite (setitem_below_last_tail (k := LIST_TAIL) end_ (or_intror eq_refl) v vs).
  reflexivity.
Qed.

Lemma getitem_rest_path (tail : list (string * obj)) (v : obj) (vs : list obj) :
  getitem (rest_path (S (length vs))) (Some (list_chain (v :: vs) tail))
  = Ok (AVM (Some tail) None).
Proof.
  revert v. induction vs as [|v' vs IH]; intros v; [reflexivity|].
  cbn [length]. rewrite rest_path_SS.
  specialize (IH v'). unfold getitem in *.
  change (list_chain (v :: v' :: vs) tail)
    with [(LIST_HEAD, v); (LIST_TAIL, AVM (Some (list_chain (v' :: vs) tail)) None)].
  cbn -[rest_path list_chain]. exact IH.
Qed.

Lemma getitem_below_rest_path (k : string) (x : obj) (v : obj) (vs : list obj) :
  k = LIST_HEAD \/ k = LIST_TAIL ->
  getitem (rest_path (S (length vs)) ++ "." ++ k)
    (Some (list_chain (v :: vs) [(k, x)]))
  = Ok x.
Proof.
  intros Hk. revert v. induction vs as [|v' vs IH]; intros v.
  - destruct Hk as [-> | ->]; reflexivity.
  - cbn [length]. rewrite rest_path_SS, !string_app_assoc.
    specialize (IH v'). unfold getitem in *.
    change (list_chain (v :: v' :: vs) [(k, x)])
      with [(LIST_HEAD, v);
            (LIST_TAIL, AVM (Some (list_chain (v' :: vs) [(k, x)])) None)].
    cbn -[rest_path list_chain]. exact IH.
Qed.

(** C1. For a list of n >= 1 values the constructor builds the n nested
    [FIRST] positions, but [terminate] writes the end one level too deep:
    the n-th tail [REST^n], where the end belongs, holds a fresh AVM, and
    the end is the [REST] of that AVM, at [REST^(n+1)].  This happens for
    every end, [*list*] included, which is written like any other value
    instead of leaving the tail open.  The flag is as stated: [terminated]
    is false exactly when the end equals [*list*]. *)
Theorem ConsList_terminate_writes_below_tail
  (v : obj) (vs : list obj) (end_ : obj) (doc : option string) :
  exists self : ConsList_ obj,
    ConsList_init (v :: vs) end_ doc = Ok self
    /\ _avm self = Some (list_chain (v :: vs) [(LIST_TAIL, end_)])
    /\ getitem (rest_path (S (length vs))) (_avm self)
       = Ok (AVM (Some [(LIST_TAIL, end_)]) None)
    /\ getitem (rest_path (S (S (length vs)))) (_avm self) = Ok end_
    /\ terminated self = negb (eq_str end_ LIST_TYPE).
Proof.
  eexists. split; [apply ConsList_init_nonempty|].
  cbn [_avm terminated]. repeat split.
  - apply getitem_rest_path.
  - rewrite <- rest_path_snoc, string_app_assoc.
    apply getitem_below_rest_path. now right.
Qed.

(** The list [< a >]: its [REST] is not [*null*] but an AVM. *)
Example ConsList_one_element_null :
  exists self,
    ConsList_init [TypeIdentifier "a" None] (PyStr EMPTY_LIST_TYPE) None = Ok self
    /\ getitem "REST" (_avm self)
       = Ok (AVM (Some [("REST", PyStr "*null*")]) None)
    /\ getitem "REST.REST" (_avm self) = Ok (PyStr "*null*").
Proof. eexists. repeat split. Qed.

(** The two rows of the table for a list without values. *)
Lemma ConsList_init_empty (doc : option string) :
  ConsList_init [] (PyStr EMPTY_LIST_TYPE) doc = Ok (mkConsList None "" true doc)
  /\ ConsList_init [] (PyStr LIST_TYPE) doc = Ok (mkConsList (Some []) "" false doc).
Proof. split; reflexivity. Qed.

(** C8. [append] on a list whose [terminated] flag is set raises
    [TdlError('Cannot append to a closed list.')] and leaves every field of
    the list as it was; and a [terminate] that returns sets the flag for
    every end but [*list*]. *)
Theorem append_to_terminated_raises :
  (forall (self : ConsList_ obj) (value : obj),
      terminated self = true ->
      append value self
      = (Raise (TdlError "Cannot append to a closed list."), self))
  /\ (forall (self self' : ConsList_ obj) (end_ value : obj),
         terminate end_ self = (Ok tt, self') ->
         eq_str end_ LIST_TYPE = false ->
         terminated self' = true
         /\ append value self'
            = (Raise (TdlError "Cannot append to a closed list."), self')).
Proof.
  assert (H : forall (self : ConsList_ obj) (value : obj),
             terminated self = true ->
             append value self
             = (Raise (TdlError "Cannot append to a closed list."), self)).
  { intros self value Ht. unfold append, bind, get_self, raise.
    rewrite Ht, andb_false_r. reflexivity. }
  split; [exact H|].
  intros self self' end_ value Hterm Hend.
  assert (Ht : terminated self' = true).
  { unfold terminate, bind, get_self, set_terminated in Hterm.
    rewrite Hend in Hterm.
    match type of Hterm with
    | (let (_, _) := ?c in _) = _ => destruct c as [[[]|e] s']
    end; [|discriminate].
    injection Hterm as <-. reflexivity. }
  split; [exact Ht | now apply H].
Qed.

Lemma append_to_terminated_raises_witness :
  append (TypeIdentifier "b" None)
    (mkConsList (Some [("FIRST", TypeIdentifier "a" None);
                       ("REST", AVM (Some [("REST", PyStr "*null*")]) None)])
       "REST" true None)
  = (Raise (TdlError "Cannot append to a closed list."),
     mkConsList (Some [("FIRST", TypeIdentifier "a" None);
                       ("REST", AVM (Some [("REST", PyStr "*null*")]) None)])
       "REST" true None).
Proof.
  apply (proj1 append_to_terminated_raises). reflexivity.
Defined.

(** ** Reading a list back *)

Lemma collect_unfold (fuel : nat) (d : obj) (avm : featmap) :
  as_fs d = Some avm ->
  _collect_list_items (S fuel) d
  = (head <-- get LIST_HEAD PyNone avm ;;;
     match head with
     | PyNone => Ok []
     | _ =>
         first <-- getitem LIST_HEAD avm ;;;
         tail <-- get LIST_TAIL PyNone avm ;;;
         items <-- _collect_list_items fuel tail ;;;
         Ok ((LIST_HEAD, first)
               :: map (fun pv => (LIST_TAIL ++ "." ++ fst pv, snd pv)) items)
     end)%py.
Proof.
  destruct d; simpl; try discriminate; intros [= <-]; reflexivity.
Qed.

Lemma not_None_branch {A} (o : obj) (a b : A) :
  o <> PyNone -> match o with PyNone => a | _ => b end = b.
Proof. destruct o; intros H; try reflexivity. now elim H. Qed.

Lemma getitem_head (d : list (string * obj)) :
  getitem LIST_HEAD (Some d)
  = match dict_get LIST_HEAD d with
    | Some v => Ok v
    | None => Raise (KeyError LIST_HEAD)
    end.
Proof. reflexivity. Qed.

Lemma getitem_tail (d : list (string * obj)) :
  getitem LIST_TAIL (Some d)
  = match dict_get LIST_TAIL d with
    | Some v => Ok v
    | None => Raise (KeyError LIST_TAIL)
    end.
Proof. reflexivity. Qed.

Lemma before_None_all (vs : list obj) :
  ~ In PyNone vs -> before_None vs = vs.
Proof.
  induction vs as [|v vs IH]; intros H; [reflexivity|].
  assert (Hv : v <> PyNone) by (intros ->; apply H; now left).
  cbn [before_None]. rewrite IH by (intros Hin; apply H; now right).
  destruct v; try reflexivity. now elim Hv.
Qed.

Lemma before_None_cons (v : obj) (vs : list obj) :
  v <> PyNone -> before_None (v :: vs) = v :: before_None vs.
Proof. intros Hv. destruct v; try reflexivity. now elim Hv. Qed.

(** The items of a chain are its values up to the first that is [None],
    whatever follows the last one, as long as what follows has no
    [FIRST]. *)
Lemma collect_chain_before_None (tail : list (string * obj)) (vs : list obj) :
  dict_get LIST_HEAD tail = None ->
  forall (fuel : nat) (d : obj),
    as_fs d = Some (Some (list_chain vs tail)) ->
    length vs < fuel ->
    exists items,
      _collect_list_items fuel d = Ok items /\ map snd items = before_None vs.
Proof.
  intros Htail. induction vs as [|v vs IH]; intros fuel d Hd Hfuel.
  - destruct fuel as [|fuel]; [inversion Hfuel|].
    exists []. rewrite (collect_unfold _ _ Hd).
    unfold get. rewrite getitem_head. cbn [list_chain]. rewrite Htail.
    split; reflexivity.
  - destruct fuel as [|fuel]; [inversion Hfuel|].
    destruct (IH fuel (AVM (Some (list_chain vs tail)) None) eq_refl)
      as [items [Hitems Hmap]].
    { simpl in Hfuel. lia. }
    rewrite (collect_unfold _ _ Hd).
    unfold get. rewrite getitem_head, getitem_tail.
    change (list_chain (v :: vs) tail)
      with [(LIST_HEAD, v); (LIST_TAIL, AVM (Some (list_chain vs tail)) None)].
    change (dict_get LIST_HEAD
              [(LIST_HEAD, v); (LIST_TAIL, AVM (Some (list_chain vs tail)) None)])
      with (Some v).
    change (dict_get LIST_TAIL
              [(LIST_HEAD, v); (LIST_TAIL, AVM (Some (list_chain vs tail)) None)])
      with (Some (AVM (Some (list_chain vs tail)) None)).
    cbn [rbind].
    assert (Hcases : v = PyNone \/ v <> PyNone)
      by (destruct v; (now left) || (right; discriminate)).
    destruct Hcases as [-> | Hv].
    + exists []. split; reflexivity.
    + eexists. rewrite (not_None_branch _ _ Hv).
      rewrite Hitems. cbn [rbind].
      split; [reflexivity|].
      rewrite (before_None_cons vs Hv).
      cbn [map snd]. rewrite map_map. f_equal. exact Hmap.
Qed.

(** The items of a chain are its values, whatever follows the last one, as
    long as what follows has no [FIRST]. *)
Lemma collect_chain (tail : list (string * obj)) (vs : list obj) :
  dict_get LIST_HEAD tail = None ->
  ~ In PyNone vs ->
  forall (fuel : nat) (d : obj),
    as_fs d = Some (Some (list_chain vs tail)) ->
    length vs < fuel ->
    exists items,
      _collect_list_items fuel d = Ok items /\ map snd items = vs.
Proof.
  intros Htail Hnone fuel d Hd Hfuel.
  destruct (@collect_chain_before_None tail vs Htail fuel d Hd Hfuel)
    as [items [Hitems Hmap]].
  exists items. split; [exact Hitems|].
  now rewrite Hmap, before_None_all.
Qed.

Lemma chain_depth (tail : list (string * obj)) (vs : list obj) :
  length vs <= list_max (map (fun kv => obj_depth (snd kv)) (list_chain vs tail)).
Proof.
  induction vs as [|v vs IH]; [apply Nat.le_0_l|].
  change (list_chain (v :: vs) tail)
    with [(LIST_HEAD, v); (LIST_TAIL, AVM (Some (list_chain vs tail)) None)].
  cbn [map list_max snd fold_right length].
  change (obj_depth (AVM (Some (list_chain vs tail)) None))
    with (S (list_max (map (fun kv => obj_depth (snd kv)) (list_chain vs tail)))).
  lia.
Qed.

(** C10. A list built from one or more values and any end gives its
    values back, in order, up to the first value that is [None], which is
    read as the end of the list: all of them when none is [None].  A list
    built from no value and left open by [*list*] gives the empty list.
    A list built from no value and closed by [*null*] does not: its
    [_avm] is [None], and [values()] raises [TypeError] when
    [_collect_list_items] reads [FIRST] in it. *)
Theorem ConsList_values_raise_on_closed_empty_list :
  (forall (v : obj) (vs : list obj) (end_ : obj) (doc : option string),
      exists self,
        ConsList_init (v :: vs) end_ doc = Ok self
        /\ ConsList_values self = Ok (before_None (v :: vs)))
  /\ (forall (end_ : obj) (doc : option string),
         eq_str end_ LIST_TYPE = true ->
         exists self,
           ConsList_init [] end_ doc = Ok self
           /\ ConsList_values self = Ok [])
  /\ (forall (end_ : obj) (doc : option string),
         eq_str end_ EMPTY_LIST_TYPE = true ->
         exists self,
           ConsList_init [] end_ doc = Ok self
           /\ _avm self = None
           /\ ConsList_values self
              = Raise (TypeError "'NoneType' object is not subscriptable")).
Proof.
  split; [|split].
  - intros v vs end_ doc.
    eexists. split; [apply ConsList_init_nonempty|].
    unfold ConsList_values.
    match goal with
    | |- context [_collect_list_items ?f ?d] =>
        destruct (@collect_chain_before_None [(LIST_TAIL, end_)] (v :: vs)
                    eq_refl f d)
          as [items [Hitems Hmap]]
    end.
    + reflexivity.
    + cbn [obj_depth _avm].
      pose proof (chain_depth [(LIST_TAIL, end_)] (v :: vs)). lia.
    + rewrite Hitems. cbn [rbind]. now rewrite Hmap.
  - intros end_ doc He.
    assert (Hn : eq_str end_ EMPTY_LIST_TYPE = false).
    { unfold eq_str in *. destruct (as_str end_); [|discriminate].
      apply String.eqb_eq in He. subst. reflexivity. }
    eexists. unfold ConsList_init, terminate, bind, get_self.
    cbn. rewrite He, Hn. cbn. split; reflexivity.
  - intros end_ doc He.
    assert (Hl : eq_str end_ LIST_TYPE = false).
    { unfold eq_str in *. destruct (as_str end_); [|discriminate].
      apply String.eqb_eq in He. subst. reflexivity. }
    eexists. unfold ConsList_init, terminate, bind, get_self.
    cbn. rewrite He, Hl. cbn. repeat split.
Qed.

Lemma ConsList_values_raise_on_closed_empty_list_witness :
  exists self,
    ConsList_init [] (PyStr "*null*") None = Ok self
    /\ _avm self = None
    /\ ConsList_values self
       = Raise (TypeError "'NoneType' object is not subscriptable").
Proof.
  apply (proj2 (proj2 ConsList_values_raise_on_closed_empty_list)
           (PyStr "*null*") None).
  reflexivity.
Defined.

(** The list of [a], [None] and [b]: [values()] stops at the [None]. *)
Example ConsList_values_stop_at_None :
  exists self,
    ConsList_init [TypeIdentifier "a" None; PyNone; TypeIdentifier "b" None]
      (PyStr "*null*") None = Ok self
    /\ ConsList_values self = Ok [TypeIdentifier "a" None].
Proof. eexists. split; reflexivity. Qed.

(** ** Diff-lists *)

(** C5. A diff-list has the two features [LIST] and [LAST], in that order,
    and [LAST] is the conjunction of one untagged coreference.  With no
    element, [LIST] is that same conjunction, and [values()] raises
    [AttributeError]: a conjunction has no [get].  With n >= 1 elements,
    [LIST] is the chain of the elements with the coreference one level
    below the last tail, at [REST^(n+1)], and [values()] returns the
    elements in order. *)
Theorem DiffList_structure_and_values :
  let cr := Coreference None None in
  (forall doc : option string,
      DiffList_init [] doc
      = Ok (DiffList (Some [(DIFF_LIST_LIST, Conjunction [cr]);
                            (DIFF_LIST_LAST, Conjunction [cr])]) doc)
      /\ DiffList_values
           (DiffList (Some [(DIFF_LIST_LIST, Conjunction [cr]);
                            (DIFF_LIST_LAST, Conjunction [cr])]) doc)
         = Raise (AttributeError "get"))
  /\ (forall (v : obj) (vs : list obj) (doc : option string),
         let self :=
           DiffList
             (Some [(DIFF_LIST_LIST,
                     AVM (Some (list_chain (v :: vs) [(LIST_TAIL, cr)])) None);
                    (DIFF_LIST_LAST, Conjunction [cr])]) doc in
         DiffList_init (v :: vs) doc = Ok self
         /\ py_getitem self ("LIST." ++ rest_path (S (length vs)))
            = Ok (AVM (Some [(LIST_TAIL, cr)]) None)
         /\ py_getitem self ("LIST." ++ rest_path (S (S (length vs)))) = Ok cr
         /\ (~ In PyNone (v :: vs) -> DiffList_values self = Ok (v :: vs))).
Proof.
  intros cr. split.
  - intros doc. split; reflexivity.
  - intros v vs doc self. split; [|split; [|split]].
    + unfold DiffList_init. rewrite ConsList_init_nonempty.
      reflexivity.
    + unfold self, py_getitem, getitem. cbn -[rest_path list_chain].
      apply getitem_rest_path.
    + unfold self, py_getitem, getitem. cbn -[rest_path list_chain].
      rewrite <- rest_path_snoc, string_app_assoc.
      apply (getitem_below_rest_path cr v vs (or_intror eq_refl)).
    + intros Hnone. unfold DiffList_values, self.
      cbn -[_collect_list_items list_chain obj_depth].
      match goal with
      | |- context [_collect_list_items ?f ?d] =>
          destruct (@collect_chain [(LIST_TAIL, cr)] (v :: vs) eq_refl Hnone f d)
            as [items [Hitems Hmap]]
      end.
      * reflexivity.
      * cbn [obj_depth].
        pose proof (chain_depth [(LIST_TAIL, cr)] (v :: vs)). lia.
      * rewrite Hitems. simpl. now rewrite Hmap.
Qed.

Lemma DiffList_structure_and_values_witness :
  DiffList_values
    (DiffList
       (Some [("LIST",
               AVM (Some (list_chain [TypeIdentifier "x" None; TypeIdentifier "y" None]
                            [("REST", Coreference None None)])) None);
              ("LAST", Conjunction [Coreference None None])]) None)
  = Ok [TypeIdentifier "x" None; TypeIdentifier "y" None].
Proof.
  apply (proj2 DiffList_structure_and_values
           (TypeIdentifier "x" None) [TypeIdentifier "y" None] None).
  simpl. intros [H | [H | []]]; discriminate.
Defined.

(** ** Coreferences of the older parser *)

(** Peeling one step off a computation that returned. *)
Ltac bind_step H :=
  unfold bind at 1 in H;
  match type of H with
  | match ?c with _ => _ end = _ =>
      let r := fresh "r" in
      let s := fresh "s" in
      let E := fresh "E" in
      destruct c as [[r|r] s] eqn:E; [|discriminate H]
  end.

(** Rewriting with an equation [c = r] on a computation [c] that the goal
    holds up to the unfolding of [Token]. *)
Ltac rewrite_shift H :=
  match type of H with
  | _ = ?rhs =>
      match goal with
      | |- context [_shift ?ts] =>
          replace (_shift ts) with rhs by (symmetry; exact H)
      end
  end.

Lemma TdlType_init_coreferences (identifier : string) (definition : obj)
  (corefs : list (option string * list string)) (doc : list string) (t : TdlType_) :
  TdlType_init identifier definition corefs doc = Ok t ->
  tt_coreferences t = corefs.
Proof.
  unfold TdlType_init. destruct definition; try discriminate.
  destruct avm as [items|]; [|discriminate].
  unfold rbind. destruct (FeatureStructure_init _ _); [|discriminate].
  intros [= <-]. reflexivity.
Qed.

Lemma _make_coreferences_Ok (corefs : list coref)
  (out : list (option string * list string)) :
  _make_coreferences corefs = Ok out ->
  out = merged_corefs (joined_corefs corefs) /\ forallb two_paths out = true.
Proof.
  unfold _make_coreferences.
  destruct (forallb two_paths (merged_corefs (joined_corefs corefs))) eqn:E.
  - intros [= <-]. split; [reflexivity | exact E].
  - destruct (last _ _) as [[cr paths]|]; discriminate.
Qed.

(** When nothing was recorded, nothing is merged. *)
Lemma merged_corefs_nil : merged_corefs [] = [].
Proof. reflexivity. Qed.

Lemma last_Some_cons {A} (x : A) (l : list A) :
  exists y, last (map Some (x :: l)) None = Some y.
Proof.
  revert x. induction l as [|z l IH]; intros x; [now exists x|].
  destruct (IH z) as [y Hy]. exists y.
  change (map Some (x :: z :: l)) with (Some x :: map Some (z :: l)).
  cbn [last]. destruct (map Some (z :: l)) eqn:E; [discriminate E|].
  exact Hy.
Qed.

Lemma typedef_body_coreferences (fuel : nat) (identifier : string)
  (tokens tokens' : list string) (t : TdlType_) :
  typedef_body fuel identifier tokens = (Ok t, tokens') ->
  exists corefs, _make_coreferences corefs = Ok (tt_coreferences t).
Proof.
  intros H. unfold typedef_body in H.
  bind_step H. bind_step H. bind_step H.
  destruct r1 as [[tdldef corefs] doc].
  bind_step H.
  exists corefs.
  unfold lift in E2. injection E2 as E2 _.
  bind_step H. bind_step H. bind_step H. bind_step H. bind_step H.
  match type of H with
  | (if ?b then _ else _) _ = _ => destruct b; [discriminate H|]
  end.
  unfold lift in H. injection H as H _.
  apply TdlType_init_coreferences in H. now rewrite H.
Qed.

(** A solitary record makes [_make_coreferences] raise. *)
Lemma _make_coreferences_solitary (corefs : list coref) :
  forallb two_paths (merged_corefs (joined_corefs corefs)) = false ->
  exists rest : string,
    _make_coreferences corefs
    = Raise (TdlError ("Solitary coreference: " ++ rest)).
Proof.
  intros H. unfold _make_coreferences. rewrite H.
  destruct corefs as [|c corefs].
  - discriminate H.
  - destruct (last_Some_cons
                (fst c, map join_dot (snd c)) (joined_corefs corefs))
      as [[cr paths] Hlast].
    change (joined_corefs (c :: corefs))
      with ((fst c, map join_dot (snd c)) :: joined_corefs corefs).
    rewrite Hlast. eexists. reflexivity.
Qed.

(** C2 (amended). In every definition that [_parse_typedef] returns, each
    coreference tag has a merged list of at least two paths, repeated paths
    counted as many times as they were recorded, and so has each tagless
    record; and when the conjunction of a definition parses and the merged
    list of some tag, or some tagless record, has fewer than two paths,
    [_parse_typedef] raises a [TdlError] whose message begins with
    [Solitary coreference: ]. *)
Theorem coreferences_have_two_paths :
  (forall (fuel : nat) (tokens : list string) (t : TdlType_),
      _parse_typedef fuel tokens = Ok t ->
      forall (cr : option string) (paths : list string),
        In (cr, paths) (tt_coreferences t) -> 2 <= length paths)
  /\ (forall (fuel : nat) (identifier assignment : string)
             (tokens tokens1 tokens2 : list string)
             (affixes : option (list (string * string)))
             (tdldef : obj) (corefs : list coref) (doc : list string),
         _parse_affixes tokens = (Ok affixes, tokens1) ->
         _parse_conjunction fuel tokens1 = (Ok (tdldef, corefs, doc), tokens2) ->
         forallb two_paths (merged_corefs (joined_corefs corefs)) = false ->
         exists rest : string,
           _parse_typedef fuel (identifier :: assignment :: tokens)
           = Raise (TdlError ("Solitary coreference: " ++ rest))).
Proof.
  split.
  - intros fuel tokens t H cr paths Hin.
    unfold _parse_typedef in H.
    destruct (popleft tokens) as [[identifier|e] tokens1]; [|discriminate].
    destruct (typedef_body fuel identifier tokens1) as [[t'|e] tokens2] eqn:E;
      [|discriminate].
    injection H as ->.
    apply typedef_body_coreferences in E as [corefs Hc].
    apply _make_coreferences_Ok in Hc as [_ Hall].
    rewrite forallb_forall in Hall. specialize (Hall _ Hin).
    unfold two_paths in Hall. cbn [snd] in Hall.
    now apply Nat.leb_le in Hall.
  - intros fuel identifier assignment tokens tokens1 tokens2 affixes tdldef
      corefs doc Haff Hconj Hsol.
    destruct (_make_coreferences_solitary corefs Hsol) as [rest Hrest].
    exists rest.
    unfold _parse_typedef. cbn [popleft].
    unfold typedef_body. unfold bind at 1. cbn [popleft].
    unfold bind at 1. rewrite Haff.
    unfold bind at 1. rewrite Hconj.
    unfold bind at 1. unfold lift. rewrite Hrest.
    reflexivity.
Qed.

Lemma coreferences_have_two_paths_witness :
  (let tokens := ["a"; ":="; "b"; "&"; "#1"; "&"; "["; "F"; "#1"; "]"; "."] in
   exists t,
     _parse_typedef (typedef_fuel tokens) tokens = Ok t
     /\ In (Some "#1", [""; "F"]) (tt_coreferences t)
     /\ 2 <= length [""; "F"])
  /\ (exists rest,
        _parse_typedef 64 ["a"; ":="; "b"; "&"; "#1"; "."]
        = Raise (TdlError ("Solitary coreference: " ++ rest))).
Proof.
  split.
  - intros tokens. eexists.
    split; [vm_compute; reflexivity|].
    split; [cbn; left; reflexivity|].
    eapply (proj1 coreferences_have_two_paths
              (typedef_fuel tokens) tokens _ _ (Some "#1") [""; "F"]).
    Unshelve.
    3: vm_compute; reflexivity.
    cbn. left. reflexivity.
  - apply (proj2 coreferences_have_two_paths 64 "a" ":="
             ["b"; "&"; "#1"; "."] ["b"; "&"; "#1"; "."] ["."] None
             (TdlDefinition CTdlDefinition ["b"] (Some []))
             [(Some "#1", [[]])] []).
    + reflexivity.
    + vm_compute. reflexivity.
    + reflexivity.
Defined.

(** C2 as stated, refuted: [a := b & [ F #1, F #1 ].] is parsed, and the
    merged paths of [#1] are the one path [F], recorded twice. *)
Lemma coreference_with_one_distinct_path_is_accepted :
  let tokens := ["a"; ":="; "b"; "&"; "["; "F"; "#1"; ","; "F"; "#1"; "]"; "."] in
  exists t,
    _parse_typedef (typedef_fuel tokens) tokens = Ok t
    /\ tt_coreferences t = [(Some "#1", ["F"; "F"])]
    /\ ~ (exists p q, In p ["F"; "F"] /\ In q ["F"; "F"] /\ p <> q).
Proof.
  intros tokens. eexists.
  split; [vm_compute; reflexivity|].
  split; [reflexivity|].
  intros [p [q [Hp [Hq Hpq]]]]. simpl in Hp, Hq.
  destruct Hp as [<- | [<- | []]], Hq as [<- | [<- | []]]; now apply Hpq.
Qed.

(** The message of the error is made from the last record read, not from
    the record that is solitary: in [a := b & [ F #1, G #2, H #2 ].] the
    solitary tag is [#1], at [F], and the message names [#2] and [H]. *)
Example solitary_coreference_message_names_last_record :
  _make_coreferences
    [(Some "#1", [["F"]]); (Some "#2", [["G"]]); (Some "#2", [["H"]])]
  = Raise (TdlError ("Solitary coreference: #2" ++ newline ++ "['H']")).
Proof. reflexivity. Qed.

(** [repr] writes what is not printable with a backslash: a tab, a line
    break and a no-break space inside a text, and the text with a single
    quote between double quotes. *)
Example repr_list_escapes :
  repr_list
    [String.String (ascii_of_nat 9) "it's" ++ String.String (ascii_of_nat 160) "";
     "a" ++ newline ++ "b\c"]
  = "[" ++ String.String dquote "\tit's\xa0" ++ String.String dquote ""
    ++ ", 'a\nb\\c']".
Proof. reflexivity. Qed.

(** ** The token-stream parser *)

Lemma shift_significant (op t1 : Token) (rest : list Token) :
  _is_comment op = false -> _is_comment t1 = false ->
  _shift (op :: t1 :: rest)
  = (Ok (fst (fst op), snd (fst op), snd op, tok_gid t1), t1 :: rest).
Proof.
  intros Hop Ht1. unfold _shift, bind. cbn [tokens_peek].
  rewrite Hop. cbn [tokens_peek]. rewrite Ht1.
  destruct op as [[g t] l]. reflexivity.
Qed.

Lemma _parse_tdl_conjunction_is_Conjunction (fuel : nat) (ts ts' : list Token)
  (c : obj) (nextgid : nat) :
  _parse_tdl_conjunction fuel ts = (Ok (c, nextgid), ts') ->
  exists terms, c = Conjunction terms.
Proof.
  destruct fuel as [|fuel]; [discriminate|].
  cbn [_parse_tdl_conjunction]. unfold bind.
  destruct (conjunction_loop fuel [] ts) as [[[terms ng]|e] s]; [|discriminate].
  unfold lift, Conjunction_init.
  destruct (for_each add terms []) as [[[]|e] s']; [|discriminate].
  intros [= <- _ _]. now exists s'.
Qed.

(** C3. The token-stream parser has no check of the supertypes: a
    definition whose operator is [:=] (or [:<]) is returned as a [Type] as
    soon as its conjunction parses and the dot follows, whatever the
    conjunction holds, and so also when it holds no type term at all. *)
Theorem token_parser_accepts_definition_without_supertypes
  (fuel : nat) (identifier text : string) (line : nat) (t1 dot : Token)
  (rest rest' : list Token) (c : obj) :
  _is_comment t1 = false ->
  tok_gid t1 <> 1 -> tok_gid t1 <> 21 ->
  _parse_tdl_conjunction fuel (t1 :: rest) = (Ok (c, 10), dot :: rest') ->
  Type_supertypes (Type_init identifier c) = [] ->
  parse_definition fuel identifier ((7, text, line) :: t1 :: rest)
  = (Ok (EvType (Type_init identifier c)), rest').
Proof.
  intros Hcomment H1 H21 Hconj _.
  assert (Hshift : _shift ((7, text, line) :: t1 :: rest)
                   = (Ok (7, text, line, tok_gid t1), t1 :: rest))
    by (now apply (shift_significant (7, text, line))).
  unfold parse_definition. unfold bind at 1. rewrite_shift Hshift.
  apply Nat.eqb_neq in H1, H21.
  unfold bind at 1. rewrite H21. cbn [Nat.eqb andb orb].
  unfold bind at 1. rewrite H1, Hconj.
  reflexivity.
Qed.

Lemma token_parser_accepts_definition_without_supertypes_witness :
  let c := Conjunction [AVM (Some [("F", Conjunction [TypeIdentifier "b" None])]) None] in
  let tokens : list Token :=
    [(7, ":=", 1); (13, "[", 1); (24, "F", 1); (24, "b", 1); (16, "]", 1);
     (10, ".", 1)] in
  Type_supertypes (Type_init "a" c) = []
  /\ parse_definition (parse_fuel tokens) "a" tokens
     = (Ok (EvType (Type_init "a" c)), [])
  /\ _parse_tdl (parse_fuel ((24, "a", 1) :: tokens)) ((24, "a", 1) :: tokens)
     = ([EvType (Type_init "a" c)], None).
Proof.
  intros c tokens. split; [reflexivity|]. split; [|vm_compute; reflexivity].
  apply (@token_parser_accepts_definition_without_supertypes
           (parse_fuel tokens) "a" ":=" 1 (13, "[", 1) (10, ".", 1)
           [(24, "F", 1); (24, "b", 1); (16, "]", 1); (10, ".", 1)] [] c).
  - reflexivity.
  - discriminate.
  - discriminate.
  - vm_compute. reflexivity.
  - reflexivity.
Defined.

(** The older parser does check: the same definition is refused with
    [:=] and accepted with [:+]. *)
Example block_parser_requires_supertypes :
  _parse_typedef 64 ["a"; ":="; "["; "F"; "b"; "]"; "."]
  = Raise (TdlParsingError "Type definition requires supertypes." None None)
  /\ exists t, _parse_typedef 64 ["a"; ":+"; "["; "F"; "b"; "]"; "."] = Ok t
               /\ tt_supertypes t = [].
Proof. split; [reflexivity|]. eexists. split; reflexivity. Qed.

(** The operator [:+] is accepted by the token-stream parser too. *)
Example token_parser_accepts_addendum :
  exists t,
    _parse_tdl 64 [(24, "a", 1); (8, ":+", 1); (13, "[", 1); (24, "F", 1);
                   (24, "b", 1); (16, "]", 1); (10, ".", 1)]
    = ([EvType t], None)
    /\ Type_supertypes t = [].
Proof. eexists. split; reflexivity. Qed.

(** *** Affix subpatterns *)

Fixpoint no_space (s : string) : bool :=
  match s with
  | EmptyString => true
  | String.String c s' => negb (is_space c) && no_space s'
  end.

(** A word: not empty, without white space. *)
Definition word (s : string) : bool := nonempty s && no_space s.

Lemma lstrip_word (s : string) : word s = true -> lstrip s = s.
Proof.
  destruct s as [|c s]; [discriminate|].
  unfold word. cbn. intros H. apply andb_prop in H as [H _].
  now destruct (is_space c).
Qed.

Lemma first_word_word (m r : string) :
  no_space m = true ->
  first_word (m ++ String.String " " r) = (m, String.String " " r).
Proof.
  induction m as [|c m IH]; intros H; [reflexivity|].
  cbn in H. apply andb_prop in H as [Hc Hm].
  cbn [String.append first_word]. destruct (is_space c); [discriminate|].
  now rewrite (IH Hm).
Qed.

Lemma lstrip_word_app (m s : string) : word m = true -> lstrip (m ++ s) = m ++ s.
Proof.
  destruct m as [|c m]; [discriminate|].
  unfold word. cbn. intros H. apply andb_prop in H as [H _].
  now destruct (is_space c).
Qed.

(** [token.split(None, 1)] on a subpattern of two words. *)
Lemma split_subpattern (m r : string) :
  word m = true -> word r = true -> split_None_1 (m ++ " " ++ r) = [m; r].
Proof.
  intros Hm Hr.
  change (m ++ " " ++ r) with (m ++ String.String " " r).
  unfold split_None_1.
  rewrite (@lstrip_word_app m _ Hm).
  assert (Hne : m ++ String.String " " r <> "") by (destruct m; discriminate).
  destruct (m ++ String.String " " r) as [|c0 s0] eqn:E; [now elim Hne|].
  rewrite <- E.
  apply andb_prop in Hm as [_ Hm].
  rewrite (@first_word_word m r Hm).
  change (lstrip (String.String " " r)) with (lstrip r).
  rewrite (@lstrip_word r Hr).
  destruct r; [discriminate|reflexivity].
Qed.

(** A no-break space separates two words as a space does. *)
Example split_None_1_at_no_break_space :
  split_None_1 ("a" ++ String.String (ascii_of_nat 160) "b c") = ["a"; "b c"].
Proof. reflexivity. Qed.

(** The tokens of the subpatterns [(m1 r1) ... (mk rk)]. *)
Definition subpattern_tokens (pats : list (string * string * nat))
  : list Token :=
  map (fun p => (22, fst (fst p) ++ " " ++ snd (fst p), snd p)) pats.

Definition subpattern_words (p : string * string * nat) : bool :=
  word (fst (fst p)) && word (snd (fst p)).

Lemma affixes_loop_pairs (nxt : Token) (rest : list Token) :
  _is_comment nxt = false -> tok_gid nxt <> 22 ->
  forall (pats : list (string * string * nat)) (fuel : nat)
         (acc : list (string * string)),
    forallb subpattern_words pats = true ->
    length pats < fuel ->
    affixes_loop fuel acc
      (tok_gid (hd nxt (subpattern_tokens pats)))
      (subpattern_tokens pats ++ nxt :: rest)%list
    = (Ok (acc ++ map fst pats)%list, nxt :: rest).
Proof.
  intros Hnxt H22. apply Nat.eqb_neq in H22.
  induction pats as [|[[m r] l] pats IH]; intros fuel acc Hw Hfuel.
  - destruct fuel as [|fuel]; [inversion Hfuel|].
    cbn [subpattern_tokens map hd app affixes_loop]. rewrite H22.
    now rewrite app_nil_r.
  - destruct fuel as [|fuel]; [inversion Hfuel|].
    cbn [forallb] in Hw. apply andb_prop in Hw as [Hmr Hw].
    unfold subpattern_words in Hmr. cbn [fst snd] in Hmr.
    apply andb_prop in Hmr as [Hm Hr].
    cbn [subpattern_tokens map hd app fst snd].
    change (map (fun p : string * string * nat =>
                   (22, fst (fst p) ++ " " ++ snd (fst p), snd p)) pats)
      with (subpattern_tokens pats).
    cbn [affixes_loop tok_gid fst Nat.eqb].
    assert (Hshift :
              _shift ((22, m ++ " " ++ r, l)
                        :: (subpattern_tokens pats ++ nxt :: rest)%list)
              = (Ok (22, m ++ " " ++ r, l,
                     tok_gid (hd nxt (subpattern_tokens pats))),
                 (subpattern_tokens pats ++ nxt :: rest)%list)).
    { destruct pats as [|[[m' r'] l'] pats'].
      - cbn [subpattern_tokens map app hd].
        now apply (shift_significant (22, m ++ " " ++ r, l)).
      - cbn [subpattern_tokens map app hd fst snd].
        now apply (shift_significant (22, m ++ " " ++ r, l)). }
    unfold bind at 1. rewrite_shift Hshift.
    rewrite (@split_subpattern m r Hm Hr).
    rewrite (IH fuel (acc ++ [(m, r)])%list Hw).
    + now rewrite <- app_assoc.
    + simpl in Hfuel. lia.
Qed.

(** X10. After an affix marker, for subpatterns that are each two words
    with one space between them (a word is not empty and has no white
    space, of any of the kinds of [is_space]), [_parse_tdl_affixes] returns
    the marker text and the pairs of the subpatterns in their order, and
    stops at the first token that is not a subpattern. *)
Lemma _parse_tdl_affixes_pairs (atype : string) (line : nat)
  (pats : list (string * string * nat)) (nxt : Token) (rest : list Token)
  (fuel : nat) :
  _is_comment nxt = false -> tok_gid nxt <> 22 ->
  forallb subpattern_words pats = true ->
  length pats < fuel ->
  _parse_tdl_affixes fuel
    ((21, atype, line) :: subpattern_tokens pats ++ nxt :: rest)%list
  = (Ok (atype, map fst pats), nxt :: rest).
Proof.
  intros Hnxt H22 Hw Hfuel. unfold _parse_tdl_affixes.
  assert (Hshift :
            _shift ((21, atype, line)
                      :: (subpattern_tokens pats ++ nxt :: rest)%list)
            = (Ok (21, atype, line,
                   tok_gid (hd nxt (subpattern_tokens pats))),
               (subpattern_tokens pats ++ nxt :: rest)%list)).
  { destruct pats as [|[[m' r'] l'] pats'].
    - cbn [subpattern_tokens map app hd].
      now apply (shift_significant (21, atype, line)).
    - cbn [subpattern_tokens map app hd fst snd].
      now apply (shift_significant (21, atype, line)). }
  unfold bind at 1. rewrite_shift Hshift. cbn [Nat.eqb negb].
  unfold bind at 1.
  rewrite (@affixes_loop_pairs nxt rest Hnxt H22 pats fuel [] Hw Hfuel).
  reflexivity.
Qed.

(** C4. An inflectional rule is never built: [InflRule.__init__] hands the
    conjunction to [TdlType.__init__], which reads its [supertypes]
    attribute, and a conjunction has none.  So a definition with [:=] and
    an affix marker, whose subpatterns and conjunction parse, ends in an
    [AttributeError]; the pairs that [_parse_tdl_affixes] returned are
    lost. *)
Theorem inflectional_rule_raises_AttributeError
  (fuel : nat) (identifier text : string) (line : nat) (t1 : Token)
  (rest rest1 rest2 : list Token) (atype : string)
  (affs : list (string * string)) (c : obj) (nextgid : nat) :
  tok_gid t1 = 21 ->
  _parse_tdl_affixes fuel (t1 :: rest) = (Ok (atype, affs), rest1) ->
  _parse_tdl_conjunction fuel rest1 = (Ok (c, nextgid), rest2) ->
  InflRule_init identifier atype affs c = Raise (AttributeError "supertypes")
  /\ parse_definition fuel identifier ((7, text, line) :: t1 :: rest)
     = (Raise (AttributeError "supertypes"), rest2).
Proof.
  intros H21 Haff Hconj.
  destruct (_parse_tdl_conjunction_is_Conjunction _ _ Hconj) as [terms ->].
  split; [reflexivity|].
  assert (Hcomment : _is_comment t1 = false).
  { unfold _is_comment. rewrite H21. reflexivity. }
  assert (Hshift : _shift ((7, text, line) :: t1 :: rest)
                   = (Ok (7, text, line, tok_gid t1), t1 :: rest))
    by (now apply (shift_significant (7, text, line))).
  unfold parse_definition. unfold bind at 1. rewrite_shift Hshift.
  rewrite H21. cbn [Nat.eqb andb].
  unfold bind at 1. unfold bind at 1. rewrite Haff.
  unfold bind at 1. rewrite Hconj.
  reflexivity.
Qed.

Lemma inflectional_rule_raises_AttributeError_witness :
  let tokens : list Token :=
    [(7, ":=", 1); (21, "suffix", 1); (22, "x y", 1); (22, "*z w", 1);
     (24, "b", 1); (10, ".", 1)] in
  _parse_tdl_affixes (parse_fuel tokens) (tl tokens)
  = (Ok ("suffix", [("x", "y"); ("*z", "w")]), [(24, "b", 1); (10, ".", 1)])
  /\ parse_definition (parse_fuel tokens) "a" tokens
     = (Raise (AttributeError "supertypes"), [(10, ".", 1)])
  /\ _parse_tdl (parse_fuel ((24, "a", 1) :: tokens)) ((24, "a", 1) :: tokens)
     = ([], Some (AttributeError "supertypes")).
Proof.
  intros tokens. split; [vm_compute; reflexivity|].
  split; [|vm_compute; reflexivity].
  apply (@inflectional_rule_raises_AttributeError
           (parse_fuel tokens) "a" ":=" 1 (21, "suffix", 1)
           [(22, "x y", 1); (22, "*z w", 1); (24, "b", 1); (10, ".", 1)]
           [(24, "b", 1); (10, ".", 1)] [(10, ".", 1)]
           "suffix" [("x", "y"); ("*z", "w")]
           (Conjunction [TypeIdentifier "b" None]) 10).
  - reflexivity.
  - vm_compute. reflexivity.
  - vm_compute. reflexivity.
Defined.

(** * Further properties *)

(** ** [Conjunction.add]: the order of the terms *)

Lemma for_each_add_app (ts : list obj) :
  forall s,
    Forall (fun t => forall s, add t s = (Ok tt, (s ++ flatten t)%list)) ts ->
    for_each add ts s = (Ok tt, (s ++ flat_map flatten ts)%list).
Proof.
  induction ts as [|t ts IH]; intros s H; cbn [for_each flat_map].
  - now rewrite app_nil_r.
  - inversion H as [|? ? Ht Hts]; subst.
    unfold bind. rewrite Ht, (IH _ Hts), <- app_assoc. reflexivity.
Qed.

Lemma add_addable (x : obj) :
  addable x = true -> forall s, add x s = (Ok tt, (s ++ flatten x)%list).
Proof.
  induction x as [terms IH | o Ho] using obj_conj_ind; intros Hx s.
  - cbn [add flatten]. apply for_each_add_app.
    cbn [addable] in Hx. rewrite forallb_forall in Hx.
    rewrite Forall_forall in IH |- *.
    intros t Ht. apply (IH t Ht), Hx, Ht.
  - rewrite (add_non_conjunction _ _ Ho).
    destruct o; try discriminate; reflexivity.
Qed.

Lemma add_not_addable (x : obj) :
  addable x = false ->
  forall s, fst (add x s) = Raise (TypeError "Not a Term or Conjunction").
Proof.
  induction x as [terms IH | o Ho] using obj_conj_ind; intros Hx s.
  - cbn [add]. cbn [addable] in Hx. revert s.
    induction IH as [|t ts Ht _ IHts]; intros s; [discriminate Hx|].
    cbn [forallb] in Hx. cbn [for_each]. unfold bind.
    destruct (addable t) eqn:Et.
    + rewrite (add_addable _ Et). apply IHts. exact Hx.
    + specialize (Ht eq_refl s).
      destruct (add t s) as [[[]|e] s']; cbn [fst] in *;
        [discriminate Ht | exact Ht].
  - rewrite (add_non_conjunction _ _ Ho).
    destruct o; try discriminate; reflexivity.
Qed.

(** X1. [Conjunction(terms)] succeeds exactly when every argument is a
    [Term] or a conjunction, at any depth, of [Term]s; its terms are then
    the terms of the arguments with every conjunction opened, in their
    order.  Otherwise it raises [TypeError]. *)
Theorem Conjunction_init_flattens_in_order (terms : list obj) :
  (forallb addable terms = true ->
   Conjunction_init terms = Ok (Conjunction (flat_map flatten terms)))
  /\ (forallb addable terms = false ->
      Conjunction_init terms = Raise (TypeError "Not a Term or Conjunction")).
Proof.
  unfold Conjunction_init.
  change (for_each add terms []) with (add (Conjunction terms) []).
  split; intros H.
  - now rewrite (add_addable (Conjunction terms) H).
  - pose proof (add_not_addable (Conjunction terms) H []) as Hr.
    destruct (add (Conjunction terms) []) as [[[]|e] s]; cbn [fst] in Hr;
      [discriminate Hr | now injection Hr as ->].
Qed.

Lemma Conjunction_init_flattens_in_order_witness :
  Conjunction_init
    [TypeIdentifier "a" None;
     Conjunction [Conjunction [String "s" None]; Coreference (Some "#1") None];
     AVM (Some []) None]
  = Ok (Conjunction [TypeIdentifier "a" None; String "s" None;
                     Coreference (Some "#1") None; AVM (Some []) None])
  /\ Conjunction_init [TypeIdentifier "a" None; Conjunction [PyStr "b"]]
     = Raise (TypeError "Not a Term or Conjunction").
Proof.
  split.
  - apply (proj1 (Conjunction_init_flattens_in_order
                    [TypeIdentifier "a" None;
                     Conjunction [Conjunction [String "s" None];
                                  Coreference (Some "#1") None];
                     AVM (Some []) None])).
    reflexivity.
  - apply (proj2 (Conjunction_init_flattens_in_order
                    [TypeIdentifier "a" None; Conjunction [PyStr "b"]])).
    reflexivity.
Defined.

(** ** [_collect_list_items]: the paths it returns *)

(** Indexing below [REST]. *)
Lemma getitem_under_tail (p : string) (avm : featmap) :
  getitem (LIST_TAIL ++ "." ++ p) avm
  = match getitem LIST_TAIL avm with
    | Ok v =>
        match as_fs v with
        | Some sub => getitem p sub
        | None => Raise (TypeError "object is not subscriptable")
        end
    | Raise e => Raise e
    end.
Proof.
  destruct avm as [d|]; [|reflexivity].
  unfold getitem. cbn -[dict_get].
  destruct (dict_get "REST" d); reflexivity.
Qed.

Lemma collect_None (fuel : nat) (items : list (string * obj)) :
  _collect_list_items fuel PyNone = Ok items -> items = [].
Proof. destruct fuel; [discriminate|]. now intros [= <-]. Qed.

(** X2. Every pair [(path, value)] that [_collect_list_items(d)] returns
    is a feature of [d]: [d[path]] is [value]. *)
Theorem collected_items_are_features (fuel : nat) :
  forall (d : obj) (items : list (string * obj)),
    _collect_list_items fuel d = Ok items ->
    forall (path : string) (value : obj),
      In (path, value) items -> py_getitem d path = Ok value.
Proof.
  induction fuel as [|fuel IH]; intros d items H path value Hin;
    [discriminate H|].
  destruct (as_fs d) as [avm|] eqn:Hd.
  - rewrite (collect_unfold _ _ Hd) in H.
    unfold py_getitem. rewrite Hd.
    unfold rbind in H.
    destruct (get LIST_HEAD PyNone avm) as [head|e]; [|discriminate H].
    assert (Hbody :
              head = PyNone /\ items = [] \/
              exists first tail items',
                getitem LIST_HEAD avm = Ok first
                /\ get LIST_TAIL PyNone avm = Ok tail
                /\ _collect_list_items fuel tail = Ok items'
                /\ items = (LIST_HEAD, first)
                             :: map (fun pv => (LIST_TAIL ++ "." ++ fst pv, snd pv))
                                  items').
    { destruct head;
        try (left; split; [reflexivity | injection H as <-; reflexivity]);
        right;
        (destruct (getitem LIST_HEAD avm) as [first|e] eqn:Ef;
         [|discriminate H]);
        (destruct (get LIST_TAIL PyNone avm) as [tail|e] eqn:Et;
         [|discriminate H]);
        (destruct (_collect_list_items fuel tail) as [items'|e] eqn:Ec;
         [|discriminate H]);
        injection H as <-; exists first, tail, items';
        repeat split; assumption. }
    clear H.
    destruct Hbody as [[_ ->] | (first & tail & items' & Hf & Ht & Hc & ->)];
      [now destruct Hin|].
    destruct Hin as [[= <- <-] | Hin]; [exact Hf|].
    apply in_map_iff in Hin as ([p' v'] & [= <- <-] & Hin').
    change (getitem (LIST_TAIL ++ "." ++ p') avm = Ok v').
    rewrite getitem_under_tail.
    unfold get in Ht.
    destruct (getitem LIST_TAIL avm) as [t|e] eqn:Egt.
    + injection Ht as ->.
      specialize (IH _ _ Hc _ _ Hin'). unfold py_getitem in IH.
      destruct (as_fs tail); [exact IH | discriminate IH].
    + destruct e; try discriminate Ht. injection Ht as <-.
      apply collect_None in Hc. subst items'. now destruct Hin'.
  - destruct d; try discriminate Hd; cbn in H; try discriminate H.
    injection H as <-. now destruct Hin.
Qed.

Lemma collected_items_are_features_witness :
  let d := AVM (Some [("FIRST", TypeIdentifier "a" None);
                      ("REST", AVM (Some [("FIRST", String "b" None)]) None)])
             None in
  _collect_list_items 3 d
  = Ok [("FIRST", TypeIdentifier "a" None); ("REST.FIRST", String "b" None)]
  /\ py_getitem d "REST.FIRST" = Ok (String "b" None).
Proof.
  intros d. split; [reflexivity|].
  apply (@collected_items_are_features 3 d
           [("FIRST", TypeIdentifier "a" None); ("REST.FIRST", String "b" None)]).
  - reflexivity.
  - right. left. reflexivity.
Defined.

(** ** [ConsList]: where the values are *)

Lemma getitem_item_path (tail : list (string * obj)) (vs : list obj) :
  forall (i : nat) (x : obj),
    nth_error vs i = Some x ->
    getitem (item_path i) (Some (list_chain vs tail)) = Ok x.
Proof.
  induction vs as [|v vs IH]; intros i x Hi; [now destruct i|].
  destruct i as [|i].
  - injection Hi as <-. reflexivity.
  - cbn [nth_error] in Hi. specialize (IH i x Hi).
    assert (Hp : item_path (S i) = LIST_TAIL ++ "." ++ item_path i).
    { destruct i as [|i]; [reflexivity|].
      unfold item_path. rewrite rest_path_SS, !string_app_assoc. reflexivity. }
    rewrite Hp, getitem_under_tail.
    change (list_chain (v :: vs) tail)
      with [(LIST_HEAD, v); (LIST_TAIL, AVM (Some (list_chain vs tail)) None)].
    rewrite getitem_tail.
    change (dict_get LIST_TAIL
              [(LIST_HEAD, v); (LIST_TAIL, AVM (Some (list_chain vs tail)) None)])
      with (Some (AVM (Some (list_chain vs tail)) None)).
    exact IH.
Qed.

Lemma getitem_item_path_end (tail : list (string * obj)) (vs : list obj) :
  dict_get LIST_HEAD tail = None ->
  getitem (item_path (length vs)) (Some (list_chain vs tail))
  = Raise (KeyError LIST_HEAD).
Proof.
  intros Htail. induction vs as [|v vs IH].
  - cbn [length item_path list_chain]. rewrite getitem_head, Htail. reflexivity.
  - assert (Hp : item_path (length (v :: vs))
                 = LIST_TAIL ++ "." ++ item_path (length vs)).
    { cbn [length]. destruct (length vs) as [|n]; [reflexivity|].
      unfold item_path. rewrite rest_path_SS, !string_app_assoc. reflexivity. }
    rewrite Hp, getitem_under_tail.
    change (list_chain (v :: vs) tail)
      with [(LIST_HEAD, v); (LIST_TAIL, AVM (Some (list_chain vs tail)) None)].
    rewrite getitem_tail.
    change (dict_get LIST_TAIL
              [(LIST_HEAD, v); (LIST_TAIL, AVM (Some (list_chain vs tail)) None)])
      with (Some (AVM (Some (list_chain vs tail)) None)).
    exact IH.
Qed.

(** X3. In the list built from the values [v0 ... v(n-1)], n >= 1, and any
    end, the [i]-th value is at [FIRST] below [i] tails ([FIRST],
    [REST.FIRST], [REST.REST.FIRST], ...), and there is no [FIRST] below
    [n] tails: the structure has exactly n items, whatever the end is. *)
Theorem ConsList_items_are_at_item_paths
  (v : obj) (vs : list obj) (end_ : obj) (doc : option string) :
  exists self : ConsList_ obj,
    ConsList_init (v :: vs) end_ doc = Ok self
    /\ (forall (i : nat) (x : obj),
           nth_error (v :: vs) i = Some x ->
           getitem (item_path i) (_avm self) = Ok x)
    /\ getitem (item_path (length (v :: vs))) (_avm self)
       = Raise (KeyError LIST_HEAD).
Proof.
  eexists. split; [apply ConsList_init_nonempty|].
  cbn [_avm]. split.
  - apply getitem_item_path.
  - now apply getitem_item_path_end.
Qed.

(** ** [_make_coreferences]: what is merged *)

Lemma merged_extend_keys (cr : string) (paths : list string)
  (merged : list (string * list string)) :
  forall t,
    In t (map fst (merged_extend cr paths merged))
    <-> In t (map fst merged) \/ t = cr.
Proof.
  induction merged as [|[k v] merged IH]; intros t; cbn [merged_extend map fst].
  - cbn. intuition.
  - destruct (String.eqb k cr) eqn:E.
    + apply String.eqb_eq in E. subst. cbn. intuition.
    + cbn [map fst In]. rewrite IH. intuition.
Qed.

Lemma merged_extend_NoDup (cr : string) (paths : list string)
  (merged : list (string * list string)) :
  NoDup (map fst merged) -> NoDup (map fst (merged_extend cr paths merged)).
Proof.
  induction merged as [|[k v] merged IH]; intros H; cbn [merged_extend map fst].
  - constructor; [intros [] | constructor].
  - destruct (String.eqb k cr) eqn:E; [exact H|].
    inversion H as [|? ? Hk Hm]; subst. cbn [map fst]. constructor.
    + rewrite merged_extend_keys. intros [Hin | ->]; [now apply Hk|].
      now rewrite String.eqb_refl in E.
    + now apply IH.
Qed.

(** The entry of a tag after [merged[cr].extend(paths)]. *)
Lemma merged_extend_In (cr : string) (paths : list string)
  (merged : list (string * list string)) :
  NoDup (map fst merged) ->
  forall t ps,
    In (t, ps) (merged_extend cr paths merged)
    <-> (t <> cr /\ In (t, ps) merged)
        \/ (t = cr /\
            ((exists old, In (cr, old) merged /\ ps = (old ++ paths)%list)
             \/ (~ In cr (map fst merged) /\ ps = paths))).
Proof.
  induction merged as [|[k v] merged IH]; intros Hnd t ps;
    cbn [merged_extend].
  - cbn. split.
    + intros [[= <- <-] | []]. right. split; [reflexivity|]. right. intuition.
    + intros [[_ []] | [-> [[old [[] _]] | [_ ->]]]]. now left.
  - inversion Hnd as [|? ? Hk Hm]; subst.
    destruct (String.eqb k cr) eqn:E.
    + apply String.eqb_eq in E. subst k. cbn [In]. split.
      * intros [[= <- <-] | Hin].
        -- right. split; [reflexivity|]. left. exists v. split; [now left | reflexivity].
        -- left. split; [|now right].
           intros ->. apply Hk. apply (in_map fst) in Hin. exact Hin.
      * intros [[Hne [[= -> _] | Hin]] | [-> [[old [[[= ->] | Hin] ->]] | [Hn _]]]].
        -- now elim Hne.
        -- now right.
        -- now left.
        -- elim Hk. apply (in_map fst) in Hin. exact Hin.
        -- elim Hn. now left.
    + assert (Hkc : k <> cr) by (now apply String.eqb_neq).
      cbn [In]. rewrite (IH Hm). cbn [map fst In]. split.
      * intros [[= <- <-] | [[Hne Hin] | [-> [[old [Hin ->]] | [Hn ->]]]]].
        -- left. split; [exact Hkc | now left].
        -- left. split; [exact Hne | now right].
        -- right. split; [reflexivity|]. left. exists old. split; [now right | reflexivity].
        -- right. split; [reflexivity|]. right. split; [|reflexivity].
           intros [-> | Hin]; [now elim Hkc | now apply Hn].
      * intros [[Hne [[= <- <-] | Hin]] | [-> [[old [[[= -> _] | Hin] ->]] | [Hn ->]]]].
        -- now left.
        -- right. left. now split.
        -- now elim Hkc.
        -- right. right. split; [reflexivity|]. left. now exists old.
        -- right. right. split; [reflexivity|]. right. split; [|reflexivity].
           intros Hin. apply Hn. now right.
Qed.

Lemma paths_of_tag_snoc (cr : string) (l : list (option string * list string))
  (cp : option string * list string) :
  paths_of_tag cr (l ++ [cp])
  = (paths_of_tag cr l
       ++ match fst cp with
          | Some t => if String.eqb t cr then snd cp else []
          | None => []
          end)%list.
Proof.
  unfold paths_of_tag. rewrite flat_map_app. cbn [flat_map].
  now rewrite app_nil_r.
Qed.

Lemma tag_recorded_snoc (cr : string) (l : list (option string * list string))
  (cp : option string * list string) :
  tag_recorded cr (l ++ [cp])
  = tag_recorded cr l
    || match fst cp with Some t => String.eqb t cr | None => false end.
Proof.
  unfold tag_recorded. rewrite existsb_app. cbn [existsb].
  now rewrite orb_false_r.
Qed.

Lemma merge_step_invariant (l : list (option string * list string))
  (acc : list (string * list string) * list (option string * list string))
  (cp : option string * list string) :
  merge_invariant l acc -> merge_invariant (l ++ [cp]) (merge_step acc cp).
Proof.
  destruct acc as [merged unl]. intros (Hnd & Hin & Hun). cbn [fst snd] in *.
  unfold merge_step, merge_invariant.
  destruct cp as [[cr|] paths]; cbn [fst snd].
  - split; [now apply merged_extend_NoDup|]. split.
    + intros t ps. rewrite (merged_extend_In cr paths merged Hnd).
      rewrite tag_recorded_snoc, paths_of_tag_snoc. cbn [fst snd].
      destruct (String.eqb cr t) eqn:E.
      * apply String.eqb_eq in E. subst t. rewrite orb_true_r. split.
        -- intros [[Hne _] | [_ [[old [Hold ->]] | [Hn ->]]]].
           ++ now elim Hne.
           ++ apply Hin in Hold as [_ ->]. now split.
           ++ split; [reflexivity|].
              assert (Hp : paths_of_tag cr l = []).
              { destruct (tag_recorded cr l) eqn:Er.
                - elim Hn. apply in_map_iff.
                  exists (cr, paths_of_tag cr l). split; [reflexivity|].
                  apply Hin. now split.
                - clear -Er. unfold tag_recorded, paths_of_tag in *.
                  induction l as [|[[t|] q] l IH]; cbn in *; [reflexivity| |].
                  + apply orb_false_iff in Er as [-> Er]. now apply IH.
                  + now apply IH. }
              now rewrite Hp.
        -- intros [_ ->]. right. split; [reflexivity|].
           destruct (tag_recorded cr l) eqn:Er.
           ++ left. exists (paths_of_tag cr l). split; [|reflexivity].
              apply Hin. now split.
           ++ right. split.
              ** intros Hk. apply in_map_iff in Hk as [[k v] [Hkv Hk]].
                 cbn in Hkv. subst k. apply Hin in Hk as [Hk _].
                 rewrite Hk in Er. discriminate.
              ** clear -Er. unfold tag_recorded, paths_of_tag in *.
                 induction l as [|[[t|] q] l IH]; cbn in *; [reflexivity| |].
                 --- apply orb_false_iff in Er as [-> Er]. now apply IH.
                 --- now apply IH.
      * assert (Hne : t <> cr).
        { intros ->. now rewrite String.eqb_refl in E. }
        rewrite orb_false_r, app_nil_r. rewrite <- Hin. split.
        -- intros [[_ H] | [-> _]]; [exact H | now elim Hne].
        -- intros H. left. now split.
    + rewrite Hun. unfold unlabeled_corefs. rewrite filter_app. cbn.
      now rewrite app_nil_r.
  - split; [exact Hnd|]. split.
    + intros t ps. rewrite tag_recorded_snoc, paths_of_tag_snoc. cbn [fst snd].
      rewrite orb_false_r, app_nil_r. apply Hin.
    + rewrite Hun. unfold unlabeled_corefs. rewrite filter_app. reflexivity.
Qed.

Lemma merge_fold_invariant (rest l : list (option string * list string)) :
  forall acc,
    merge_invariant l acc ->
    merge_invariant (l ++ rest) (fold_left merge_step rest acc).
Proof.
  revert l. induction rest as [|cp rest IH]; intros l acc H; cbn [fold_left].
  - now rewrite app_nil_r.
  - replace (l ++ cp :: rest)%list with ((l ++ [cp]) ++ rest)%list
      by (now rewrite <- app_assoc).
    apply IH, merge_step_invariant, H.
Qed.

(** X4. The list that [_make_coreferences] returns has one record for each
    tag that was recorded, and no tag twice; the paths of a tag are the
    dot-joined paths of all its records, in the order in which they were
    recorded; the records without a tag follow the tagged ones, unchanged
    and in their order. *)
Theorem _make_coreferences_merges_by_tag (corefs : list coref)
  (out : list (option string * list string)) :
  _make_coreferences corefs = Ok out ->
  exists labeled : list (string * list string),
    out = (map (fun kv => (Some (fst kv), snd kv)) labeled
             ++ unlabeled_corefs (joined_corefs corefs))%list
    /\ NoDup (map fst labeled)
    /\ (forall cr paths,
           In (cr, paths) labeled
           <-> tag_recorded cr (joined_corefs corefs) = true
               /\ paths = paths_of_tag cr (joined_corefs corefs)).
Proof.
  intros H. apply _make_coreferences_Ok in H as [-> _].
  unfold merged_corefs.
  assert (Hinv : merge_invariant (joined_corefs corefs)
                   (fold_left merge_step (joined_corefs corefs) ([], []))).
  { apply (@merge_fold_invariant (joined_corefs corefs) [] ([], [])).
    split; [constructor|]. split; [|reflexivity].
    intros t ps. cbn. split; [intros [] | intros [H _]; discriminate H]. }
  destruct (fold_left merge_step (joined_corefs corefs) ([], []))
    as [merged unl].
  destruct Hinv as (Hnd & Hin & Hun). cbn [fst snd] in *.
  exists merged. rewrite Hun. split; [reflexivity|]. split; [exact Hnd|exact Hin].
Qed.

Lemma _make_coreferences_merges_by_tag_witness :
  let corefs : list coref :=
    [(Some "#1", [["A"; "B"]]); (None, [["LIST"]; ["LAST"]]);
     (Some "#2", [["C"]; ["D"]]); (Some "#1", [["E"]])] in
  exists labeled,
    [(Some "#1", ["A.B"; "E"]); (Some "#2", ["C"; "D"]); (None, ["LIST"; "LAST"])]
    = (map (fun kv => (Some (fst kv), snd kv)) labeled
         ++ unlabeled_corefs (joined_corefs corefs))%list
    /\ NoDup (map fst labeled)
    /\ (forall cr paths,
           In (cr, paths) labeled
           <-> tag_recorded cr (joined_corefs corefs) = true
               /\ paths = paths_of_tag cr (joined_corefs corefs)).
Proof.
  intros corefs.
  apply (@_make_coreferences_merges_by_tag corefs
           [(Some "#1", ["A.B"; "E"]); (Some "#2", ["C"; "D"]);
            (None, ["LIST"; "LAST"])]).
  reflexivity.
Defined.

(** X5. When [_make_coreferences] fails, its message is made from the last
    record of its argument (the tag, or [None], and the dot-joined paths of
    that record alone, as [repr] writes the list of them), whichever record
    is the solitary one. *)
Theorem solitary_message_is_made_from_last_record
  (corefs : list coref) (cr : option string) (paths : list (list string)) :
  forallb two_paths (merged_corefs (joined_corefs (corefs ++ [(cr, paths)])))
  = false ->
  _make_coreferences (corefs ++ [(cr, paths)])
  = Raise (TdlError ("Solitary coreference: " ++ str_of_tag cr ++ newline
                       ++ repr_list (map join_dot paths))).
Proof.
  intros H. unfold _make_coreferences. rewrite H.
  unfold joined_corefs at 1. rewrite !map_app. cbn [map fst snd].
  rewrite last_last. reflexivity.
Qed.

Lemma solitary_message_is_made_from_last_record_witness :
  _make_coreferences
    ([(Some "#1", [["F"]]); (Some "#2", [["G"]])] ++ [(Some "#2", [["H"]])])
  = Raise (TdlError ("Solitary coreference: #2" ++ newline ++ "['H']")).
Proof.
  apply (@solitary_message_is_made_from_last_record
           [(Some "#1", [["F"]]); (Some "#2", [["G"]])] (Some "#2") [["H"]]).
  reflexivity.
Defined.

(** ** The token-stream parser: comments, letter-sets and stray tokens *)

Lemma _parse_tdl_loop_passthrough (toks : list Token) :
  forall (rest : list Token) (fuel : nat),
    forallb is_passthrough toks = true ->
    _parse_tdl_loop (length toks + fuel) (toks ++ rest)
    = let (evs, e) := _parse_tdl_loop fuel rest in
      ((map passthrough_event toks ++ evs)%list, e).
Proof.
  induction toks as [|[[g t] l] toks IH]; intros rest fuel H.
  - cbn [length Nat.add app map]. now destruct (_parse_tdl_loop fuel rest).
  - cbn [forallb] in H. apply andb_prop in H as [Hp H].
    cbn [length Nat.add app _parse_tdl_loop tokens_next].
    rewrite (IH rest fuel H).
    destruct (_parse_tdl_loop fuel rest) as [evs e].
    unfold is_passthrough, passthrough_event in *. cbn [tok_gid fst snd] in *.
    destruct g as [|[|[|[|g]]]]; try discriminate Hp; try reflexivity.
    do 16 (destruct g as [|g]; [discriminate Hp|]).
    destruct g as [|g]; [reflexivity | discriminate Hp].
Qed.

(** X6. Comments and letter-sets at the head of a stream are yielded as
    tuples [(line, kind, text)], one for each token and in their order, and
    what follows them is parsed as it would be alone. *)
Theorem _parse_tdl_passes_comments_through
  (toks rest : list Token) (fuel : nat) :
  forallb is_passthrough toks = true ->
  _parse_tdl (length toks + fuel) (toks ++ rest)
  = let (evs, e) := _parse_tdl fuel rest in
    ((map passthrough_event toks ++ evs)%list, e).
Proof.
  intros H. unfold _parse_tdl.
  rewrite (_parse_tdl_loop_passthrough toks rest fuel H).
  destruct (_parse_tdl_loop fuel rest) as [evs [e|]]; [|reflexivity].
  destruct e; reflexivity.
Qed.

Lemma _parse_tdl_passes_comments_through_witness :
  _parse_tdl (2 + 1) ([(3, " a comment", 1); (20, "!v aeiou", 2)] ++ [])
  = ([EvTuple 1 "LINECOMMENT" " a comment"; EvTuple 2 "LETTERSET" "!v aeiou"],
     None).
Proof.
  apply (@_parse_tdl_passes_comments_through
           [(3, " a comment", 1); (20, "!v aeiou", 2)] [] 1).
  reflexivity.
Defined.

(** X7. A token at top level that is neither a comment, a letter-set nor
    an identifier ends the parse with a syntax error that names the token
    and its line; the comments and letter-sets read before it have been
    yielded. *)
Theorem _parse_tdl_unexpected_token
  (toks rest : list Token) (gid : nat) (text : string) (line fuel : nat) :
  forallb is_passthrough toks = true ->
  is_passthrough (gid, text, line) = false ->
  gid <> 24 ->
  _parse_tdl (length toks + S fuel) (toks ++ (gid, text, line) :: rest)
  = (map passthrough_event toks,
     Some (TdlParsingError ("Syntax error; unexpected token: " ++ text)
             (Some line) None)).
Proof.
  intros Hp Hbad H24.
  rewrite (_parse_tdl_passes_comments_through toks _ (S fuel) Hp).
  assert (Hone : _parse_tdl (S fuel) ((gid, text, line) :: rest)
                 = ([], Some (TdlParsingError
                                ("Syntax error; unexpected token: " ++ text)
                                (Some line) None))).
  { unfold _parse_tdl. cbn [_parse_tdl_loop tokens_next].
    unfold is_passthrough in Hbad. cbn [tok_gid fst] in Hbad.
    apply Nat.eqb_neq in H24. rewrite H24.
    destruct (gid =? 2)%nat eqn:E2;
      [apply Nat.eqb_eq in E2; subst; discriminate Hbad|].
    destruct (gid =? 3)%nat eqn:E3;
      [apply Nat.eqb_eq in E3; subst; discriminate Hbad|].
    destruct (gid =? 20)%nat eqn:E20;
      [apply Nat.eqb_eq in E20; subst; discriminate Hbad|].
    reflexivity. }
  rewrite Hone. now rewrite app_nil_r.
Qed.

Lemma _parse_tdl_unexpected_token_witness :
  _parse_tdl (1 + 1) ([(3, " a comment", 1)] ++ (7, ":=", 2) :: [(24, "a", 2)])
  = ([EvTuple 1 "LINECOMMENT" " a comment"],
     Some (TdlParsingError "Syntax error; unexpected token: :=" (Some 2) None)).
Proof.
  apply (@_parse_tdl_unexpected_token
           [(3, " a comment", 1)] [(24, "a", 2)] 7 ":=" 2 0).
  - reflexivity.
  - reflexivity.
  - discriminate.
Defined.

(** ** The token-stream parser: conjunctions of one-token terms *)

Lemma simple_gid_cases (g : nat) :
  simple_gid g = true -> g = 4 \/ g = 5 \/ g = 6 \/ g = 19 \/ g = 24.
Proof.
  unfold simple_gid. cbn [existsb]. rewrite !orb_true_iff, !Nat.eqb_eq.
  intros [H | [H | [H | [H | [H | H]]]]]; [tauto | tauto | tauto | tauto | tauto |].
  discriminate H.
Qed.

Lemma simple_not_comment (g : nat) (t : string) (l : nat) :
  simple_gid g = true -> _is_comment (g, t, l) = false.
Proof.
  intros H. apply simple_gid_cases in H.
  destruct H as [-> | [-> | [-> | [-> | ->]]]]; reflexivity.
Qed.

(** One term, read by [_parse_tdl_term]. *)
Lemma _parse_tdl_term_simple (t : simple_term) (nxt : Token)
  (tail : list Token) (fuel : nat) :
  simple_gid (st_gid t) = true ->
  _is_comment nxt = false ->
  _parse_tdl_term (S fuel) (simple_tokens t ++ nxt :: tail)%list
  = (Ok (simple_obj t, tok_gid nxt), nxt :: tail).
Proof.
  intros Hg Hn.
  pose proof (@simple_not_comment (st_gid t) (st_text t) (st_line t) Hg) as Hc.
  destruct t as [doc g txt ln]. cbn [st_gid st_text st_line st_doc] in *.
  unfold simple_tokens, simple_obj. cbn [st_gid st_text st_line st_doc].
  cbn [_parse_tdl_term].
  destruct doc as [[d dl]|]; cbn [doc_tokens doc_text app].
  - assert (H1 : _shift ((1, d, dl) :: (g, txt, ln) :: nxt :: tail)
                 = (Ok (1, d, dl, g), (g, txt, ln) :: nxt :: tail))
      by (now apply (shift_significant (1, d, dl))).
    assert (H2 : _shift ((g, txt, ln) :: nxt :: tail)
                 = (Ok (g, txt, ln, tok_gid nxt), nxt :: tail))
      by (now apply (shift_significant (g, txt, ln))).
    unfold bind at 1. rewrite_shift H1. cbn [Nat.eqb].
    unfold bind at 1. unfold bind at 1. rewrite_shift H2.
    apply simple_gid_cases in Hg.
    destruct Hg as [-> | [-> | [-> | [-> | ->]]]]; reflexivity.
  - assert (H2 : _shift ((g, txt, ln) :: nxt :: tail)
                 = (Ok (g, txt, ln, tok_gid nxt), nxt :: tail))
      by (now apply (shift_significant (g, txt, ln))).
    unfold bind at 1. rewrite_shift H2.
    apply simple_gid_cases in Hg.
    destruct Hg as [-> | [-> | [-> | [-> | ->]]]]; reflexivity.
Qed.

Lemma conjunction_loop_unfold (fuel : nat) (terms : list obj) :
  conjunction_loop (S fuel) terms
  = ('(term, nextgid) <- _parse_tdl_term fuel ;;
     let terms := (terms ++ [term])%list in
     if (nextgid =? 11)%nat then
       _ <- tokens_next ;; conjunction_loop fuel terms
     else ret (terms, nextgid))%py.
Proof. reflexivity. Qed.

Lemma conjunction_loop_simple (nxt : Token) (tail : list Token) :
  _is_comment nxt = false -> tok_gid nxt <> 11 ->
  forall (more : list (nat * simple_term)) (t0 : simple_term)
         (terms : list obj) (fuel : nat),
    simple_gid (st_gid t0) = true ->
    forallb (fun lt => simple_gid (st_gid (snd lt))) more = true ->
    length more + 1 < fuel ->
    conjunction_loop fuel terms (conj_tokens t0 more ++ nxt :: tail)%list
    = (Ok ((terms ++ conj_objs t0 more)%list, tok_gid nxt), nxt :: tail).
Proof.
  intros Hn H11. apply Nat.eqb_neq in H11.
  induction more as [|[l t1] more IH]; intros t0 terms fuel Hg Hmore Hfuel.
  - destruct fuel as [|[|fuel]]; [inversion Hfuel | cbn in Hfuel; lia |].
    unfold conj_tokens, conj_objs. cbn [flat_map map]. rewrite app_nil_r.
    rewrite conjunction_loop_unfold. unfold bind at 1.
    rewrite (@_parse_tdl_term_simple t0 nxt tail fuel Hg Hn).
    rewrite H11. reflexivity.
  - destruct fuel as [|[|fuel]]; [inversion Hfuel | cbn in Hfuel; lia |].
    cbn [forallb snd] in Hmore. apply andb_prop in Hmore as [Hg1 Hmore].
    unfold conj_tokens. cbn [flat_map fst snd].
    rewrite <- !app_assoc. cbn [app].
    change (simple_tokens t1
              ++ flat_map (fun lt : nat * simple_term =>
                             (11, "&", fst lt) :: simple_tokens (snd lt)) more
              ++ nxt :: tail)%list
      with (simple_tokens t1
              ++ (flat_map (fun lt : nat * simple_term =>
                              (11, "&", fst lt) :: simple_tokens (snd lt)) more
                    ++ nxt :: tail))%list.
    rewrite conjunction_loop_unfold. unfold bind at 1.
    rewrite (@_parse_tdl_term_simple t0 (11, "&", l) _ fuel Hg eq_refl).
    cbn [tok_gid fst Nat.eqb]. unfold bind at 1. cbn [tokens_next].
    rewrite app_assoc.
    change (simple_tokens t1
              ++ flat_map (fun lt : nat * simple_term =>
                             (11, "&", fst lt) :: simple_tokens (snd lt)) more)%list
      with (conj_tokens t1 more).
    assert (Hf : length more + 1 < S fuel) by (cbn in Hfuel; lia).
    etransitivity;
      [exact (IH t1 (terms ++ [simple_obj t0])%list (S fuel) Hg1 Hmore Hf)|].
    unfold conj_objs. cbn [map snd]. now rewrite <- app_assoc.
Qed.

(** X8. [_parse_tdl_conjunction] on [t0 & t1 & ... & tn], each term one
    token (string, quoted symbol, regular expression, coreference or
    identifier) with or without a docstring before it: the conjunction has
    one term for each token, in the order written, of the class of the
    token and with its docstring; the function stops at the first token
    that is not [&], leaves it in the stream and returns its kind. *)
Theorem _parse_tdl_conjunction_of_simple_terms
  (t0 : simple_term) (more : list (nat * simple_term)) (nxt : Token)
  (tail : list Token) (fuel : nat) :
  simple_gid (st_gid t0) = true ->
  forallb (fun lt => simple_gid (st_gid (snd lt))) more = true ->
  _is_comment nxt = false -> tok_gid nxt <> 11 ->
  length more + 2 < fuel ->
  _parse_tdl_conjunction fuel (conj_tokens t0 more ++ nxt :: tail)%list
  = (Ok (Conjunction (conj_objs t0 more), tok_gid nxt), nxt :: tail).
Proof.
  intros Hg Hmore Hn H11 Hfuel.
  destruct fuel as [|fuel]; [inversion Hfuel|].
  cbn [_parse_tdl_conjunction]. unfold bind at 1.
  rewrite (@conjunction_loop_simple nxt tail Hn H11 more t0 [] fuel Hg Hmore)
    by lia.
  cbn [app]. unfold bind at 1, lift.
  assert (Hflat : flat (conj_objs t0 more) = true).
  { unfold flat, conj_objs. cbn [forallb]. apply andb_true_intro. split.
    - unfold simple_obj. apply simple_gid_cases in Hg.
      destruct Hg as [-> | [-> | [-> | [-> | ->]]]]; reflexivity.
    - rewrite forallb_forall in Hmore |- *.
      intros o Ho. apply in_map_iff in Ho as [lt [<- Hlt]].
      specialize (Hmore lt Hlt). unfold simple_obj.
      apply simple_gid_cases in Hmore.
      destruct Hmore as [-> | [-> | [-> | [-> | ->]]]]; reflexivity. }
  unfold Conjunction_init. rewrite (for_each_add_flat _ [] Hflat).
  reflexivity.
Qed.

Lemma _parse_tdl_conjunction_of_simple_terms_witness :
  _parse_tdl_conjunction 8
    (conj_tokens (mkSimple None 24 "b" 1)
       [(1, mkSimple (Some ("doc", 1)) 4 "s" 2); (2, mkSimple None 19 "#1" 2)]
       ++ (10, ".", 2) :: [])%list
  = (Ok (Conjunction [TypeIdentifier "b" None; String "s" (Some "doc");
                      Coreference (Some "#1") None], 10),
     [(10, ".", 2)]).
Proof.
  apply (@_parse_tdl_conjunction_of_simple_terms
           (mkSimple None 24 "b" 1)
           [(1, mkSimple (Some ("doc", 1)) 4 "s" 2); (2, mkSimple None 19 "#1" 2)]
           (10, ".", 2) [] 8).
  - reflexivity.
  - reflexivity.
  - reflexivity.
  - discriminate.
  - cbn. lia.
Defined.

(** ** The token-stream parser: one definition after another *)

Lemma peek_1_significant (t0 t1 : Token) (rest : list Token) :
  _is_comment t0 = false -> _is_comment t1 = false ->
  _peek 1 (t0 :: t1 :: rest) = (Ok t1, t0 :: t1 :: rest).
Proof.
  intros H0 H1. unfold _peek. cbn [tokens_peek]. rewrite H0.
  cbn [tokens_peek]. now rewrite H1.
Qed.

Lemma parse_definition_simple (fuel : nat) (identifier : string)
  (g : nat) (op : string) (l : nat) (t0 : simple_term)
  (more : list (nat * simple_term)) (pre_dot : option (string * nat))
  (dot : string * nat) (tail : list Token) :
  g = 7 \/ g = 8 ->
  simple_gid (st_gid t0) = true ->
  forallb (fun lt => simple_gid (st_gid (snd lt))) more = true ->
  length more + 2 < fuel ->
  parse_definition fuel identifier
    (definition_tokens (g, op, l) t0 more pre_dot dot ++ tail)%list
  = (Ok (EvType (mkType identifier (Conjunction (conj_objs t0 more)) []
                   (doc_text pre_dot))),
     tail).
Proof.
  intros Hg H0 Hmore Hfuel.
  unfold definition_tokens. cbn [app]. rewrite <- !app_assoc. cbn [app].
  set (after := (doc_tokens pre_dot ++ (10, fst dot, snd dot) :: tail)%list).
  assert (Hafter : exists nxt rest',
             after = nxt :: rest' /\ _is_comment nxt = false
             /\ tok_gid nxt <> 11).
  { unfold after. destruct pre_dot as [[d dl]|]; cbn [doc_tokens app];
      eexists; eexists; (split; [reflexivity|]); split;
        try reflexivity; discriminate. }
  destruct Hafter as (nxt & rest' & Ea & Hn & H11).
  pose proof (@_parse_tdl_conjunction_of_simple_terms
                t0 more nxt rest' fuel H0 Hmore Hn H11 Hfuel) as Hconj.
  rewrite <- Ea in Hconj.
  (* the first token of the conjunction *)
  assert (Hfirst : exists f rest0,
             (conj_tokens t0 more ++ after)%list = f :: rest0
             /\ _is_comment f = false
             /\ tok_gid f <> 21
             /\ (tok_gid f = 1 ->
                 exists s, rest0 = s :: tl rest0 /\ _is_comment s = false
                           /\ tok_gid s <> 10)).
  { pose proof (@simple_not_comment (st_gid t0) (st_text t0) (st_line t0) H0)
      as Hc0.
    pose proof (simple_gid_cases _ H0) as Hcases.
    unfold conj_tokens, simple_tokens.
    destruct (st_doc t0) as [[d dl]|]; cbn [doc_tokens app];
      rewrite <- ?app_assoc; cbn [app]; eexists; eexists;
        (split; [reflexivity|]).
    - split; [reflexivity|]. split; [discriminate|].
      intros _. eexists. split; [reflexivity|]. split; [exact Hc0|].
      cbn [tok_gid fst].
      destruct Hcases as [-> | [-> | [-> | [-> | ->]]]]; discriminate.
    - split; [exact Hc0|]. cbn [tok_gid fst]. split.
      + destruct Hcases as [-> | [-> | [-> | [-> | ->]]]]; discriminate.
      + intros H1. exfalso.
        destruct Hcases as [E | [E | [E | [E | E]]]]; rewrite E in H1;
          discriminate H1. }
  destruct Hfirst as (f & rest0 & Ef & Hcf & Hf21 & Hf1).
  change (parse_definition fuel identifier
            ((g, op, l) :: (conj_tokens t0 more ++ after)%list)
          = (Ok (EvType (mkType identifier (Conjunction (conj_objs t0 more)) []
                           (doc_text pre_dot))), tail)).
  rewrite Ef in Hconj |- *.
  assert (Hshift : _shift ((g, op, l) :: f :: rest0)
                   = (Ok (g, op, l, tok_gid f), f :: rest0)).
  { apply (shift_significant (g, op, l)); [|exact Hcf].
    destruct Hg as [-> | ->]; reflexivity. }
  unfold parse_definition. unfold bind at 1. rewrite_shift Hshift.
  apply Nat.eqb_neq in Hf21. rewrite Hf21, andb_false_r.
  assert (Hop : ((g =? 7)%nat || (g =? 8)%nat) = true)
    by (destruct Hg as [-> | ->]; reflexivity).
  rewrite Hop.
  assert (Hc : (if (tok_gid f =? 1)%nat
                then
                  (after0 <- _peek 1 ;;
                   if (tok_gid after0 =? 10)%nat
                   then c <- lift (Conjunction_init []) ;; ret (c, tok_gid f)
                   else _parse_tdl_conjunction fuel)%py
                else _parse_tdl_conjunction fuel) (f :: rest0)
               = (Ok (Conjunction (conj_objs t0 more), tok_gid nxt), after)).
  { destruct (tok_gid f =? 1)%nat eqn:E1; [|exact Hconj].
    apply Nat.eqb_eq in E1. destruct (Hf1 E1) as (s & Es & Hcs & Hs10).
    rewrite Es. unfold bind at 1.
    rewrite (peek_1_significant f s (tl rest0) Hcf Hcs).
    apply Nat.eqb_neq in Hs10. rewrite Hs10. rewrite <- Es. exact Hconj. }
  unfold bind at 1. unfold bind at 1. rewrite Hc.
  unfold after. destruct pre_dot as [[d dl]|]; cbn [doc_tokens app doc_text].
  - unfold after in Ea. cbn [doc_tokens app] in Ea. injection Ea as <- <-.
    cbn [tok_gid fst Nat.eqb ret]. unfold bind at 1. cbn [Nat.eqb].
    assert (Hs2 : _shift ((1, d, dl) :: (10, fst dot, snd dot) :: tail)
                  = (Ok (1, d, dl, 10), (10, fst dot, snd dot) :: tail))
      by (now apply (shift_significant (1, d, dl))).
    unfold bind at 1. unfold bind at 1. rewrite_shift Hs2.
    reflexivity.
  - unfold after in Ea. cbn [doc_tokens app] in Ea. injection Ea as <- <-.
    reflexivity.
Qed.

(** X9. A stream that begins with a definition
    [identifier op t0 & ... & tn doc? .], where [op] is [:=], [:<] or [:+]
    and every term is one token, yields first the [Type] with that
    identifier, the conjunction of the terms in their order, no
    coreference, and as docstring the one before the dot, if any; what
    follows the dot is then parsed as it would be alone. *)
Theorem _parse_tdl_yields_definition_then_rest
  (fuel : nat) (identifier : string) (l0 : nat)
  (g : nat) (op : string) (l : nat) (t0 : simple_term)
  (more : list (nat * simple_term)) (pre_dot : option (string * nat))
  (dot : string * nat) (tail : list Token) :
  g = 7 \/ g = 8 ->
  simple_gid (st_gid t0) = true ->
  forallb (fun lt => simple_gid (st_gid (snd lt))) more = true ->
  length more + 2 < fuel ->
  _parse_tdl (S fuel)
    ((24, identifier, l0)
       :: definition_tokens (g, op, l) t0 more pre_dot dot ++ tail)%list
  = let (evs, e) := _parse_tdl fuel tail in
    (EvType (mkType identifier (Conjunction (conj_objs t0 more)) []
               (doc_text pre_dot)) :: evs, e).
Proof.
  intros Hg H0 Hmore Hfuel.
  unfold _parse_tdl. cbn [_parse_tdl_loop tokens_next Nat.eqb].
  rewrite (@parse_definition_simple fuel identifier g op l t0 more pre_dot dot
             tail Hg H0 Hmore Hfuel).
  destruct (_parse_tdl_loop fuel tail) as [evs [e|]]; [|reflexivity].
  destruct e; reflexivity.
Qed.

Lemma _parse_tdl_yields_definition_then_rest_witness :
  _parse_tdl (S 4)
    ((24, "a", 1)
       :: definition_tokens (7, ":=", 1) (mkSimple None 24 "b" 1)
            [(1, mkSimple None 24 "c" 1)] (Some ("doc", 2)) (".", 3)
       ++ [(3, " end", 4)])%list
  = ([EvType (mkType "a"
                (Conjunction [TypeIdentifier "b" None; TypeIdentifier "c" None])
                [] (Some "doc"));
      EvTuple 4 "LINECOMMENT" " end"], None).
Proof.
  apply (@_parse_tdl_yields_definition_then_rest
           4 "a" 1 7 ":=" 1 (mkSimple None 24 "b" 1)
           [(1, mkSimple None 24 "c" 1)] (Some ("doc", 2)) (".", 3)
           [(3, " end", 4)]).
  - now left.
  - reflexivity.
  - reflexivity.
  - cbn. lia.
Defined.

(** A prefix rule with two subpatterns, read by [_parse_tdl_affixes]. *)
Lemma _parse_tdl_affixes_pairs_witness :
  _parse_tdl_affixes 3
    ((21, "prefix", 1)
       :: subpattern_tokens [("*", "un", 1); ("!v", "in!v", 2)]
       ++ (24, "b", 2) :: [(10, ".", 2)])%list
  = (Ok ("prefix", [("*", "un"); ("!v", "in!v")]), [(24, "b", 2); (10, ".", 2)]).
Proof.
  apply (@_parse_tdl_affixes_pairs
           "prefix" 1 [("*", "un", 1); ("!v", "in!v", 2)] (24, "b", 2)
           [(10, ".", 2)] 3).
  - reflexivity.
  - discriminate.
  - reflexivity.
  - cbn. lia.
Defined.

(** ** The older parser: docstrings *)

Lemma string_length_app (a b : string) :
  String.length (a ++ b) = String.length a + String.length b.
Proof. induction a as [|c a IH]; cbn; [reflexivity | now rewrite IH]. Qed.

Lemma substring_skip (a s : string) (m : nat) :
  substring (String.length a) m (a ++ s) = substring 0 m s.
Proof. induction a as [|c a IH]; cbn; [reflexivity | exact IH]. Qed.

Lemma substring_take (s b : string) :
  substring 0 (String.length s) (s ++ b) = s.
Proof.
  induction s as [|c s IH]; cbn.
  - now destruct b.
  - now rewrite IH.
Qed.

Lemma _parse_docstring_quoted (s : string) (tokens : list string) :
  _parse_docstring ((triple_quote ++ s ++ triple_quote) :: tokens)
  = (Ok s, tokens).
Proof.
  unfold _parse_docstring, bind, tokens0, popleft, assert.
  assert (Hend : endswith (triple_quote ++ s ++ triple_quote) triple_quote
                 = true).
  { unfold endswith. rewrite <- string_app_assoc.
    set (x := triple_quote ++ s).
    rewrite string_length_app.
    replace (String.length x + String.length triple_quote
             - String.length triple_quote)
      with (String.length x) by lia.
    rewrite substring_skip.
    change (substring 0 (String.length triple_quote) triple_quote)
      with triple_quote.
    rewrite String.eqb_refl, andb_true_r.
    apply Nat.leb_le. lia. }
  rewrite Hend. unfold ret. cbv beta iota.
  unfold slice_3_m3. rewrite !string_length_app.
  change (String.length triple_quote) with 3.
  replace (3 + (String.length s + 3) - 3 - 3) with (String.length s) by lia.
  change 3 with (String.length triple_quote) at 1.
  rewrite substring_skip, substring_take. reflexivity.
Qed.

(** X11. [_parse_docstring] takes the quotes off: on a token made of three
    double quotes, a text and three double quotes it pops the token and
    returns the text; on a token that does not end with three double quotes
    it raises [AssertionError] and pops nothing. *)
Theorem _parse_docstring_strips_the_quotes (t : string) (tokens : list string) :
  (forall s : string,
      t = triple_quote ++ s ++ triple_quote ->
      _parse_docstring (t :: tokens) = (Ok s, tokens))
  /\ (endswith t triple_quote = false ->
      _parse_docstring (t :: tokens) = (Raise AssertionError, t :: tokens)).
Proof.
  split.
  - intros s ->. apply _parse_docstring_quoted.
  - intros H. unfold _parse_docstring, bind, tokens0, assert.
    rewrite H. reflexivity.
Qed.

Lemma _parse_docstring_strips_the_quotes_witness :
  _parse_docstring ((triple_quote ++ "A doc." ++ triple_quote) :: ["."])
  = (Ok "A doc.", ["."])
  /\ _parse_docstring ["b"; "."] = (Raise AssertionError, ["b"; "."]).
Proof.
  split.
  - apply (proj1 (_parse_docstring_strips_the_quotes
                    (triple_quote ++ "A doc." ++ triple_quote) ["."])).
    reflexivity.
  - apply (proj2 (_parse_docstring_strips_the_quotes "b" ["."])).
    reflexivity.
Defined.

(** ** The older parser: definitions that are conjunctions of type names *)

Lemma plain_token_facts (t : string) :
  plain_token t = true ->
  is_basic_string t = false
  /\ startswith t "#" = false
  /\ startswith t triple_quote = false
  /\ String.eqb t "." = false /\ String.eqb t "&" = false
  /\ String.eqb t "[" = false /\ String.eqb t "<" = false
  /\ String.eqb t "<!" = false
  /\ String.eqb t "%prefix" = false /\ String.eqb t "%suffix" = false.
Proof.
  unfold plain_token. cbn [existsb].
  rewrite !andb_true_iff, !negb_true_iff, !orb_false_iff.
  intuition.
Qed.

Lemma conjunction_terms_unfold (fuel : nat) (supertypes : list string)
  (features : option (list (string * obj))) (coreferences : list coref)
  (doc : list string) (cls : TdlClass) :
  conjunction_terms (S fuel) supertypes features coreferences doc cls
  = (t0 <- tokens0 ;;
     if negb (String.eqb t0 "&") then
       ret (supertypes, features, coreferences, doc, cls)
     else
       _ <- popleft ;;
       t0 <- tokens0 ;;
       doc <-
         (if startswith t0 triple_quote then
            d <- _parse_docstring ;; ret (doc ++ [d])%list
          else ret doc) ;;
       t0 <- tokens0 ;;
       if String.eqb t0 "." then
         raise (TdlParsingError dot_after_amp_msg None None)
       else if startswith t0 "#" then
         t <- popleft ;;
         conjunction_terms fuel supertypes features
           (coreferences ++ [(Some t, [[]])])%list doc cls
       else
         '(feats, corefs, supertypes, cls) <-
           (if String.eqb t0 "[" then
              '(f, c) <- _parse_avm fuel ;;
              ret (Some f, c, supertypes, cls)
            else if String.eqb t0 "<" then
              '(f, c) <- _parse_cons_list fuel ;;
              ret (f, c, supertypes, CTdlConsList)
            else if String.eqb t0 "<!" then
              '(f, c) <- _parse_diff_list fuel ;;
              ret (Some f, c, supertypes, CTdlDiffList)
            else if negb (startswith t0 triple_quote) then
              t <- popleft ;;
              ret (Some [], [], (supertypes ++ [t])%list, cls)
            else ret (Some [], [], supertypes, cls)) ;;
         features <-
           (match feats with
            | None => ret None
            | Some f =>
                match features with
                | None => raise AssertionError
                | Some fs => ret (Some (fs ++ f)%list)
                end
            end) ;;
         conjunction_terms fuel supertypes features
           (coreferences ++ corefs)%list doc cls)%py.
Proof. reflexivity. Qed.

(** One more type name: [& s]. *)
Lemma conjunction_terms_step (fuel : nat) (supertypes : list string)
  (fs : list (string * obj)) (coreferences : list coref)
  (doc : list string) (cls : TdlClass) (s : string) (rest : list string) :
  plain_token s = true ->
  conjunction_terms (S fuel) supertypes (Some fs) coreferences doc cls
    ("&" :: s :: rest)
  = conjunction_terms fuel (supertypes ++ [s])%list (Some fs) coreferences doc
      cls rest.
Proof.
  intros Hs.
  destruct (plain_token_facts _ Hs)
    as (_ & Hhash & Htq & Hdot & _ & Hb & Hl & Hd & _).
  rewrite conjunction_terms_unfold.
  unfold bind, tokens0, popleft, ret. cbv beta iota.
  change (String.eqb "&" "&") with true. cbn [negb]. cbv beta iota.
  rewrite Htq. cbv beta iota.
  rewrite Hdot, Hhash, Hb, Hl, Hd. cbn [negb]. cbv beta iota.
  rewrite Htq. cbn [negb]. cbv beta iota.
  rewrite !app_nil_r. reflexivity.
Qed.

Lemma conjunction_terms_supertypes (rest : list string) (cls : TdlClass)
  (fs : list (string * obj)) (coreferences : list coref) (doc : list string) :
  forall (more supertypes : list string) (fuel : nat),
    forallb plain_token more = true ->
    length more < fuel ->
    conjunction_terms fuel supertypes (Some fs) coreferences doc cls
      (flat_map (fun s => ["&"; s]) more ++ "." :: rest)%list
    = (Ok ((supertypes ++ more)%list, Some fs, coreferences, doc, cls),
       "." :: rest).
Proof.
  induction more as [|s more IH]; intros supertypes fuel Hp Hfuel.
  - destruct fuel as [|fuel]; [inversion Hfuel|].
    cbn [flat_map app]. rewrite conjunction_terms_unfold, app_nil_r.
    reflexivity.
  - destruct fuel as [|fuel]; [inversion Hfuel|].
    cbn [forallb] in Hp. apply andb_prop in Hp as [Hs Hp].
    cbn [flat_map app].
    rewrite (conjunction_terms_step fuel supertypes fs coreferences doc cls
               s _ Hs).
    rewrite (IH (supertypes ++ [s])%list fuel Hp) by (cbn in Hfuel; lia).
    now rewrite <- app_assoc.
Qed.

(** X12. On a block [identifier op s0 & s1 & ... & sn .] whose terms are
    type names, [_parse_typedef] returns a [TdlType] with that identifier,
    the names as supertypes in the order written, no feature, no
    coreference and no docstring, whatever the operator is. *)
Theorem _parse_typedef_of_supertypes
  (fuel : nat) (identifier assignment s0 : string) (more rest : list string) :
  plain_token s0 = true ->
  forallb plain_token more = true ->
  length more + 2 < fuel ->
  _parse_typedef fuel
    (identifier :: assignment :: supertype_tokens s0 more ++ "." :: rest)%list
  = Ok (mkTdlType identifier
          (TdlDefinition CTdlDefinition (s0 :: more) (Some []))
          [] [] (s0 :: more) (Some [])).
Proof.
  intros H0 Hmore Hfuel.
  destruct (plain_token_facts _ H0)
    as (Hbasic & Hhash & Htq & Hdot & Hamp & Hb & Hl & Hd & Hpre & Hsuf).
  destruct fuel as [|fuel]; [inversion Hfuel|].
  unfold _parse_typedef, supertype_tokens. cbn [popleft app].
  unfold typedef_body.
  unfold bind at 1. cbn [popleft].
  unfold bind at 1. unfold _parse_affixes at 1.
  unfold bind at 1. cbn [tokens0]. rewrite Hpre, Hsuf. cbn [orb ret].
  (* the conjunction *)
  assert (Hconj :
            _parse_conjunction (S fuel)
              (s0 :: flat_map (fun s => ["&"; s]) more ++ "." :: rest)%list
            = (Ok (TdlDefinition CTdlDefinition (s0 :: more) (Some []), [], []),
               "." :: rest)).
  { cbn [_parse_conjunction]. unfold bind at 1, get_self.
    rewrite Hbasic. unfold bind at 1. cbn [tokens0].
    unfold bind at 1. rewrite Htq. cbn [ret].
    unfold bind at 1, appendleft.
    destruct fuel as [|fuel]; [cbn in Hfuel; lia|].
    unfold bind at 1.
    rewrite (conjunction_terms_step fuel [] [] [] [] CTdlDefinition s0 _ H0).
    rewrite (conjunction_terms_supertypes rest CTdlDefinition [] [] []
               more ([] ++ [s0])%list Hmore) by (cbn in Hfuel; lia).
    reflexivity. }
  unfold bind at 1. rewrite Hconj.
  unfold bind at 1, lift. cbn [_make_coreferences].
  reflexivity || (cbn; destruct (String.eqb assignment ":+"); reflexivity).
Qed.

Lemma _parse_typedef_of_supertypes_witness :
  _parse_typedef 5
    ("noun" :: ":=" :: supertype_tokens "word" ["countable"] ++ "." :: [])%list
  = Ok (mkTdlType "noun"
          (TdlDefinition CTdlDefinition ["word"; "countable"] (Some []))
          [] [] ["word"; "countable"] (Some [])).
Proof.
  apply (@_parse_typedef_of_supertypes 5 "noun" ":=" "word" ["countable"] []).
  - reflexivity.
  - reflexivity.
  - cbn. lia.
Defined.

(** ** The older parser: blocks that end early, lack their dot, or hold
    what [_parse_typedef] cannot read *)

Lemma conjunction_terms_stop (fuel : nat) (supertypes : list string)
  (features : option (list (string * obj))) (coreferences : list coref)
  (doc : list string) (cls : TdlClass) (nxt : string) (rest : list string) :
  String.eqb nxt "&" = false ->
  conjunction_terms (S fuel) supertypes features coreferences doc cls
    (nxt :: rest)
  = (Ok (supertypes, features, coreferences, doc, cls), nxt :: rest).
Proof.
  intros H. rewrite conjunction_terms_unfold.
  unfold bind, tokens0. cbv beta iota. rewrite H. reflexivity.
Qed.

Lemma conjunction_terms_end (fuel : nat) (supertypes : list string)
  (features : option (list (string * obj))) (coreferences : list coref)
  (doc : list string) (cls : TdlClass) :
  conjunction_terms (S fuel) supertypes features coreferences doc cls []
  = (Raise IndexError, []).
Proof. reflexivity. Qed.

Lemma conjunction_terms_amp_end (fuel : nat) (supertypes : list string)
  (features : option (list (string * obj))) (coreferences : list coref)
  (doc : list string) (cls : TdlClass) :
  conjunction_terms (S fuel) supertypes features coreferences doc cls ["&"]
  = (Raise IndexError, []).
Proof. reflexivity. Qed.

Lemma conjunction_terms_amp_dot (fuel : nat) (supertypes : list string)
  (features : option (list (string * obj))) (coreferences : list coref)
  (doc : list string) (cls : TdlClass) (rest : list string) :
  conjunction_terms (S fuel) supertypes features coreferences doc cls
    ("&" :: "." :: rest)
  = (Raise (TdlParsingError dot_after_amp_msg None None), "." :: rest).
Proof. reflexivity. Qed.

(** The type names [& s1 & ... & sn] are added to the supertypes, and the
    loop goes on with what follows them. *)
Lemma conjunction_terms_names (fs : list (string * obj))
  (coreferences : list coref) (doc : list string) (cls : TdlClass)
  (tail : list string) (fuel : nat) :
  forall (more supertypes : list string),
    forallb plain_token more = true ->
    conjunction_terms (length more + fuel) supertypes (Some fs) coreferences
      doc cls (flat_map (fun s => ["&"; s]) more ++ tail)%list
    = conjunction_terms fuel (supertypes ++ more)%list (Some fs) coreferences
        doc cls tail.
Proof.
  induction more as [|s more IH]; intros supertypes Hp.
  - cbn [flat_map app length plus]. now rewrite app_nil_r.
  - cbn [forallb] in Hp. apply andb_prop in Hp as [Hs Hp].
    cbn [flat_map app length plus].
    rewrite (conjunction_terms_step (length more + fuel) supertypes fs
               coreferences doc cls s _ Hs).
    rewrite (IH (supertypes ++ [s])%list Hp).
    now rewrite <- app_assoc.
Qed.

Lemma _parse_conjunction_names (fuel : nat) (s0 : string)
  (more tail : list string) :
  plain_token s0 = true ->
  forallb plain_token more = true ->
  _parse_conjunction (S (S (length more + fuel)))
    (supertype_tokens s0 more ++ tail)%list
  = ('(supertypes, features, coreferences, doc, cls) <-
       conjunction_terms fuel (s0 :: more) (Some []) [] [] CTdlDefinition ;;
     tdldef <-
       (match features with
        | None =>
            if is_CTdlDefinition cls then ret PyNone
            else lift (TdlDefinition_init cls supertypes features)
        | Some _ => lift (TdlDefinition_init cls supertypes features)
        end) ;;
     ret (tdldef, coreferences, doc))%py tail.
Proof.
  intros H0 Hmore.
  destruct (plain_token_facts _ H0)
    as (Hbasic & Hhash & Htq & Hdot & Hamp & Hb & Hl & Hd & Hpre & Hsuf).
  remember (S (length more + fuel)) as f1 eqn:Ef1.
  unfold supertype_tokens. cbn [app].
  cbn [_parse_conjunction]. unfold bind at 1, get_self.
  rewrite Hbasic. unfold bind at 1. cbn [tokens0].
  unfold bind at 1. rewrite Htq. cbn [ret].
  unfold bind at 1, appendleft.
  subst f1.
  unfold bind at 1.
  rewrite (conjunction_terms_step (length more + fuel) [] [] [] []
             CTdlDefinition s0 _ H0).
  rewrite (conjunction_terms_names [] [] [] CTdlDefinition tail fuel
             more ([] ++ [s0])%list Hmore).
  reflexivity.
Qed.

Lemma _make_coreferences_nil : _make_coreferences [] = Ok [].
Proof. reflexivity. Qed.

(** The statements of [_parse_typedef] that follow the conjunction, when it
    has no coreference and is not followed by a docstring. *)
Lemma typedef_body_after_conjunction (fuel : nat)
  (identifier assignment t0 : string) (tokens : list string) (tdldef : obj)
  (doc : list string) (nxt : string) (rest : list string) :
  String.eqb t0 "%prefix" = false ->
  String.eqb t0 "%suffix" = false ->
  _parse_conjunction fuel (t0 :: tokens) = (Ok (tdldef, [], doc), nxt :: rest) ->
  startswith nxt triple_quote = false ->
  typedef_body fuel identifier (assignment :: t0 :: tokens)
  = (assert (String.eqb nxt ".") ;;
     lacking <-
       (if negb (String.eqb assignment ":+") then
          supertypes <- lift (obj_supertypes tdldef) ;;
          ret (length supertypes =? 0)%nat
        else ret false) ;;
     if lacking then
       raise (TdlParsingError "Type definition requires supertypes." None None)
     else lift (TdlType_init identifier tdldef [] doc))%py rest.
Proof.
  intros Hpre Hsuf Hconj Htq.
  unfold typedef_body.
  unfold bind at 1. cbn [popleft].
  unfold bind at 1. unfold _parse_affixes at 1.
  unfold bind at 1. cbn [tokens0]. rewrite Hpre, Hsuf. cbn [orb ret].
  unfold bind at 1. rewrite Hconj.
  unfold bind at 1, lift at 1. rewrite _make_coreferences_nil.
  unfold bind at 1. cbn [tokens0]. rewrite Htq.
  unfold bind at 1. cbn [ret].
  unfold bind at 1. cbn [popleft].
  reflexivity.
Qed.

Lemma _parse_conjunction_names_stop (fuel : nat) (s0 : string)
  (more : list string) (nxt : string) (rest : list string) :
  plain_token s0 = true ->
  forallb plain_token more = true ->
  String.eqb nxt "&" = false ->
  length more + 2 < fuel ->
  _parse_conjunction fuel
    (s0 :: flat_map (fun s => ["&"; s]) more ++ nxt :: rest)%list
  = (Ok (TdlDefinition CTdlDefinition (s0 :: more) (Some []), [], []),
     nxt :: rest).
Proof.
  intros H0 Hmore Hamp Hfuel.
  replace fuel with (S (S (length more + S (fuel - length more - 3)))) by lia.
  set (k := fuel - length more - 3).
  change (s0 :: (flat_map (fun s => ["&"; s]) more ++ nxt :: rest)%list)
    with (supertype_tokens s0 more ++ nxt :: rest)%list.
  rewrite (_parse_conjunction_names (S k) s0 more (nxt :: rest) H0 Hmore).
  unfold bind at 1.
  rewrite (conjunction_terms_stop k (s0 :: more) (Some []) [] []
             CTdlDefinition nxt rest Hamp).
  reflexivity.
Qed.

(** X13. A block [identifier op s0 & ... & sn] of type names that goes on
    with a token other than [&], the dot and a docstring is refused with a
    parsing error that names the identifier; its message is the list of
    the tokens that follow the refused token, which has been popped, as
    [repr] writes it. *)
Theorem _parse_typedef_missing_dot
  (fuel : nat) (identifier assignment s0 : string) (more : list string)
  (nxt : string) (rest : list string) :
  plain_token s0 = true ->
  forallb plain_token more = true ->
  String.eqb nxt "&" = false ->
  String.eqb nxt "." = false ->
  startswith nxt triple_quote = false ->
  length more + 2 < fuel ->
  _parse_typedef fuel
    (identifier :: assignment :: supertype_tokens s0 more ++ nxt :: rest)%list
  = Raise (TdlParsingError ("Remaining tokens: " ++ repr_list rest) None
             (Some identifier)).
Proof.
  intros H0 Hmore Hamp Hdot Htq Hfuel.
  destruct (plain_token_facts _ H0)
    as (_ & _ & _ & _ & _ & _ & _ & _ & Hpre & Hsuf).
  unfold _parse_typedef, supertype_tokens. cbn [popleft app].
  rewrite (@typedef_body_after_conjunction fuel identifier assignment s0 _ _ _
             nxt rest Hpre Hsuf
             (@_parse_conjunction_names_stop fuel s0 more nxt rest H0 Hmore
                Hamp Hfuel) Htq).
  rewrite Hdot. reflexivity.
Qed.

Lemma _parse_typedef_missing_dot_witness :
  _parse_typedef 4 ["noun"; ":="; "word"; "&"; "countable"; ","; "verb"; "."]
  = Raise (TdlParsingError "Remaining tokens: ['verb', '.']" None (Some "noun")).
Proof.
  apply (@_parse_typedef_missing_dot 4 "noun" ":=" "word" ["countable"] ","
           ["verb"; "."]).
  - reflexivity.
  - reflexivity.
  - reflexivity.
  - reflexivity.
  - reflexivity.
  - cbn. lia.
Defined.

Ltac typedef_header Hpre Hsuf :=
  unfold _parse_typedef; cbn [popleft app];
  unfold typedef_body;
  unfold bind at 1; cbn [popleft];
  unfold bind at 1; unfold _parse_affixes at 1;
  unfold bind at 1; cbn [tokens0]; rewrite Hpre, Hsuf; cbn [orb ret];
  unfold bind at 1.

(** The loop of [_parse_conjunction] on a block of type names cut before
    its dot: reading the next token raises [IndexError]. *)
Lemma conjunction_terms_truncated (fs : list (string * obj))
  (coreferences : list coref) (doc : list string) (cls : TdlClass) :
  forall (more supertypes : list string) (k fuel : nat),
    forallb plain_token more = true ->
    k < length (flat_map (fun s => ["&"; s]) more ++ ["."])%list ->
    length more < fuel ->
    conjunction_terms fuel supertypes (Some fs) coreferences doc cls
      (firstn k (flat_map (fun s => ["&"; s]) more ++ ["."])%list)
    = (Raise IndexError, []).
Proof.
  induction more as [|s more IH]; intros supertypes k fuel Hp Hk Hfuel.
  - destruct fuel as [|fuel]; [inversion Hfuel|].
    cbn [flat_map app length] in Hk.
    replace k with 0 by lia. reflexivity.
  - destruct fuel as [|fuel]; [inversion Hfuel|].
    cbn [forallb] in Hp. apply andb_prop in Hp as [Hs Hp].
    cbn [flat_map app length] in Hk |- *.
    destruct k as [|[|k]].
    + reflexivity.
    + reflexivity.
    + cbn [firstn].
      rewrite (conjunction_terms_step fuel supertypes fs coreferences doc
                 cls s _ Hs).
      apply IH; [exact Hp | lia | cbn [length] in Hfuel; lia].
Qed.

(** X14. A block of type names [identifier op s0 & ... & sn .] that is cut
    anywhere before its dot is refused with the parsing error
    [Unexpected termination.]; the error names the identifier, or [?] when
    no token is left or the identifier is the empty string. *)
Theorem _parse_typedef_truncated_block
  (fuel n : nat) (identifier assignment s0 : string) (more : list string) :
  plain_token s0 = true ->
  forallb plain_token more = true ->
  length more + 2 < fuel ->
  n < length (identifier :: assignment :: supertype_tokens s0 more ++ ["."])%list ->
  _parse_typedef fuel
    (firstn n
       (identifier :: assignment :: supertype_tokens s0 more ++ ["."])%list)
  = Raise (TdlParsingError "Unexpected termination." None
             (Some (match n with
                    | 0 => "?"
                    | _ => if nonempty identifier then identifier else "?"
                    end))).
Proof.
  intros H0 Hmore Hfuel Hn.
  destruct (plain_token_facts _ H0)
    as (Hbasic & Hhash & Htq & Hdot & Hamp & Hb & Hl & Hd & Hpre & Hsuf).
  unfold supertype_tokens in *. cbn [app length] in Hn.
  destruct n as [|[|[|n]]]; try reflexivity.
  cbn [app firstn].
  destruct fuel as [|[|fuel]]; [lia | lia |].
  typedef_header Hpre Hsuf.
  cbn [_parse_conjunction]. unfold bind at 1, get_self.
  rewrite Hbasic. unfold bind at 1. cbn [tokens0].
  unfold bind at 1. rewrite Htq. cbn [ret].
  unfold bind at 1, appendleft.
  unfold bind at 1.
  rewrite (conjunction_terms_step fuel [] [] [] [] CTdlDefinition s0 _ H0).
  rewrite (@conjunction_terms_truncated [] [] [] CTdlDefinition more
             ([] ++ [s0])%list n fuel Hmore) by lia.
  reflexivity.
Qed.

Lemma _parse_typedef_truncated_block_witness :
  _parse_typedef 4 ["noun"; ":="; "word"; "&"]
  = Raise (TdlParsingError "Unexpected termination." None (Some "noun")).
Proof.
  apply (@_parse_typedef_truncated_block 4 4 "noun" ":=" "word" ["countable"]).
  - reflexivity.
  - reflexivity.
  - cbn. lia.
  - cbn. lia.
Defined.

Lemma amp_moves_left (sups tail : list string) :
  ("&" :: flat_map (fun s => [s; "&"]) sups ++ tail)%list
  = (flat_map (fun s => ["&"; s]) sups ++ "&" :: tail)%list.
Proof.
  induction sups as [|s sups IH]; [reflexivity|].
  cbn [flat_map app]. now rewrite IH.
Qed.

(** X15. A dot where a term is expected ends [_parse_typedef] with the
    parsing error for a dot after [&], which carries neither identifier nor
    line number: after [identifier op s0 & ... & sn &], and also right
    after the operator, where no [&] was written. *)
Theorem _parse_typedef_dot_for_term
  (fuel : nat) (identifier assignment : string) (sups rest : list string) :
  forallb plain_token sups = true ->
  length sups + 2 < fuel ->
  _parse_typedef fuel
    (identifier :: assignment
       :: flat_map (fun s => [s; "&"]) sups ++ "." :: rest)%list
  = Raise (TdlParsingError dot_after_amp_msg None None).
Proof.
  intros Hsups Hfuel.
  replace fuel with (S (length sups + S (fuel - length sups - 2))) by lia.
  set (k := fuel - length sups - 2).
  assert (Hconj :
            _parse_conjunction (S (length sups + S k))
              (flat_map (fun s => [s; "&"]) sups ++ "." :: rest)%list
            = (Raise (TdlParsingError dot_after_amp_msg None None),
               "." :: rest)).
  { assert (Hbasic : match (flat_map (fun s => [s; "&"]) sups
                              ++ "." :: rest)%list with
                     | t :: _ => is_basic_string t
                     | [] => false
                     end = false).
    { destruct sups as [|s sups]; [reflexivity|].
      cbn [forallb] in Hsups. apply andb_prop in Hsups as [Hs _].
      now destruct (plain_token_facts _ Hs) as (Hb & _). }
    assert (Htq : exists t tl,
               (flat_map (fun s => [s; "&"]) sups ++ "." :: rest)%list
               = t :: tl
               /\ startswith t triple_quote = false).
    { destruct sups as [|s sups].
      - exists ".", rest. now split.
      - cbn [forallb] in Hsups. apply andb_prop in Hsups as [Hs _].
        destruct (plain_token_facts _ Hs) as (_ & _ & Htq & _).
        cbn [flat_map app]. eexists _, _. split; [reflexivity | exact Htq]. }
    destruct Htq as (t & tl & Etl & Htq).
    cbn [_parse_conjunction]. unfold bind at 1, get_self.
    rewrite Hbasic. rewrite Etl.
    unfold bind at 1. cbn [tokens0].
    unfold bind at 1. rewrite Htq. cbn [ret].
    unfold bind at 1, appendleft.
    unfold bind at 1.
    rewrite <- Etl, amp_moves_left.
    rewrite (conjunction_terms_names [] [] [] CTdlDefinition
               ("&" :: "." :: rest) (S k) sups [] Hsups).
    rewrite conjunction_terms_amp_dot. reflexivity. }
  assert (Hhd : exists t tl,
             (flat_map (fun s => [s; "&"]) sups ++ "." :: rest)%list = t :: tl
             /\ String.eqb t "%prefix" = false
             /\ String.eqb t "%suffix" = false).
  { destruct sups as [|s sups].
    - exists ".", rest. now repeat split.
    - cbn [forallb] in Hsups. apply andb_prop in Hsups as [Hs _].
      destruct (plain_token_facts _ Hs)
        as (_ & _ & _ & _ & _ & _ & _ & _ & Hpre & Hsuf).
      cbn [flat_map app]. eexists _, _. now repeat split. }
  destruct Hhd as (t & tl & Etl & Hpre & Hsuf).
  rewrite Etl in *.
  typedef_header Hpre Hsuf.
  rewrite Hconj. reflexivity.
Qed.

Lemma _parse_typedef_dot_for_term_witness :
  _parse_typedef 4 ["noun"; ":="; "word"; "&"; "."]
  = Raise (TdlParsingError dot_after_amp_msg None None).
Proof.
  apply (@_parse_typedef_dot_for_term 4 "noun" ":=" ["word"] []).
  - reflexivity.
  - cbn. lia.
Defined.

Lemma basic_string_is_no_marker (s : string) :
  is_basic_string s = true ->
  String.eqb s "%prefix" = false /\ String.eqb s "%suffix" = false.
Proof.
  intros H. split.
  - destruct (String.eqb_spec s "%prefix") as [->|]; [discriminate H|reflexivity].
  - destruct (String.eqb_spec s "%suffix") as [->|]; [discriminate H|reflexivity].
Qed.

(** X16. A definition whose body is a quoted string, [identifier op s .],
    is not parsed: [_parse_conjunction] returns the token itself, a [str],
    and reading its [supertypes] raises [AttributeError], with [:+] as with
    the other operators. *)
Theorem _parse_typedef_of_string_raises
  (fuel : nat) (identifier assignment s : string) (rest : list string) :
  is_basic_string s = true ->
  _parse_typedef (S fuel) (identifier :: assignment :: s :: "." :: rest)
  = Raise (AttributeError "supertypes").
Proof.
  intros Hs.
  destruct (basic_string_is_no_marker _ Hs) as [Hpre Hsuf].
  assert (Hconj : _parse_conjunction (S fuel) (s :: "." :: rest)
                  = (Ok (PyStr s, [], []), "." :: rest)).
  { cbn [_parse_conjunction]. unfold bind at 1, get_self.
    rewrite Hs. reflexivity. }
  unfold _parse_typedef. cbn [popleft].
  rewrite (@typedef_body_after_conjunction (S fuel) identifier assignment s _
             _ _ "." rest Hpre Hsuf Hconj eq_refl).
  destruct (String.eqb assignment ":+"); reflexivity.
Qed.

Lemma _parse_typedef_of_string_raises_witness :
  _parse_typedef 1 ["greeting"; ":="; "'hello"; "."]
  = Raise (AttributeError "supertypes").
Proof.
  apply (@_parse_typedef_of_string_raises 0 "greeting" ":=" "'hello" []).
  reflexivity.
Defined.

Lemma subpattern_raises
  (fuel : nat) (identifier assignment aff a b : string) (rest : list string) :
  aff = "%prefix" \/ aff = "%suffix" ->
  exists msg : string,
    _parse_typedef fuel
      (identifier :: assignment :: aff :: "(" :: a :: b :: rest)
    = Raise (TypeError msg).
Proof.
  intros [-> | ->]; eexists; reflexivity.
Qed.

Lemma marker_forgotten
  (fuel : nat) (identifier assignment aff : string) (body : list string) :
  aff = "%prefix" \/ aff = "%suffix" ->
  (forall t tl, body = t :: tl ->
                String.eqb t "(" = false /\ String.eqb t "%prefix" = false
                /\ String.eqb t "%suffix" = false) ->
  _parse_typedef fuel (identifier :: assignment :: aff :: body)
  = _parse_typedef fuel (identifier :: assignment :: body).
Proof.
  intros Haff Hbody.
  assert (Hmark : String.eqb aff "%prefix" || String.eqb aff "%suffix" = true)
    by (destruct Haff as [-> | ->]; reflexivity).
  unfold _parse_typedef. cbn [popleft].
  unfold typedef_body.
  unfold bind at 1. cbn [popleft]. symmetry.
  unfold bind at 1. cbn [popleft]. symmetry.
  unfold bind at 1. unfold _parse_affixes at 1.
  unfold bind at 1. cbn [tokens0]. rewrite Hmark.
  unfold bind at 1. cbn [popleft].
  symmetry. unfold bind at 1. unfold _parse_affixes at 1.
  destruct body as [|t tl]; [reflexivity|].
  destruct (Hbody t tl eq_refl) as (Hpar & Hpre & Hsuf).
  unfold bind at 1. cbn [tokens0]. rewrite Hpre, Hsuf. cbn [orb ret].
  symmetry. unfold bind at 1. cbn [tokens0]. rewrite Hpar. cbn [ret].
  reflexivity.
Qed.

(** X17. The older parser keeps no affix.  After an affix marker,
    [%prefix] or [%suffix], a subpattern [( a b ...] makes the first turn
    of the loop of [_parse_affixes] pop the parenthesis and two tokens and
    raise [TypeError], which [_parse_typedef] lets through; and a marker
    that is not followed by a parenthesis is read and forgotten: the block
    is parsed as it is without the marker, also when it fails. *)
Theorem _parse_typedef_keeps_no_affix
  (fuel : nat) (identifier assignment aff : string) :
  aff = "%prefix" \/ aff = "%suffix" ->
  (forall (a b : string) (rest : list string),
      exists msg : string,
        _parse_typedef fuel
          (identifier :: assignment :: aff :: "(" :: a :: b :: rest)
        = Raise (TypeError msg))
  /\ (forall body : list string,
        (forall t tl, body = t :: tl ->
                      String.eqb t "(" = false
                      /\ String.eqb t "%prefix" = false
                      /\ String.eqb t "%suffix" = false) ->
        _parse_typedef fuel (identifier :: assignment :: aff :: body)
        = _parse_typedef fuel (identifier :: assignment :: body)).
Proof.
  intros Haff. split.
  - intros a b rest. now apply subpattern_raises.
  - intros body Hbody. now apply marker_forgotten.
Qed.

Lemma _parse_typedef_keeps_no_affix_witness :
  (exists msg : string,
      _parse_typedef 9
        ["bake-suffix"; ":="; "%suffix"; "("; "*"; "ed"; ")"; "verb"; "."]
      = Raise (TypeError msg))
  /\ _parse_typedef 9 ["bake-suffix"; ":="; "%suffix"; "verb"; "."]
     = _parse_typedef 9 ["bake-suffix"; ":="; "verb"; "."].
Proof.
  split.
  - apply (proj1 (@_parse_typedef_keeps_no_affix 9 "bake-suffix" ":="
                    "%suffix" (or_intror eq_refl))).
  - apply (proj2 (@_parse_typedef_keeps_no_affix 9 "bake-suffix" ":="
                    "%suffix" (or_intror eq_refl))).
    intros t tl E. injection E as <- _. now repeat split.
Defined.

Lemma docstring_token_facts (s : string) :
  let t := triple_quote ++ s ++ triple_quote in
  is_basic_string t = false
  /\ startswith t triple_quote = true
  /\ String.eqb t "%prefix" = false /\ String.eqb t "%suffix" = false.
Proof.
  cbv zeta. repeat split; try reflexivity.
  - unfold is_basic_string, triple_quote. cbn [String.append substring].
    destruct (s ++ _); reflexivity.
  - unfold startswith, triple_quote. cbn [String.append String.prefix].
    destruct (ascii_dec dquote dquote) as [_|n]; [|now elim n].
    now destruct (s ++ _).
Qed.

(** X18. An addendum that holds only a docstring,
    [identifier :+ doc .], gives a [TdlType] without supertypes and
    features whose docstrings are the text between the quotes; with any
    other operator the same block is refused, as a definition without
    supertypes. *)
Theorem _parse_typedef_docstring_only
  (fuel : nat) (identifier assignment s : string) (rest : list string) :
  _parse_typedef (S fuel)
    (identifier :: assignment :: (triple_quote ++ s ++ triple_quote)
       :: "." :: rest)
  = if String.eqb assignment ":+" then
      Ok (mkTdlType identifier (TdlDefinition CTdlDefinition [] (Some []))
            [] [s] [] (Some []))
    else
      Raise (TdlParsingError "Type definition requires supertypes." None None).
Proof.
  destruct (docstring_token_facts s) as (Hbasic & Htq & Hpre & Hsuf).
  cbv zeta in Hbasic, Htq, Hpre, Hsuf.
  assert (Hconj :
            _parse_conjunction (S fuel)
              ((triple_quote ++ s ++ triple_quote) :: "." :: rest)
            = (Ok (TdlDefinition CTdlDefinition [] (Some []), [], [s]),
               "." :: rest)).
  { cbn [_parse_conjunction]. unfold bind at 1, get_self.
    rewrite Hbasic. unfold bind at 1. cbn [tokens0].
    unfold bind at 1. rewrite Htq.
    unfold bind at 1. cbn [tokens1 ret].
    change (String.eqb "." ".") with true. cbv beta iota.
    unfold bind at 1. rewrite _parse_docstring_quoted.
    reflexivity. }
  unfold _parse_typedef. cbn [popleft].
  rewrite (@typedef_body_after_conjunction (S fuel) identifier assignment _ _
             _ _ "." rest Hpre Hsuf Hconj eq_refl).
  destruct (String.eqb assignment ":+"); reflexivity.
Qed.

(** ** The older parser: lists *)

Lemma item_path_S (i : nat) :
  LIST_TAIL ++ "." ++ item_path i = item_path (S i).
Proof.
  destruct i as [|i]; [reflexivity|].
  unfold item_path. rewrite rest_path_SS.
  now rewrite !string_app_assoc.
Qed.

Lemma replace_head_under_tail (x : string) :
  str_replace (LIST_TAIL ++ "." ++ x) LIST_HEAD LIST_TAIL
  = LIST_TAIL ++ "." ++ str_replace x LIST_HEAD LIST_TAIL.
Proof. reflexivity. Qed.

Lemma replace_head_of_item_path (i : nat) :
  str_replace (item_path i) LIST_HEAD LIST_TAIL = rest_path (S i).
Proof.
  induction i as [|i IH]; [reflexivity|].
  rewrite <- item_path_S, replace_head_under_tail, IH.
  now rewrite rest_path_SS.
Qed.

Lemma list_items_unfold (fuel : nat) (break_on : string -> bool)
  (feats : list (string * obj)) (coreferences : list coref) (path : string) :
  list_items (S fuel) break_on feats coreferences path
  = (t0 <- tokens0 ;;
     if break_on t0 then ret (feats, path, coreferences)
     else
       '(tdldef, corefs, _) <- _parse_conjunction fuel ;;
       let feats := (feats ++ [(path, tdldef)])%list in
       let coreferences := (coreferences ++ prefix_corefs path corefs)%list in
       t0 <- tokens0 ;;
       if String.eqb t0 "," then
         let path := LIST_TAIL ++ "." ++ path in
         _ <- popleft ;;
         list_items fuel break_on feats coreferences path
       else if String.eqb t0 "." then ret (feats, path, coreferences)
       else list_items fuel break_on feats coreferences path)%py.
Proof. reflexivity. Qed.

Lemma item_feats_app (items more : list string) :
  forall i : nat,
    item_feats i (items ++ more)
    = (item_feats i items ++ item_feats (length items + i) more)%list.
Proof.
  induction items as [|a items IH]; intros i; [reflexivity|].
  cbn [app item_feats length]. rewrite IH.
  now replace (length items + S i) with (S (length items + i)) by lia.
Qed.

Lemma _parse_conjunction_name (fuel : nat) (a nxt : string)
  (rest : list string) :
  plain_token a = true ->
  String.eqb nxt "&" = false ->
  2 < fuel ->
  _parse_conjunction fuel (a :: nxt :: rest)
  = (Ok (TdlDefinition CTdlDefinition [a] (Some []), [], []), nxt :: rest).
Proof.
  intros Ha Hamp Hfuel.
  exact (@_parse_conjunction_names_stop fuel a [] nxt rest Ha eq_refl Hamp
           Hfuel).
Qed.

(** The loop of [_parse_list] on items that are type names, up to the
    token that ends the list. *)
Lemma list_items_names (break_on : string -> bool) (stop : string)
  (rest : list string) (coreferences : list coref) :
  break_on stop = true ->
  String.eqb stop "," = false ->
  String.eqb stop "&" = false ->
  forall (more : list string) (a : string) (i fuel : nat)
         (feats : list (string * obj)),
    forallb (item_token break_on) (a :: more) = true ->
    length more + 4 < fuel ->
    list_items fuel break_on feats coreferences (item_path i)
      (list_tokens a more ++ stop :: rest)%list
    = (Ok ((feats ++ item_feats i (a :: more))%list,
           item_path (length more + i), coreferences),
       stop :: rest).
Proof.
  intros Hstop Hcomma Hamp.
  induction more as [|b more IH]; intros a i fuel feats Hitems Hfuel.
  - cbn [forallb] in Hitems. rewrite andb_true_r in Hitems.
    apply andb_prop in Hitems as [Ha Hbrk]. apply negb_true_iff in Hbrk.
    destruct fuel as [|fuel]; [inversion Hfuel|].
    rewrite list_items_unfold. unfold list_tokens. cbn [flat_map app].
    unfold bind at 1. cbn [tokens0]. rewrite Hbrk.
    unfold bind at 1.
    rewrite (@_parse_conjunction_name fuel a stop rest Ha Hamp)
      by (cbn [length] in *; lia).
    cbv beta iota zeta.
    unfold bind at 1. cbn [tokens0]. rewrite Hcomma.
    cbn [prefix_corefs map]. rewrite app_nil_r.
    destruct (String.eqb stop ".").
    + reflexivity.
    + destruct fuel as [|fuel]; [cbn [length] in *; lia|].
      rewrite list_items_unfold.
      unfold bind at 1. cbn [tokens0]. rewrite Hstop. reflexivity.
  - cbn [forallb] in Hitems.
    apply andb_prop in Hitems as [Hitem Hitems].
    apply andb_prop in Hitem as [Ha Hbrk]. apply negb_true_iff in Hbrk.
    destruct fuel as [|fuel]; [inversion Hfuel|].
    rewrite list_items_unfold. unfold list_tokens. cbn [flat_map app].
    unfold bind at 1. cbn [tokens0]. rewrite Hbrk.
    unfold bind at 1.
    rewrite (@_parse_conjunction_name fuel a ","
               (b :: flat_map (fun a => [","; a]) more ++ stop :: rest)%list
               Ha eq_refl) by (cbn [length] in *; lia).
    cbv beta iota zeta.
    unfold bind at 1. cbn [tokens0].
    change (String.eqb "," ",") with true. cbv beta iota.
    unfold bind at 1. cbn [popleft].
    cbn [prefix_corefs map]. rewrite app_nil_r.
    rewrite item_path_S.
    change (b :: flat_map (fun a => [","; a]) more ++ stop :: rest)%list
      with (list_tokens b more ++ stop :: rest)%list.
    rewrite (IH b (S i) fuel (feats ++ [(item_path i,
               TdlDefinition CTdlDefinition [a] (Some []))])%list Hitems)
      by (cbn [length] in *; lia).
    rewrite <- app_assoc. cbn [app item_feats length].
    now replace (length more + S i) with (S (length more + i)) by lia.
Qed.

Lemma _parse_list_names (break_on : string -> bool) (stop : string)
  (rest : list string) (a0 : string) (more : list string) (fuel : nat) :
  break_on stop = true ->
  String.eqb stop "," = false ->
  String.eqb stop "&" = false ->
  forallb (item_token break_on) (a0 :: more) = true ->
  length more + 5 < fuel ->
  _parse_list fuel break_on (list_tokens a0 more ++ stop :: rest)%list
  = (Ok (item_feats 0 (a0 :: more), rest_path (S (length more)), []),
     stop :: rest).
Proof.
  intros Hstop Hcomma Hamp Hitems Hfuel.
  destruct fuel as [|fuel]; [inversion Hfuel|].
  cbn [_parse_list]. unfold bind at 1.
  change LIST_HEAD with (item_path 0).
  rewrite (@list_items_names break_on stop rest [] Hstop Hcomma Hamp more a0
             0 fuel [] Hitems) by lia.
  cbv beta iota zeta. unfold ret.
  rewrite replace_head_of_item_path, Nat.add_0_r. reflexivity.
Qed.

(** X19. [_parse_cons_list] on [< a0 , a1 , ... , an >], each item one type
    name: the [i]-th item is at [FIRST] below [i] tails, and the end of
    the list, [None], is at the tail below the last item, [REST] under
    [n] tails; no coreference is recorded. *)
Theorem _parse_cons_list_of_names
  (fuel : nat) (a0 : string) (more rest : list string) :
  forallb (item_token cons_break_on) (a0 :: more) = true ->
  length more + 6 < fuel ->
  _parse_cons_list fuel ("<" :: list_tokens a0 more ++ ">" :: rest)%list
  = (Ok (Some (item_feats 0 (a0 :: more)
                 ++ [(rest_path (S (length more)), PyNone)])%list, []),
     rest).
Proof.
  intros Hitems Hfuel.
  destruct fuel as [|fuel]; [inversion Hfuel|].
  cbn [_parse_cons_list].
  unfold bind at 1. cbn [popleft].
  unfold bind at 1. cbn [assert String.eqb Ascii.eqb Bool.eqb ret].
  unfold bind at 1.
  rewrite (@_parse_list_names cons_break_on ">" rest a0 more fuel eq_refl
             eq_refl eq_refl Hitems) by lia.
  reflexivity.
Qed.

Lemma _parse_cons_list_of_names_witness :
  _parse_cons_list 8 ["<"; "a"; ","; "b"; ">"; "."]
  = (Ok (Some [("FIRST", TdlDefinition CTdlDefinition ["a"] (Some []));
               ("REST.FIRST", TdlDefinition CTdlDefinition ["b"] (Some []));
               ("REST.REST", PyNone)], []),
     ["."]).
Proof.
  apply (@_parse_cons_list_of_names 8 "a" ["b"] ["."]).
  - reflexivity.
  - cbn. lia.
Defined.

(** X20. [_parse_diff_list] on [<! a0 , a1 , ... , an !>], each item one
    type name: the items are under [LIST], the [i]-th at [FIRST] below [i]
    tails; [LAST] is an empty definition; and one coreference without a
    tag joins [LAST] with the tail of [LIST] below the last item, which
    gets no feature of its own. *)
Theorem _parse_diff_list_of_names
  (fuel : nat) (a0 : string) (more rest : list string) :
  forallb (item_token diff_break_on) (a0 :: more) = true ->
  length more + 6 < fuel ->
  _parse_diff_list fuel ("<!" :: list_tokens a0 more ++ "!>" :: rest)%list
  = (Ok ((map (fun pv => ((DIFF_LIST_LIST ++ "." ++ fst pv)%string, snd pv))
            (item_feats 0 (a0 :: more))
            ++ [(DIFF_LIST_LAST, TdlDefinition CTdlDefinition [] (Some []))])%list,
         [(None, [[DIFF_LIST_LIST ++ "." ++ rest_path (S (length more))];
                  [DIFF_LIST_LAST]])]),
     rest).
Proof.
  intros Hitems Hfuel.
  destruct fuel as [|fuel]; [inversion Hfuel|].
  cbn [_parse_diff_list].
  unfold bind at 1. cbn [popleft].
  unfold bind at 1. cbn [assert String.eqb Ascii.eqb Bool.eqb ret].
  unfold bind at 1.
  rewrite (@_parse_list_names diff_break_on "!>" rest a0 more fuel eq_refl
             eq_refl eq_refl Hitems) by lia.
  reflexivity.
Qed.

Lemma _parse_diff_list_of_names_witness :
  _parse_diff_list 8 ["<!"; "a"; ","; "b"; "!>"; "."]
  = (Ok ([("LIST.FIRST", TdlDefinition CTdlDefinition ["a"] (Some []));
          ("LIST.REST.FIRST", TdlDefinition CTdlDefinition ["b"] (Some []));
          ("LAST", TdlDefinition CTdlDefinition [] (Some []))],
         [(None, [["LIST.REST.REST"]; ["LAST"]])]),
     ["."]).
Proof.
  apply (@_parse_diff_list_of_names 8 "a" ["b"] ["."]).
  - reflexivity.
  - cbn. lia.
Defined.

(** ** The lexer: [_bounded] *)

Lemma str_from_app (a s : string) : str_from (String.length a) (a ++ s) = s.
Proof. induction a as [|c a IH]; [now destruct s | exact IH]. Qed.

Lemma get_app (a : string) (c : ascii) (s : string) :
  String.get (String.length a) (a ++ String.String c s) = Some c.
Proof. induction a as [|c' a IH]; [reflexivity | exact IH]. Qed.

Lemma get_end (a : string) : String.get (String.length a) a = None.
Proof. induction a as [|c a IH]; [reflexivity | exact IH]. Qed.

Lemma prefix_app (p b : string) : String.prefix p (p ++ b) = true.
Proof.
  induction p as [|c p IH]; [now destruct b|].
  cbn. destruct (ascii_dec c c) as [_|n]; [exact IH | now elim n].
Qed.

Lemma prefix_other_head (q c : ascii) (p s : string) :
  Ascii.eqb c q = false ->
  String.prefix (String.String q p) (String.String c s) = false.
Proof.
  intros H. cbn. destruct (ascii_dec q c) as [->|_]; [|reflexivity].
  now rewrite Ascii.eqb_refl in H.
Qed.

Lemma startswith_at_app (a s p : string) :
  startswith_at (a ++ s) p (String.length a) = startswith s p.
Proof.
  unfold startswith_at. rewrite str_from_app, string_length_app.
  replace (String.length a <=? String.length a + String.length s)%nat
    with true by (symmetry; apply Nat.leb_le; lia).
  reflexivity.
Qed.

Lemma join_empty_snoc (l : list string) (x : string) :
  join_empty (l ++ [x]) = join_empty l ++ x.
Proof.
  induction l as [|y l IH].
  - cbn. induction x as [|c x IHx]; [reflexivity | cbn; now rewrite IHx].
  - cbn [app join_empty fold_right] in *. fold (join_empty (l ++ [x])).
    fold (join_empty l). rewrite IH. now rewrite string_app_assoc.
Qed.

Lemma bounded_loop_unfold (fuel : nat) (p1 p2 : string) (start_line_no : nat)
  (substrings : list string) (line : string) (pos end_ line_no : nat)
  (lines : list (nat * string)) :
  bounded_loop (S fuel) p1 p2 start_line_no substrings line pos end_ line_no
    lines
  = if startswith_at line p2 end_ then
      (Ok (join_empty (substrings ++ [substring pos (end_ - pos) line]),
           start_line_no, line_no, line, end_ + String.length p2), lines)
    else
      match String.get end_ line with
      | None => (Raise IndexError, lines)
      | Some c =>
          let end_ := if Ascii.eqb c backslash then end_ + 2 else end_ + 1 in
          if (String.length line <=? end_)%nat then
            match lines with
            | [] =>
                (Raise (TdlParsingError (unterminated_msg p1)
                          (Some start_line_no) None), [])
            | (line_no, line') :: lines' =>
                bounded_loop fuel p1 p2 start_line_no
                  (substrings ++ [str_from pos line]) line' 0 0 line_no lines'
            end
          else
            bounded_loop fuel p1 p2 start_line_no substrings line pos end_
              line_no lines
      end.
Proof.
  cbn [bounded_loop].
  destruct (startswith_at line p2 end_); [reflexivity|].
  destruct (String.get end_ line) as [c|]; [|reflexivity].
  destruct (String.length line <=? _)%nat; [|reflexivity].
  destruct lines as [|[n l] lines]; reflexivity.
Qed.

Lemma string_app_nil_r (s : string) : s ++ "" = s.
Proof. induction s as [|c s IH]; [reflexivity | cbn; now rewrite IH]. Qed.

Lemma snoc_app (cur : string) (c : ascii) (x : string) :
  cur ++ String.String c x = (cur ++ String.String c "") ++ x.
Proof. now rewrite string_app_assoc. Qed.

Lemma plain_text_head (q c : ascii) (s : string) :
  plain_text q (String.String c s) = true ->
  Ascii.eqb c backslash = false /\ Ascii.eqb c q = false
  /\ plain_text q s = true.
Proof.
  cbn [plain_text]. rewrite !andb_true_iff, !negb_true_iff. tauto.
Qed.

(** The scan of a plain text that is followed, on the same line, by the
    closing delimiter. *)
Lemma scan_to_delimiter (p1 : string) (q : ascii) (p2' : string)
  (start : nat) (subs : list string) (pre b : string) (line_no fuel : nat)
  (lines : list (nat * string)) :
  forall rem cur : string,
    plain_text q rem = true ->
    bounded_loop (String.length rem + S fuel) p1 (String.String q p2') start
      subs (pre ++ cur ++ rem ++ String.String q p2' ++ b)
      (String.length pre) (String.length pre + String.length cur) line_no
      lines
    = (Ok (join_empty subs ++ cur ++ rem, start, line_no,
           pre ++ cur ++ rem ++ String.String q p2' ++ b,
           String.length pre + String.length cur + String.length rem
           + String.length (String.String q p2')),
       lines).
Proof.
  induction rem as [|c rem IH]; intros cur Hp.
  - cbn [String.length plus String.append].
    rewrite bounded_loop_unfold.
    replace (startswith_at (pre ++ cur ++ String.String q (p2' ++ b))
               (String.String q p2') (String.length pre + String.length cur))
      with true.
    + replace (String.length pre + String.length cur - String.length pre)
        with (String.length cur) by lia.
      rewrite substring_skip, substring_take, join_empty_snoc.
      rewrite string_app_nil_r, Nat.add_0_r. reflexivity.
    + symmetry. rewrite <- string_length_app, <- string_app_assoc.
      rewrite startswith_at_app.
      exact (prefix_app (String.String q p2') b).
  - apply plain_text_head in Hp as (Hbs & Hq & Hp).
    cbn [String.length plus].
    rewrite bounded_loop_unfold.
    replace (startswith_at (pre ++ cur ++ String.String c rem
                              ++ String.String q p2' ++ b)
               (String.String q p2') (String.length pre + String.length cur))
      with false.
    + replace (String.get (String.length pre + String.length cur)
                 (pre ++ cur ++ String.String c rem ++ String.String q p2' ++ b))
        with (Some c).
      * rewrite Hbs. cbv zeta.
        replace (String.length
                   (pre ++ cur ++ String.String c rem ++ String.String q p2' ++ b)
                 <=? String.length pre + String.length cur + 1)%nat
          with false.
        -- assert (Eline :
                     pre ++ cur ++ String.String c rem
                       ++ String.String q p2' ++ b
                     = pre ++ (cur ++ String.String c "") ++ rem
                         ++ String.String q p2' ++ b).
           { cbn [String.append]. now rewrite (snoc_app cur c). }
           rewrite Eline.
           replace (String.length pre + String.length cur + 1)
             with (String.length pre
                   + String.length (cur ++ String.String c ""))
             by (rewrite string_length_app; cbn [String.length]; lia).
           rewrite (IH (cur ++ String.String c "") Hp).
           rewrite string_length_app. cbn [String.length].
           rewrite (string_app_assoc cur). cbn [String.append].
           do 3 f_equal. lia.
        -- symmetry. apply Nat.leb_gt.
           rewrite !string_length_app. cbn [String.length].
           rewrite ?string_length_app. cbn [String.length]. lia.
      * symmetry. rewrite <- string_length_app, <- string_app_assoc.
        apply get_app.
    + symmetry. rewrite <- string_length_app, <- string_app_assoc.
      rewrite startswith_at_app.
      exact (@prefix_other_head q c p2' (rem ++ String.String q p2' ++ b) Hq).
Qed.

(** The scan of a plain text that runs to the end of the line: the next
    line is read, or the text is unterminated. *)
Lemma scan_to_line_end (p1 : string) (q : ascii) (p2' : string)
  (start : nat) (subs : list string) (pre : string) (line_no fuel : nat)
  (lines : list (nat * string)) :
  forall (rem : string) (c : ascii) (cur : string),
    plain_text q (String.String c rem) = true ->
    bounded_loop (S (String.length rem + fuel)) p1 (String.String q p2') start
      subs (pre ++ cur ++ String.String c rem)
      (String.length pre) (String.length pre + String.length cur) line_no
      lines
    = match lines with
      | [] =>
          (Raise (TdlParsingError (unterminated_msg p1) (Some start) None), [])
      | (n, l) :: lines' =>
          bounded_loop fuel p1 (String.String q p2') start
            (subs ++ [cur ++ String.String c rem]) l 0 0 n lines'
      end.
Proof.
  induction rem as [|c' rem IH]; intros c cur Hp;
    apply plain_text_head in Hp as (Hbs & Hq & Hp);
    cbn [String.length plus]; rewrite bounded_loop_unfold.
  - replace (startswith_at (pre ++ cur ++ String.String c "")
               (String.String q p2') (String.length pre + String.length cur))
      with false.
    + replace (String.get (String.length pre + String.length cur)
                 (pre ++ cur ++ String.String c "")) with (Some c).
      * rewrite Hbs. cbv zeta.
        replace (String.length (pre ++ cur ++ String.String c "")
                 <=? String.length pre + String.length cur + 1)%nat
          with true.
        -- rewrite str_from_app. reflexivity.
        -- symmetry. apply Nat.leb_le.
           rewrite !string_length_app. cbn [String.length]. lia.
      * symmetry. rewrite <- string_length_app, <- string_app_assoc.
        apply get_app.
    + symmetry. rewrite <- string_length_app, <- string_app_assoc.
      rewrite startswith_at_app.
      exact (@prefix_other_head q c p2' "" Hq).
  - replace (startswith_at (pre ++ cur ++ String.String c (String.String c' rem))
               (String.String q p2') (String.length pre + String.length cur))
      with false.
    + replace (String.get (String.length pre + String.length cur)
                 (pre ++ cur ++ String.String c (String.String c' rem)))
        with (Some c).
      * rewrite Hbs. cbv zeta.
        replace (String.length
                   (pre ++ cur ++ String.String c (String.String c' rem))
                 <=? String.length pre + String.length cur + 1)%nat
          with false.
        -- rewrite (snoc_app cur c (String.String c' rem)).
           replace (String.length pre + String.length cur + 1)
             with (String.length pre
                   + String.length (cur ++ String.String c ""))
             by (rewrite string_length_app; cbn [String.length]; lia).
           rewrite (IH c' (cur ++ String.String c "") Hp).
           rewrite (string_app_assoc cur). reflexivity.
        -- symmetry. apply Nat.leb_gt.
           rewrite !string_length_app. cbn [String.length]. lia.
      * symmetry. rewrite <- string_length_app, <- string_app_assoc.
        apply get_app.
    + symmetry. rewrite <- string_length_app, <- string_app_assoc.
      rewrite startswith_at_app.
      exact (@prefix_other_head q c p2' (String.String c' rem) Hq).
Qed.

Lemma plain_line_cons (q : ascii) (l : string) :
  plain_line q l = true ->
  exists (c : ascii) (rem : string),
    l = String.String c rem /\ plain_text q (String.String c rem) = true.
Proof.
  unfold plain_line. destruct l as [|c rem]; [discriminate|].
  intros H. now exists c, rem.
Qed.

(** The loop over the lines of a text whose closing delimiter is on a
    later line. *)
Lemma bounded_loop_lines (p1 : string) (q : ascii) (p2' : string)
  (start n : nat) (s b : string) (lines : list (nat * string)) :
  plain_text q s = true ->
  forall (mid : list (nat * string)) (subs : list string) (pre l : string)
         (n0 fuel : nat),
    plain_line q l = true ->
    forallb (fun nl => plain_line q (snd nl)) mid = true ->
    String.length (l ++ join_empty (map snd mid) ++ s) < fuel ->
    bounded_loop fuel p1 (String.String q p2') start subs (pre ++ l)
      (String.length pre) (String.length pre) n0
      (mid ++ (n, (s ++ String.String q p2' ++ b)%string) :: lines)%list
    = (Ok (join_empty subs ++ l ++ join_empty (map snd mid) ++ s, start, n,
           s ++ String.String q p2' ++ b,
           String.length s + String.length (String.String q p2')),
       lines).
Proof.
  intros Hs.
  induction mid as [|[n1 l1] mid IH]; intros subs pre l n0 fuel Hl Hmid Hfuel;
    destruct (plain_line_cons _ _ Hl) as (c & rem & -> & Hp);
    rewrite !string_length_app in Hfuel; cbn [String.length] in Hfuel.
  - cbn [map join_empty fold_right String.append String.length] in Hfuel |- *.
    replace fuel
      with (S (String.length rem + (String.length s + S (fuel - String.length rem - String.length s - 2))))
      by lia.
    replace (String.length pre) with (String.length pre + String.length "")
      at 2 by (cbn [String.length]; lia).
    rewrite (@scan_to_line_end p1 q p2' start subs pre n0 _ _ rem c "" Hp).
    cbn [app].
    rewrite (@scan_to_delimiter p1 q p2' start (subs ++ [String.String c rem])
               "" b n _ lines s "" Hs).
    rewrite join_empty_snoc. cbn [String.append String.length plus].
    now rewrite string_app_assoc.
  - cbn [forallb snd] in Hmid. apply andb_prop in Hmid as [Hl1 Hmid].
    cbn [map snd join_empty fold_right] in Hfuel |- *.
    fold (join_empty (map snd mid)) in Hfuel |- *.
    rewrite !string_length_app in Hfuel.
    replace fuel with (S (String.length rem + (fuel - String.length rem - 1)))
      by lia.
    replace (String.length pre) with (String.length pre + String.length "")
      at 2 by (cbn [String.length]; lia).
    rewrite (@scan_to_line_end p1 q p2' start subs pre n0 _ _ rem c "" Hp).
    cbn [app].
    rewrite (IH (subs ++ [String.String c rem])%list "" l1 n1 _ Hl1 Hmid)
      by (rewrite !string_length_app; lia).
    rewrite join_empty_snoc.
    now rewrite !string_app_assoc.
Qed.

(** X21. A text without backslash and without the first character of the
    closing delimiter, followed by the delimiter on the same line:
    [_bounded] returns the text, the line number twice, the line, and the
    position after the delimiter, and reads no further line. *)
Theorem _bounded_on_one_line
  (p1 : string) (q : ascii) (p2' a s b : string) (line_no fuel : nat)
  (lines : list (nat * string)) :
  plain_text q s = true ->
  String.length s < fuel ->
  _bounded fuel p1 (String.String q p2') (a ++ s ++ String.String q p2' ++ b)
    (String.length a) line_no lines
  = (Ok (s, line_no, line_no, a ++ s ++ String.String q p2' ++ b,
         String.length a + String.length s
         + String.length (String.String q p2')),
     lines).
Proof.
  intros Hs Hfuel. unfold _bounded.
  replace fuel with (String.length s + S (fuel - String.length s - 1)) by lia.
  replace (String.length a) with (String.length a + String.length "")
    at 2 by (cbn [String.length]; lia).
  rewrite (@scan_to_delimiter p1 q p2' line_no [] a b line_no _ lines s ""
             Hs).
  cbn [join_empty fold_right String.append String.length].
  now rewrite Nat.add_0_r.
Qed.

Lemma _bounded_on_one_line_witness :
  _bounded 9 triple_quote triple_quote
    ("a := b & " ++ "A noun." ++ triple_quote ++ " c.") 9 4 [(5, "d := e.")]
  = (Ok ("A noun.", 4, 4, "a := b & " ++ "A noun." ++ triple_quote ++ " c.",
         9 + 7 + 3),
     [(5, "d := e.")]).
Proof.
  apply (@_bounded_on_one_line triple_quote dquote
           (String.String dquote (String.String dquote ""))
           "a := b & " "A noun." " c." 4 9 [(5, "d := e.")]).
  - reflexivity.
  - cbn. lia.
Defined.

(** X22. A text that runs over several lines, none of them empty and
    none with a backslash or the first character of the closing delimiter,
    and that is closed on a later line: [_bounded] returns the pieces of
    the lines joined, the number of the line where the text began, the
    number and the text of the line with the delimiter, and the position
    after the delimiter in that line; the lines after it are not read. *)
Theorem _bounded_over_lines
  (p1 : string) (q : ascii) (p2' a l : string) (mid : list (nat * string))
  (n : nat) (s b : string) (line_no fuel : nat) (lines : list (nat * string)) :
  plain_line q l = true ->
  forallb (fun nl => plain_line q (snd nl)) mid = true ->
  plain_text q s = true ->
  String.length (l ++ join_empty (map snd mid) ++ s) < fuel ->
  _bounded fuel p1 (String.String q p2') (a ++ l) (String.length a) line_no
    (mid ++ (n, (s ++ String.String q p2' ++ b)%string) :: lines)%list
  = (Ok (l ++ join_empty (map snd mid) ++ s, line_no, n,
         s ++ String.String q p2' ++ b,
         String.length s + String.length (String.String q p2')),
     lines).
Proof.
  intros Hl Hmid Hs Hfuel. unfold _bounded.
  exact (@bounded_loop_lines p1 q p2' line_no n s b lines Hs mid [] a l
           line_no fuel Hl Hmid Hfuel).
Qed.

Lemma _bounded_over_lines_witness :
  _bounded 20 "#|" "|#" ("#|" ++ " one ") 2 7
    ([(8, "two ")] ++ (9, ("three" ++ "|#" ++ " x")%string) :: [(10, "y")])%list
  = (Ok (" one " ++ "two " ++ "three", 7, 9, "three" ++ "|#" ++ " x", 5 + 2),
     [(10, "y")]).
Proof.
  apply (@_bounded_over_lines "#|" "|"%char "#" "#|" " one " [(8, "two ")] 9
           "three" " x" 7 20 [(10, "y")]).
  - reflexivity.
  - reflexivity.
  - reflexivity.
  - cbn. lia.
Defined.

Lemma bounded_loop_unterminated (p1 : string) (q : ascii) (p2' : string)
  (start : nat) :
  forall (lines : list (nat * string)) (subs : list string) (pre l : string)
         (n0 fuel : nat),
    plain_line q l = true ->
    forallb (fun nl => plain_line q (snd nl)) lines = true ->
    String.length (l ++ join_empty (map snd lines)) <= fuel ->
    bounded_loop fuel p1 (String.String q p2') start subs (pre ++ l)
      (String.length pre) (String.length pre) n0 lines
    = (Raise (TdlParsingError (unterminated_msg p1) (Some start) None), []).
Proof.
  induction lines as [|[n1 l1] lines IH];
    intros subs pre l n0 fuel Hl Hlines Hfuel;
    destruct (plain_line_cons _ _ Hl) as (c & rem & -> & Hp);
    rewrite !string_length_app in Hfuel; cbn [String.length] in Hfuel.
  - replace fuel with (S (String.length rem + (fuel - String.length rem - 1)))
      by lia.
    replace (String.length pre) with (String.length pre + String.length "")
      at 2 by (cbn [String.length]; lia).
    now rewrite (@scan_to_line_end p1 q p2' start subs pre n0 _ _ rem c ""
                   Hp).
  - cbn [forallb snd] in Hlines. apply andb_prop in Hlines as [Hl1 Hlines].
    cbn [map snd join_empty fold_right] in Hfuel.
    fold (join_empty (map snd lines)) in Hfuel.
    rewrite !string_length_app in Hfuel.
    replace fuel with (S (String.length rem + (fuel - String.length rem - 1)))
      by lia.
    replace (String.length pre) with (String.length pre + String.length "")
      at 2 by (cbn [String.length]; lia).
    rewrite (@scan_to_line_end p1 q p2' start subs pre n0 _ _ rem c "" Hp).
    apply (IH (subs ++ [String.String c rem])%list "" l1 n1 _ Hl1 Hlines).
    rewrite !string_length_app. lia.
Qed.

(** X23. A text that is not closed before the lines run out, none of its
    lines empty or with a backslash or the first character of the closing
    delimiter: [_bounded] reads all the lines and raises the parsing error
    for an unterminated docstring, when the opening delimiter is three
    double quotes, or block comment, with the number of the line where the
    text began. *)
Theorem _bounded_unterminated
  (p1 : string) (q : ascii) (p2' a l : string) (line_no fuel : nat)
  (lines : list (nat * string)) :
  plain_line q l = true ->
  forallb (fun nl => plain_line q (snd nl)) lines = true ->
  String.length (l ++ join_empty (map snd lines)) <= fuel ->
  _bounded fuel p1 (String.String q p2') (a ++ l) (String.length a) line_no
    lines
  = (Raise (TdlParsingError
              ("Unterminated "
               ++ (if String.eqb p1 triple_quote then "docstring"
                   else "block comment"))
              (Some line_no) None), []).
Proof.
  intros Hl Hlines Hfuel. unfold _bounded.
  exact (@bounded_loop_unterminated p1 q p2' line_no lines [] a l line_no fuel
           Hl Hlines Hfuel).
Qed.

Lemma _bounded_unterminated_witness :
  _bounded 20 "#|" "|#" ("#|" ++ " one ") 2 7 [(8, "two "); (9, "three")]
  = (Raise (TdlParsingError "Unterminated block comment" (Some 7) None), []).
Proof.
  apply (@_bounded_unterminated "#|" "|"%char "#" "#|" " one " 7 20
           [(8, "two "); (9, "three")]).
  - reflexivity.
  - reflexivity.
  - cbn. lia.
Defined.

(** X24. When the opening delimiter is the last thing on its line, with
    no line break after it, [_bounded] raises [IndexError], whatever lines
    follow; so does an empty line inside the text. *)
Theorem _bounded_at_end_of_line
  (p1 : string) (q : ascii) (p2' : string) (line : string)
  (line_no fuel : nat) (lines : list (nat * string)) :
  _bounded (S fuel) p1 (String.String q p2') line (String.length line) line_no
    lines
  = (Raise IndexError, lines)
  /\ forall (a l : string) (n : nat),
      plain_line q l = true ->
      String.length l < fuel ->
      _bounded (S fuel) p1 (String.String q p2') (a ++ l) (String.length a)
        line_no ((n, "") :: lines)
      = (Raise IndexError, lines).
Proof.
  assert (Hend : forall (subs : list string) (line : string) (start n f : nat),
             bounded_loop (S f) p1 (String.String q p2') start subs line
               (String.length line) (String.length line) n lines
             = (Raise IndexError, lines)).
  { intros subs line0 start n f. rewrite bounded_loop_unfold.
    replace (startswith_at line0 (String.String q p2') (String.length line0))
      with false.
    - now rewrite get_end.
    - symmetry. rewrite <- (string_app_nil_r line0) at 1.
      now rewrite startswith_at_app. }
  split; [apply Hend|].
  intros a l n Hl Hfuel. unfold _bounded.
  destruct (plain_line_cons _ _ Hl) as (c & rem & -> & Hp).
  cbn [String.length] in Hfuel.
  replace (S fuel)
    with (S (String.length rem + S (fuel - String.length rem - 1))) by lia.
  replace (String.length a) with (String.length a + String.length "")
    at 2 by (cbn [String.length]; lia).
  rewrite (@scan_to_line_end p1 q p2' line_no [] a line_no _ _ rem c "" Hp).
  exact (Hend _ "" line_no n _).
Qed.

Lemma _bounded_at_end_of_line_witness :
  _bounded 9 triple_quote triple_quote ("a := b &" ++ "  ") 8 3
    [(4, ""); (5, "c.")]
  = (Raise IndexError, [(5, "c.")]).
Proof.
  apply (proj2 (@_bounded_at_end_of_line triple_quote dquote
                  (String.String dquote (String.String dquote ""))
                  "" 3 8 [(5, "c.")]) "a := b &" "  " 4).
  - reflexivity.
  - cbn. lia.
Defined.

(** ** [_accumulate] *)

Lemma is_comment_gid (t : Token) :
  ((tok_gid t =? 2)%nat || (tok_gid t =? 3)%nat) = _is_comment t.
Proof.
  unfold _is_comment.
  destruct (Nat.eqb_spec (tok_gid t) 2) as [->|H2]; [reflexivity|].
  destruct (Nat.eqb_spec (tok_gid t) 3) as [->|H3]; [reflexivity|].
  cbn [orb]. symmetry. apply andb_false_iff.
  destruct (Nat.leb_spec 2 (tok_gid t)); [right|now left].
  apply Nat.leb_gt. lia.
Qed.

Lemma stack_break (open : list nat) :
  (open ++ [10])%list = break_of open :: stack_of open.
Proof. now destruct open. Qed.

Lemma break_of_cases (open : list nat) :
  forallb is_closer open = true ->
  break_of open = 10 \/ break_of open = 16 \/ break_of open = 17
  \/ break_of open = 18.
Proof.
  destruct open as [|c open]; [now left|].
  cbn [forallb break_of hd]. intros H. apply andb_prop in H as [H _].
  unfold is_closer in H.
  apply orb_prop in H as [H|H]; [apply orb_prop in H as [H|H]|];
    apply Nat.eqb_eq in H; tauto.
Qed.

Ltac eqb_false := symmetry; apply Nat.eqb_neq; lia.

Ltac bool_facts :=
  repeat match goal with
         | H : (_ || _) = false |- _ => apply orb_false_elim in H; destruct H
         | H : (_ =? _)%nat = false |- _ => apply Nat.eqb_neq in H
         | H : (_ =? _)%nat = true |- _ => apply Nat.eqb_eq in H
         end.

(** Inside a definition, the loop follows the brackets: after [body] its
    [break_on] and [stack] are those of the closing kinds awaited, and
    [data] has taken the tokens of [body] that are not comments. *)
Lemma _accumulate_loop_nesting (rest : list Token) :
  forall (body : list Token) (open open' : list nat) (data : list Token)
         (in_def : bool),
    forallb is_closer open = true ->
    data <> [] ->
    nesting open body = Some open' ->
    _accumulate_loop (body ++ rest) data (stack_of open) (break_of open) in_def
    = _accumulate_loop rest (data ++ uncommented body) (stack_of open')
        (break_of open') in_def.
Proof.
  induction body as [|t body IH]; intros open open' data in_def Hopen Hdata Hn.
  - cbn in Hn. injection Hn as <-. cbn [app uncommented filter].
    now rewrite app_nil_r.
  - assert (Hlen : (length data =? 0)%nat = false)
      by (destruct data; [now elim Hdata | reflexivity]).
    assert (Hsnoc : (data ++ [t])%list <> []) by (now destruct data).
    cbn [nesting] in Hn. cbv zeta in Hn.
    cbn [app _accumulate_loop]. cbv zeta.
    rewrite is_comment_gid. unfold uncommented. cbn [filter].
    fold (uncommented body).
    destruct (_is_comment t) eqn:Hc.
    + rewrite Hlen. cbn [negb]. now apply IH.
    + cbn [negb].
      replace (data ++ t :: uncommented body)%list
        with ((data ++ [t]) ++ uncommented body)%list
        by (now rewrite <- app_assoc).
      rewrite <- is_comment_gid in Hc.
      pose proof (break_of_cases _ Hopen) as Hb.
      apply orb_false_elim in Hc as [Hc2 Hc3].
      destruct ((tok_gid t =? 13)%nat || (tok_gid t =? 14)%nat
                || (tok_gid t =? 15)%nat) eqn:Hop.
      * (* an opening bracket *)
        assert (Hg : tok_gid t = 13 \/ tok_gid t = 14 \/ tok_gid t = 15).
        { apply orb_prop in Hop as [Hop|Hop];
            [apply orb_prop in Hop as [Hop|Hop]|];
            apply Nat.eqb_eq in Hop; tauto. }
        replace (tok_gid t =? 20)%nat with false by eqb_false.
        replace (tok_gid t =? 7)%nat with false by eqb_false.
        replace (tok_gid t =? 8)%nat with false by eqb_false.
        replace (tok_gid t =? break_of open)%nat with false by eqb_false.
        cbn [orb]. rewrite <- stack_break.
        apply (IH (tok_gid t + 3 :: open) open' (data ++ [t])%list in_def);
          [|exact Hsnoc|exact Hn].
        cbn [forallb]. rewrite Hopen, andb_true_r. unfold is_closer.
        destruct Hg as [E|[E|E]]; rewrite E; reflexivity.
      * destruct ((tok_gid t =? 16)%nat || (tok_gid t =? 17)%nat
                  || (tok_gid t =? 18)%nat) eqn:Hcl.
        -- (* the closing bracket that is awaited *)
           assert (Hg : tok_gid t = 16 \/ tok_gid t = 17 \/ tok_gid t = 18).
           { apply orb_prop in Hcl as [Hcl|Hcl];
               [apply orb_prop in Hcl as [Hcl|Hcl]|];
               apply Nat.eqb_eq in Hcl; tauto. }
           destruct open as [|c open1]; [discriminate Hn|].
           destruct (tok_gid t =? c)%nat eqn:Hgc; [|discriminate Hn].
           replace (tok_gid t =? 20)%nat with false by eqb_false.
           replace (tok_gid t =? 7)%nat with false by eqb_false.
           replace (tok_gid t =? 8)%nat with false by eqb_false.
           cbn [orb break_of hd]. rewrite Hgc.
           change (stack_of (c :: open1)) with (open1 ++ [10])%list.
           rewrite stack_break.
           cbn [forallb] in Hopen. apply andb_prop in Hopen as [_ Hopen].
           now apply IH.
        -- destruct ((tok_gid t =? 7)%nat || (tok_gid t =? 8)%nat
                     || (tok_gid t =? 20)%nat) eqn:H78; [discriminate Hn|].
           bool_facts.
           replace (tok_gid t =? 20)%nat with false by eqb_false.
           replace (tok_gid t =? 7)%nat with false by eqb_false.
           replace (tok_gid t =? 8)%nat with false by eqb_false.
           replace (tok_gid t =? 13)%nat with false by eqb_false.
           replace (tok_gid t =? 14)%nat with false by eqb_false.
           replace (tok_gid t =? 15)%nat with false by eqb_false.
           cbn [orb].
           destruct (tok_gid t =? 10)%nat eqn:H10.
           ++ (* a dot inside brackets *)
              destruct open as [|c open1]; [discriminate Hn|].
              apply Nat.eqb_eq in H10.
              assert (Hcc : c = 16 \/ c = 17 \/ c = 18).
              { cbn [forallb] in Hopen. apply andb_prop in Hopen as [Hcc _].
                unfold is_closer in Hcc.
                apply orb_prop in Hcc as [Hcc|Hcc];
                  [apply orb_prop in Hcc as [Hcc|Hcc]|];
                  apply Nat.eqb_eq in Hcc; tauto. }
              cbn [break_of hd] in *.
              replace (tok_gid t =? c)%nat with false by eqb_false.
              now apply IH.
           ++ apply Nat.eqb_neq in H10.
              replace (tok_gid t =? break_of open)%nat with false
                by eqb_false.
              now apply IH.
Qed.

Lemma nesting_closers :
  forall (body : list Token) (open open' : list nat),
    forallb is_closer open = true ->
    nesting open body = Some open' ->
    forallb is_closer open' = true.
Proof.
  induction body as [|t body IH]; intros open open' Hopen Hn.
  - cbn in Hn. now injection Hn as <-.
  - cbn [nesting] in Hn. cbv zeta in Hn.
    destruct (_is_comment t); [now apply (IH open)|].
    destruct ((tok_gid t =? 13)%nat || (tok_gid t =? 14)%nat
              || (tok_gid t =? 15)%nat) eqn:Hop.
    + apply (IH (tok_gid t + 3 :: open)); [|exact Hn].
      cbn [forallb]. rewrite Hopen, andb_true_r. unfold is_closer.
      apply orb_prop in Hop as [Hop|Hop];
        [apply orb_prop in Hop as [Hop|Hop]|];
        apply Nat.eqb_eq in Hop; rewrite Hop; reflexivity.
    + destruct ((tok_gid t =? 16)%nat || (tok_gid t =? 17)%nat
                || (tok_gid t =? 18)%nat).
      * destruct open as [|c open1]; [discriminate Hn|].
        destruct (tok_gid t =? c)%nat; [|discriminate Hn].
        cbn [forallb] in Hopen. apply andb_prop in Hopen as [_ Hopen].
        now apply (IH open1).
      * destruct ((tok_gid t =? 7)%nat || (tok_gid t =? 8)%nat
                  || (tok_gid t =? 20)%nat); [discriminate Hn|].
        destruct (tok_gid t =? 10)%nat.
        -- destruct open as [|c open1]; [discriminate Hn|].
           now apply (IH (c :: open1)).
        -- now apply (IH open).
Qed.

Lemma _accumulate_loop_unfold (item : Token) (lexitems data : list Token)
  (stack : list nat) (break_on : nat) (in_def : bool) :
  _accumulate_loop (item :: lexitems) data stack break_on in_def
  = let gid := tok_gid item in
    if (gid =? 2)%nat || (gid =? 3)%nat then
      if (length data =? 0)%nat then
        yield_ [item] (_accumulate_loop lexitems data stack break_on in_def)
      else _accumulate_loop lexitems data stack break_on in_def
    else if (gid =? 20)%nat then
      if (length data =? 0)%nat then
        yield_ [item] (_accumulate_loop lexitems data stack break_on in_def)
      else ([], Some AssertionError)
    else if (gid =? 7)%nat || (gid =? 8)%nat then
      if in_def then
        yield_ (firstn (length data - 1) data)
          (_accumulate_loop lexitems
             (skipn (length data - 1) data ++ [item])%list [] 10 in_def)
      else
        _accumulate_loop lexitems (data ++ [item])%list stack break_on true
    else
      let data := (data ++ [item])%list in
      if (gid =? break_on)%nat then
        match stack with
        | [] =>
            yield_ data (_accumulate_loop lexitems [] stack break_on false)
        | b :: stack' => _accumulate_loop lexitems data stack' b in_def
        end
      else if (gid =? 13)%nat || (gid =? 14)%nat || (gid =? 15)%nat then
        _accumulate_loop lexitems data (break_on :: stack) (gid + 3) in_def
      else _accumulate_loop lexitems data stack break_on in_def.
Proof. reflexivity. Qed.

Lemma _accumulate_header (identifier op : Token) (lexitems : list Token) :
  tok_gid identifier = 24 ->
  tok_gid op = 7 \/ tok_gid op = 8 ->
  _accumulate (identifier :: op :: lexitems)
  = _accumulate_loop lexitems [identifier; op] [] 10 true.
Proof.
  intros Hid Hop. unfold _accumulate. cbn [_accumulate_loop]. cbv zeta.
  rewrite Hid. cbn [Nat.eqb orb app].
  destruct Hop as [-> | ->]; reflexivity.
Qed.

(** X25. A definition [identifier op body .] whose brackets match, with no
    dot outside them, is one block of [_accumulate]: the block has the
    tokens of the definition without the comments, dots inside brackets do
    not end it, and what follows the dot is read as it would be alone. *)
Theorem _accumulate_yields_the_definition
  (identifier op dot : Token) (body rest : list Token) :
  tok_gid identifier = 24 ->
  tok_gid op = 7 \/ tok_gid op = 8 ->
  tok_gid dot = 10 ->
  nesting [] body = Some [] ->
  _accumulate (identifier :: op :: body ++ dot :: rest)%list
  = yield_ (identifier :: op :: uncommented body ++ [dot])%list
      (_accumulate rest).
Proof.
  intros Hid Hop Hdot Hn.
  rewrite (_accumulate_header identifier op _ Hid Hop).
  change 10 with (break_of []) at 1.
  change (@nil nat) with (stack_of []) at 1.
  rewrite (@_accumulate_loop_nesting (dot :: rest) body [] [] [identifier; op]
             true eq_refl ltac:(discriminate) Hn).
  cbn [_accumulate_loop stack_of break_of hd tl app]. cbv zeta.
  rewrite Hdot. reflexivity.
Qed.

Lemma _accumulate_yields_the_definition_witness :
  _accumulate
    ((24, "a", 1) :: (7, ":=", 1)
       :: [(24, "b", 1); (11, "&", 1); (13, "[", 1); (24, "F", 2);
           (10, ".", 2); (24, "G", 2); (3, " a comment", 2); (24, "c", 3);
           (16, "]", 3)]
       ++ (10, ".", 3) :: [(24, "d", 4)])%list
  = yield_
      ((24, "a", 1) :: (7, ":=", 1)
         :: [(24, "b", 1); (11, "&", 1); (13, "[", 1); (24, "F", 2);
             (10, ".", 2); (24, "G", 2); (24, "c", 3); (16, "]", 3)]
         ++ [(10, ".", 3)])%list
      (_accumulate [(24, "d", 4)]).
Proof.
  apply (@_accumulate_yields_the_definition (24, "a", 1) (7, ":=", 1)
           (10, ".", 3)
           [(24, "b", 1); (11, "&", 1); (13, "[", 1); (24, "F", 2);
            (10, ".", 2); (24, "G", 2); (3, " a comment", 2); (24, "c", 3);
            (16, "]", 3)] [(24, "d", 4)]).
  - reflexivity.
  - now left.
  - reflexivity.
  - reflexivity.
Defined.

Lemma firstn_snoc (A : Type) (l : list A) (x : A) :
  firstn (length (l ++ [x]) - 1) (l ++ [x]) = l
  /\ skipn (length (l ++ [x]) - 1) (l ++ [x]) = [x].
Proof.
  rewrite length_app. cbn [length].
  replace (length l + 1 - 1) with (length l + 0) by lia.
  split.
  - rewrite firstn_app_2. cbn [firstn]. apply app_nil_r.
  - replace (length l + 0) with (length l) by lia.
    rewrite skipn_app, skipn_all, Nat.sub_diag. reflexivity.
Qed.

(** X26. A definition without its dot is cut where the next one begins:
    when a second operator is met, the block yielded is the first
    definition up to the token before the identifier of the second,
    whatever brackets it left open, and the second definition is read as
    it would be at the start of the input. *)
Theorem _accumulate_cuts_at_next_definition
  (id1 op1 id2 op2 : Token) (body rest : list Token) (open : list nat) :
  tok_gid id1 = 24 ->
  tok_gid op1 = 7 \/ tok_gid op1 = 8 ->
  tok_gid id2 = 24 ->
  tok_gid op2 = 7 \/ tok_gid op2 = 8 ->
  nesting [] body = Some open ->
  _accumulate (id1 :: op1 :: body ++ id2 :: op2 :: rest)%list
  = yield_ (id1 :: op1 :: uncommented body)
      (_accumulate (id2 :: op2 :: rest)).
Proof.
  intros Hid1 Hop1 Hid2 Hop2 Hn.
  rewrite (_accumulate_header id1 op1 _ Hid1 Hop1).
  rewrite (_accumulate_header id2 op2 _ Hid2 Hop2).
  change 10 with (break_of []) at 1.
  change (@nil nat) with (stack_of []) at 1.
  rewrite (@_accumulate_loop_nesting (id2 :: op2 :: rest) body [] open
             [id1; op1] true eq_refl ltac:(discriminate) Hn).
  pose proof (break_of_cases _ (nesting_closers body [] eq_refl Hn)) as Hb.
  rewrite _accumulate_loop_unfold. cbv zeta.
  rewrite Hid2.
  replace (24 =? break_of open)%nat with false by eqb_false.
  cbn [Nat.eqb orb].
  rewrite _accumulate_loop_unfold. cbv zeta.
  assert (E78 : (tok_gid op2 =? 2)%nat || (tok_gid op2 =? 3)%nat = false
                /\ (tok_gid op2 =? 20)%nat = false
                /\ (tok_gid op2 =? 7)%nat || (tok_gid op2 =? 8)%nat = true)
    by (destruct Hop2 as [-> | ->]; now repeat split).
  destruct E78 as (E23 & E20 & E78). rewrite E23, E20, E78.
  destruct (firstn_snoc (([id1; op1] ++ uncommented body)%list) id2)
    as [Ef Es].
  rewrite Ef, Es. reflexivity.
Qed.

Lemma _accumulate_cuts_at_next_definition_witness :
  _accumulate
    ((24, "a", 1) :: (7, ":=", 1)
       :: [(24, "b", 1); (11, "&", 1); (13, "[", 1); (24, "F", 2)]
       ++ (24, "c", 3) :: (7, ":=", 3) :: [(24, "d", 3); (10, ".", 3)])%list
  = yield_
      ((24, "a", 1) :: (7, ":=", 1)
         :: [(24, "b", 1); (11, "&", 1); (13, "[", 1); (24, "F", 2)])
      (_accumulate
         ((24, "c", 3) :: (7, ":=", 3) :: [(24, "d", 3); (10, ".", 3)])).
Proof.
  apply (@_accumulate_cuts_at_next_definition (24, "a", 1) (7, ":=", 1)
           (24, "c", 3) (7, ":=", 3)
           [(24, "b", 1); (11, "&", 1); (13, "[", 1); (24, "F", 2)]
           [(24, "d", 3); (10, ".", 3)] [16]).
  - reflexivity.
  - now left.
  - reflexivity.
  - now left.
  - reflexivity.
Defined.

(** ** [AVM.normalize] *)

Lemma is_AVM_with_fs (o : obj) (a : featmap) :
  is_AVM (with_fs o a) = is_AVM o.
Proof. now destruct o. Qed.

Lemma as_fs_with_fs (o : obj) (a : featmap) :
  is_AVM o = true -> as_fs (with_fs o a) = Some a.
Proof. now destruct o. Qed.

Lemma with_fs_with_fs (o : obj) (a b : featmap) :
  with_fs (with_fs o a) b = with_fs o b.
Proof. now destruct o. Qed.

Lemma as_fs_AVM (o : obj) :
  is_AVM o = true -> exists a : featmap, as_fs o = Some a.
Proof. destruct o; try discriminate; intros _; eexists; reflexivity. Qed.

Lemma normal_as_fs (o : obj) :
  is_AVM o = true ->
  normal o = match as_fs o with
             | Some (Some d) => forallb (fun kv => normal_value (snd kv)) d
             | _ => true
             end.
Proof.
  destruct o as [| | | | |a doc|c|a doc| | |]; try discriminate; intros _.
  - now destruct a.
  - reflexivity.
  - now destruct a.
Qed.

Lemma closed_free_as_fs (o : obj) :
  is_AVM o = true ->
  closed_free o = match as_fs o with
                  | Some (Some d) => forallb (fun kv => free_value (snd kv)) d
                  | _ => false
                  end.
Proof.
  destruct o as [| | | | |a doc|c|a doc| | |]; try discriminate; intros _.
  - now destruct a.
  - reflexivity.
  - now destruct a.
Qed.

Lemma obj_depth_as_fs (o : obj) (d : list (string * obj)) :
  is_AVM o = true ->
  as_fs o = Some (Some d) ->
  obj_depth o = S (list_max (map (fun kv => obj_depth (snd kv)) d)).
Proof.
  destruct o as [| | | | |a doc|c|a doc| | |]; try discriminate; intros _ E;
    cbn [as_fs] in E; injection E as E.
  - now subst a.
  - cbn [obj_depth]. now rewrite E.
  - now subst a.
Qed.

Lemma normalize_unfold (fuel : nat) (self : obj) :
  normalize (S fuel) self
  = if is_AVM self then
      match as_fs self with
      | Some (Some items) =>
          let (r, items') := normalize_items (normalize fuel) items in
          (r, with_fs self (Some items'))
      | _ => (Raise not_iterable, self)
      end
    else (Raise (AttributeError "normalize"), self).
Proof. reflexivity. Qed.

Lemma normal_value_AVM (v : obj) :
  is_AVM v = true -> normal_value v = normal v.
Proof. intros H. destruct v; try discriminate H; unfold normal_value; now rewrite ?H. Qed.

Lemma free_value_AVM (v : obj) :
  is_AVM v = true -> free_value v = closed_free v.
Proof. intros H. destruct v; try discriminate H; unfold free_value; now rewrite ?H. Qed.

Lemma normalize_value_AVM (rec : obj -> result unit * obj) (v : obj) :
  is_AVM v = true -> normalize_value rec v = rec v.
Proof. intros H. destruct v; try discriminate H; unfold normalize_value; now rewrite ?H. Qed.

Section NormalizeOnce.
Variable rec : obj -> result unit * obj.
Hypothesis Hrec :
  forall o o' : obj,
    rec o = (Ok tt, o') ->
    is_AVM o' = true /\ normal o' = true /\ rec o' = (Ok tt, o').

(** The terms left by a loop that returned are normalized, and a second
    loop over them changes nothing. *)
Lemma normalize_terms_done :
  forall terms terms' : list obj,
    normalize_terms rec terms = (Ok tt, terms') ->
    forallb (fun t => if is_AVM t then normal t else true) terms' = true
    /\ normalize_terms rec terms' = (Ok tt, terms')
    /\ (forall t, terms' = [t] -> is_AVM t = true -> rec t = (Ok tt, t)).
Proof.
  induction terms as [|t terms IH]; intros terms' H.
  - cbn in H. injection H as <-. repeat split. intros t E. discriminate E.
  - cbn [normalize_terms] in H.
    destruct (is_AVM t) eqn:Ht.
    + destruct (rec t) as [[[]|e] t'] eqn:Et; [|discriminate H].
      destruct (normalize_terms rec terms) as [r terms''] eqn:Ets.
      injection H as -> <-.
      destruct (@Hrec _ _ Et) as (Ha & Hn & Hr).
      destruct (IH _ eq_refl) as (IH1 & IH2 & _).
      repeat split.
      * cbn [forallb]. now rewrite Ha, Hn, IH1.
      * cbn [normalize_terms]. now rewrite Ha, Hr, IH2.
      * intros t0 E _. injection E as <- _. exact Hr.
    + destruct (normalize_terms rec terms) as [r terms''] eqn:Ets.
      injection H as -> <-.
      destruct (IH _ eq_refl) as (IH1 & IH2 & _).
      repeat split.
      * cbn [forallb]. now rewrite Ht, IH1.
      * cbn [normalize_terms]. now rewrite Ht, IH2.
      * intros t0 E Ha. injection E as <- _. now rewrite Ha in Ht.
Qed.

Lemma normalize_value_done (val val' : obj) :
  normalize_value rec val = (Ok tt, val') ->
  normal_value val' = true /\ normalize_value rec val' = (Ok tt, val').
Proof.
  intros H.
  destruct (is_Conjunction val) eqn:Hconj.
  - destruct val; try discriminate Hconj. cbn [normalize_value] in H.
    destruct (normalize_terms rec terms) as [[[]|e] terms'] eqn:Ets;
      [|discriminate H].
    destruct (@normalize_terms_done _ _ Ets) as (Hn & Hagain & Hone).
    destruct (single_AVM terms') eqn:Hsingle.
    + destruct terms' as [|t [|? ?]]; try discriminate Hsingle.
      cbn [single_AVM] in Hsingle. rewrite Hsingle in H.
      rewrite (Hone t eq_refl Hsingle) in H. injection H as <-.
      rewrite normal_value_AVM, normalize_value_AVM by exact Hsingle.
      split; [|exact (Hone t eq_refl Hsingle)].
      cbn [forallb] in Hn. now rewrite Hsingle, andb_true_r in Hn.
    + assert (E : val' = Conjunction terms').
      { destruct terms' as [|t [|? ?]]; try (now injection H).
        cbn [single_AVM] in Hsingle. rewrite Hsingle in H. now injection H. }
      subst val'. split.
      * cbn [normal_value]. now rewrite Hsingle, Hn.
      * cbn [normalize_value]. rewrite Hagain.
        destruct terms' as [|t [|? ?]]; try reflexivity.
        cbn [single_AVM] in Hsingle. now rewrite Hsingle.
  - destruct (is_AVM val) eqn:Ha.
    + rewrite normalize_value_AVM in H by exact Ha.
      destruct (@Hrec _ _ H) as (Ha' & Hn & Hr).
      now rewrite normal_value_AVM, normalize_value_AVM by exact Ha'.
    + assert (E : normalize_value rec val = (Ok tt, val))
        by (destruct val; try discriminate; reflexivity).
      rewrite E in H. injection H as <-. split; [|exact E].
      destruct val; try discriminate; reflexivity.
Qed.

Lemma normalize_items_done :
  forall items items' : list (string * obj),
    normalize_items rec items = (Ok tt, items') ->
    forallb (fun kv => normal_value (snd kv)) items' = true
    /\ normalize_items rec items' = (Ok tt, items').
Proof.
  induction items as [|[attr val] items IH]; intros items' H.
  - cbn in H. injection H as <-. now split.
  - cbn [normalize_items] in H.
    destruct (normalize_value rec val) as [[[]|e] val'] eqn:Ev;
      [|discriminate H].
    destruct (normalize_items rec items) as [r items''] eqn:Eits.
    injection H as -> <-.
    destruct (@normalize_value_done _ _ Ev) as (Hn & Hv).
    destruct (IH _ eq_refl) as (IH1 & IH2).
    split.
    + cbn [forallb snd]. now rewrite Hn, IH1.
    + cbn [normalize_items]. now rewrite Hv, IH2.
Qed.

End NormalizeOnce.

(** What [normalize] leaves when it returns is an AVM in normal form, on
    which a second call changes nothing. *)
Lemma normalize_done :
  forall (fuel : nat) (o o' : obj),
    normalize fuel o = (Ok tt, o') ->
    is_AVM o' = true /\ normal o' = true /\ normalize fuel o' = (Ok tt, o').
Proof.
  induction fuel as [|fuel IH]; intros o o' H; [discriminate H|].
  rewrite normalize_unfold in H.
  destruct (is_AVM o) eqn:Ha; [|discriminate H].
  destruct (as_fs o) as [[items|]|] eqn:Efs; try discriminate H.
  destruct (normalize_items (normalize fuel) items) as [r items'] eqn:Eits.
  injection H as -> <-.
  destruct (@normalize_items_done _ IH _ _ Eits) as (Hn & Hagain).
  repeat split.
  - now rewrite is_AVM_with_fs.
  - rewrite normal_as_fs by now rewrite is_AVM_with_fs.
    now rewrite as_fs_with_fs.
  - rewrite normalize_unfold, is_AVM_with_fs, Ha, as_fs_with_fs by exact Ha.
    now rewrite Hagain, with_fs_with_fs.
Qed.

Section NormalizeOutcome.
Variables (rec : obj -> result unit * obj) (bound : nat).
Hypothesis Hrec :
  forall o o' : obj,
    rec o = (Ok tt, o') ->
    is_AVM o' = true /\ normal o' = true /\ rec o' = (Ok tt, o').
Hypothesis Hout :
  forall o : obj,
    is_AVM o = true -> obj_depth o <= bound ->
    exists o', rec o = (outcome (closed_free o), o').

Lemma normalize_terms_outcome :
  forall terms : list obj,
    Forall (fun t => obj_depth t <= bound) terms ->
    exists terms',
      normalize_terms rec terms
      = (outcome (forallb (fun t => if is_AVM t then closed_free t else true)
                    terms), terms').
Proof.
  induction terms as [|t terms IH]; intros Hd.
  - now exists [].
  - inversion Hd as [|? ? Ht Hts]; subst.
    destruct (IH Hts) as (terms' & Ets).
    cbn [normalize_terms forallb].
    destruct (is_AVM t) eqn:Ha.
    + destruct (Hout t Ha Ht) as (t' & Et). rewrite Et.
      destruct (closed_free t); cbn [outcome andb].
      * rewrite Ets. eexists; reflexivity.
      * eexists; reflexivity.
    + rewrite Ets. cbn [andb]. eexists; reflexivity.
Qed.

Lemma normalize_value_outcome (val : obj) :
  obj_depth val <= bound ->
  exists val', normalize_value rec val = (outcome (free_value val), val').
Proof.
  intros Hd.
  destruct (is_Conjunction val) eqn:Hconj.
  - destruct val; try discriminate Hconj.
    cbn [obj_depth] in Hd.
    assert (Hts : Forall (fun t => obj_depth t <= bound) terms).
    { assert (Hmax : list_max (map obj_depth terms) <= bound) by lia.
      apply list_max_le in Hmax. now apply Forall_map in Hmax. }
    destruct (normalize_terms_outcome Hts) as (terms' & Ets).
    cbn [normalize_value free_value]. rewrite Ets.
    destruct (forallb _ terms); cbn [outcome]; [|eexists; reflexivity].
    destruct (@normalize_terms_done rec Hrec _ _ Ets) as (_ & _ & Hone).
    destruct terms' as [|t [|? ?]]; try (eexists; reflexivity).
    destruct (is_AVM t) eqn:Ha; [|eexists; reflexivity].
    rewrite (Hone t eq_refl Ha). eexists; reflexivity.
  - destruct (is_AVM val) eqn:Ha.
    + rewrite normalize_value_AVM, free_value_AVM by exact Ha.
      now apply Hout.
    + exists val. destruct val; try discriminate; reflexivity.
Qed.

Lemma normalize_items_outcome :
  forall items : list (string * obj),
    Forall (fun kv => obj_depth (snd kv) <= bound) items ->
    exists items',
      normalize_items rec items
      = (outcome (forallb (fun kv => free_value (snd kv)) items), items').
Proof.
  induction items as [|[attr val] items IH]; intros Hd.
  - now exists [].
  - inversion Hd as [|? ? Hv Hits]; subst. cbn [snd] in Hv.
    destruct (IH Hits) as (items' & Eits).
    destruct (@normalize_value_outcome val Hv) as (val' & Ev).
    cbn [normalize_items forallb snd]. rewrite Ev.
    destruct (free_value val); cbn [outcome andb].
    + rewrite Eits. eexists; reflexivity.
    + eexists; reflexivity.
Qed.

End NormalizeOutcome.

(** With fuel for its depth, [normalize] returns when the structure has
    no closed structure where the method goes, and raises [TypeError]
    when it has one. *)
Lemma normalize_outcome :
  forall (fuel : nat) (o : obj),
    is_AVM o = true ->
    obj_depth o <= fuel ->
    exists o', normalize fuel o = (outcome (closed_free o), o').
Proof.
  induction fuel as [|fuel IH]; intros o Ha Hd.
  - destruct o; try discriminate Ha; cbn [obj_depth] in Hd;
      repeat match goal with
             | a : option _ |- _ => destruct a
             | c : ConsList_ _ |- _ => destruct c as [[?|] ? ? ?]
             end; cbn in Hd; lia.
  - rewrite normalize_unfold, Ha, (closed_free_as_fs o Ha).
    destruct (as_fs_AVM o Ha) as ([items|] & Efs); rewrite Efs.
    + rewrite (obj_depth_as_fs o Ha Efs) in Hd.
      assert (Hits : Forall (fun kv => obj_depth (snd kv) <= fuel) items).
      { assert (Hmax : list_max (map (fun kv => obj_depth (snd kv)) items)
                       <= fuel) by lia.
        apply list_max_le in Hmax. now apply Forall_map in Hmax. }
      destruct (@normalize_items_outcome (normalize fuel) fuel
                  (@normalize_done fuel) IH items Hits)
        as (items' & Eits).
      rewrite Eits. eexists; reflexivity.
    + exists o. reflexivity.
Qed.

(** X27. On an AVM in which no structure that the method reaches is
    closed, [normalize] returns, given fuel for the depth of the AVM; the
    AVM is then in normal form (no feature, in it or in the structures
    reached, has for value a conjunction whose only term is an AVM), and a
    second call returns and changes nothing. *)
Theorem normalize_gives_normal_form (fuel : nat) (o : obj) :
  is_AVM o = true ->
  closed_free o = true ->
  obj_depth o <= fuel ->
  exists o' : obj,
    normalize fuel o = (Ok tt, o')
    /\ normal o' = true
    /\ normalize fuel o' = (Ok tt, o').
Proof.
  intros Ha Hfree Hd.
  destruct (normalize_outcome o Ha Hd) as (o' & E).
  rewrite Hfree in E. exists o'.
  destruct (@normalize_done fuel o o' E) as (_ & Hn & Hagain).
  now repeat split.
Qed.

Lemma normalize_gives_normal_form_witness :
  exists o' : obj,
    normalize 5
      (AVM (Some [("A", Conjunction
                          [AVM (Some [("B", Conjunction
                                              [TypeIdentifier "v" None])])
                             None]);
                  ("C", Conjunction [TypeIdentifier "w" None;
                                     AVM (Some []) None])]) None)
    = (Ok tt, o')
    /\ normal o' = true
    /\ normalize 5 o' = (Ok tt, o').
Proof.
  apply (@normalize_gives_normal_form 5
           (AVM (Some [("A", Conjunction
                               [AVM (Some [("B", Conjunction
                                                   [TypeIdentifier "v" None])])
                                  None]);
                       ("C", Conjunction [TypeIdentifier "w" None;
                                          AVM (Some []) None])]) None)).
  - reflexivity.
  - reflexivity.
  - cbn. lia.
Defined.

(** X28. On an AVM in which a structure that the method reaches is
    closed, as the empty list is after [terminate], [normalize] raises
    [TypeError], given fuel for the depth of the AVM: the loop over the
    features of the closed structure runs over [None]. *)
Theorem normalize_raises_on_closed (fuel : nat) (o : obj) :
  is_AVM o = true ->
  closed_free o = false ->
  obj_depth o <= fuel ->
  exists o' : obj,
    normalize fuel o
    = (Raise (TypeError "'NoneType' object is not iterable"), o').
Proof.
  intros Ha Hfree Hd.
  destruct (normalize_outcome o Ha Hd) as (o' & E).
  rewrite Hfree in E. now exists o'.
Qed.

Lemma normalize_raises_on_closed_witness :
  exists o' : obj,
    normalize 3
      (AVM (Some [("F", Conjunction [ConsList (mkConsList None "" true None)])])
         None)
    = (Raise (TypeError "'NoneType' object is not iterable"), o').
Proof.
  apply (@normalize_raises_on_closed 3
           (AVM (Some [("F", Conjunction
                               [ConsList (mkConsList None "" true None)])])
              None)).
  - reflexivity.
  - reflexivity.
  - cbn. lia.
Defined.

(** ** The token-stream parser: feature structures *)

Lemma conj_tokens_head (t0 : simple_term) (more : list (nat * simple_term))
  (rest : list Token) :
  simple_gid (st_gid t0) = true ->
  exists (tk : Token) (tl : list Token),
    (conj_tokens t0 more ++ rest)%list = tk :: tl
    /\ _is_comment tk = false /\ tok_gid tk <> 10.
Proof.
  intros Hg. unfold conj_tokens, simple_tokens.
  destruct t0 as [[[d dl]|] g txt ln]; cbn [st_doc st_gid st_text st_line] in *;
    cbn [doc_tokens app]; rewrite <- ?app_assoc; cbn [app];
    eexists _, _; (split; [reflexivity|]).
  - split; [reflexivity | discriminate].
  - split; [now apply simple_not_comment|].
    apply simple_gid_cases in Hg. unfold tok_gid. cbn [fst]. lia.
Qed.

Lemma conj_tokens_length (t0 : simple_term) (more : list (nat * simple_term)) :
  length more + 1 <= length (conj_tokens t0 more).
Proof.
  unfold conj_tokens. rewrite length_app.
  assert (H0 : 1 <= length (simple_tokens t0))
    by (unfold simple_tokens; rewrite length_app; cbn [length]; lia).
  revert H0. generalize (length (simple_tokens t0)). intros n Hn.
  induction more as [|lt more IH]; [cbn [flat_map length]; lia|].
  cbn [flat_map length]. rewrite length_app.
  unfold Token in *. cbn [length]. lia.
Qed.

Lemma path_tokens_length (path : list (nat * (string * nat))) :
  length (path_tokens path) = 2 * length path.
Proof.
  induction path as [|d path IH]; [reflexivity|].
  unfold path_tokens in *. cbn [flat_map length app]. rewrite IH. lia.
Qed.

Lemma path_loop_unfold (fuel : nat) (path : list string) (line_no nextgid : nat) :
  path_loop (S fuel) path line_no nextgid
  = if (nextgid =? 10)%nat then
      (_ <- tokens_next ;;
       '(gid, token, line_no, nextgid) <- _shift ;;
       if negb (gid =? 24)%nat then raise AssertionError
       else path_loop fuel (path ++ [token])%list line_no nextgid)%py
    else ret (path, line_no, nextgid).
Proof. reflexivity. Qed.

(** The loop that reads the names after the first one of a dotted path. *)
Lemma path_loop_names (tk : Token) (tl : list Token) :
  _is_comment tk = false ->
  tok_gid tk <> 10 ->
  forall (path : list (nat * (string * nat))) (acc : list string)
         (line fuel : nat),
    length path < fuel ->
    exists line' : nat,
      path_loop fuel acc line (first_gid (path_tokens path ++ tk :: tl))
        (path_tokens path ++ tk :: tl)%list
      = (Ok ((acc ++ map (fun d => fst (snd d)) path)%list, line', tok_gid tk),
         tk :: tl).
Proof.
  intros Hc H10. apply Nat.eqb_neq in H10.
  induction path as [|[dl [a l]] path IH]; intros acc line fuel Hfuel;
    (destruct fuel as [|fuel]; [inversion Hfuel|]);
    rewrite path_loop_unfold.
  - cbn [path_tokens flat_map app first_gid map]. rewrite H10, app_nil_r.
    now exists line.
  - unfold path_tokens. cbn [flat_map app first_gid tok_gid fst snd Nat.eqb].
    fold (path_tokens path).
    unfold bind at 1. cbn [tokens_next].
    assert (Hnext : exists t1 tl1,
               (path_tokens path ++ tk :: tl)%list = t1 :: tl1
               /\ _is_comment t1 = false).
    { destruct path as [|[dl' [a' l']] path'].
      - now exists tk, tl.
      - unfold path_tokens. cbn [flat_map app]. eexists _, _. now split. }
    destruct Hnext as (t1 & tl1 & E1 & Hc1).
    assert (Hshift : _shift ((24, a, l) :: path_tokens path ++ tk :: tl)%list
                     = (Ok (24, a, l,
                            first_gid (path_tokens path ++ tk :: tl)),
                        (path_tokens path ++ tk :: tl)%list)).
    { rewrite E1. now apply (shift_significant (24, a, l)). }
    unfold bind at 1. rewrite_shift Hshift. cbn [Nat.eqb negb].
    destruct (IH (acc ++ [a])%list l fuel) as (line' & E);
      [cbn [length] in Hfuel; lia|].
    exists line'.
    etransitivity; [exact E|].
    cbn [map fst snd]. now rewrite <- app_assoc.
Qed.

Lemma conj_objs_flat (t0 : simple_term) (more : list (nat * simple_term)) :
  simple_terms_ok t0 more = true -> flat (conj_objs t0 more) = true.
Proof.
  unfold simple_terms_ok. intros H. apply andb_prop in H as [Hg Hmore].
  unfold flat, conj_objs. cbn [forallb]. apply andb_true_intro. split.
  - unfold simple_obj. apply simple_gid_cases in Hg.
    destruct Hg as [-> | [-> | [-> | [-> | ->]]]]; reflexivity.
  - rewrite forallb_forall in Hmore |- *.
    intros o Ho. apply in_map_iff in Ho as [lt [<- Hlt]].
    specialize (Hmore lt Hlt). unfold simple_obj.
    apply simple_gid_cases in Hmore.
    destruct Hmore as [-> | [-> | [-> | [-> | ->]]]]; reflexivity.
Qed.

(** A conjunction of one-token terms, read up to a token that is not [&]. *)
Lemma _parse_tdl_conjunction_simple (t0 : simple_term)
  (more : list (nat * simple_term)) (nxt : Token) (tail : list Token)
  (fuel : nat) :
  simple_terms_ok t0 more = true ->
  _is_comment nxt = false -> tok_gid nxt <> 11 ->
  length more + 2 < fuel ->
  _parse_tdl_conjunction fuel (conj_tokens t0 more ++ nxt :: tail)%list
  = (Ok (Conjunction (conj_objs t0 more), tok_gid nxt), nxt :: tail).
Proof.
  intros Hok Hn H11 Hfuel.
  pose proof (conj_objs_flat _ _ Hok) as Hflat.
  unfold simple_terms_ok in Hok. apply andb_prop in Hok as [Hg Hmore].
  destruct fuel as [|fuel]; [inversion Hfuel|].
  cbn [_parse_tdl_conjunction]. unfold bind at 1.
  rewrite (@conjunction_loop_simple nxt tail Hn H11 more t0 [] fuel Hg Hmore)
    by lia.
  cbn [app]. unfold bind at 1, lift.
  unfold Conjunction_init. rewrite (for_each_add_flat _ [] Hflat).
  reflexivity.
Qed.

Lemma feature_loop_unfold (fuel : nat) (feats : list (string * obj))
  (gid : nat) (token : string) (line_no nextgid : nat) :
  feature_loop (S fuel) feats gid token line_no nextgid
  = if negb (gid =? 24)%nat then
      raise (TdlParsingError "Expected a feature name" (Some line_no) None)
    else
      ('(path, line_no, nextgid) <- path_loop fuel [token] line_no nextgid ;;
       let attr := join_dot path in
       '(conjunction, nextgid) <- _parse_tdl_conjunction fuel ;;
       let feats := (feats ++ [(attr, conjunction)])%list in
       if (nextgid =? 12)%nat then
         _ <- tokens_next ;;
         '(gid, token, line_no, nextgid) <- _shift ;;
         feature_loop fuel feats gid token line_no nextgid
       else if (nextgid =? 16)%nat then
         '(gid, _, _, nextgid) <- _shift ;;
         ret (feats, gid, nextgid)
       else raise (TdlParsingError "Expected: , or ]" (Some line_no) None))%py.
Proof. reflexivity. Qed.

Lemma after_name_head (f : simple_feature) (rest : list Token) :
  simple_terms_ok (sf_t0 f) (sf_more f) = true ->
  exists (t1 : Token) (tl1 : list Token),
    (after_name f ++ rest)%list = t1 :: tl1 /\ _is_comment t1 = false.
Proof.
  intros Hok. unfold simple_terms_ok in Hok. apply andb_prop in Hok as [Hg _].
  unfold after_name. destruct (sf_path f) as [|[dl [a l]] path].
  - cbn [path_tokens flat_map app].
    destruct (@conj_tokens_head (sf_t0 f) (sf_more f) rest Hg)
      as (tk & tl & E & Hc & _).
    now exists tk, tl.
  - unfold path_tokens. cbn [flat_map app]. eexists _, _. now split.
Qed.

(** The names of a feature, read by the loop over its dotted path. *)
Lemma path_loop_feature (f : simple_feature) (rest : list Token) (fuel : nat) :
  simple_feature_ok f = true ->
  length (sf_path f) < fuel ->
  exists line' g' : nat,
    path_loop fuel [sf_name f] (sf_line f) (first_gid (after_name f ++ rest))
      (after_name f ++ rest)%list
    = (Ok (sf_name f :: map (fun d => fst (snd d)) (sf_path f), line', g'),
       (conj_tokens (sf_t0 f) (sf_more f) ++ rest)%list).
Proof.
  intros Hok Hfuel. unfold simple_feature_ok, simple_terms_ok in Hok.
  apply andb_prop in Hok as [Hg _].
  unfold after_name. rewrite <- app_assoc.
  destruct (@conj_tokens_head (sf_t0 f) (sf_more f) rest Hg)
    as (tk & tl & E & Hc & H10).
  rewrite E.
  destruct (@path_loop_names tk tl Hc H10 (sf_path f) [sf_name f] (sf_line f)
              fuel Hfuel) as (line' & Ep).
  exists line', (tok_gid tk). exact Ep.
Qed.

Lemma feature_tokens_length (f : simple_feature) :
  2 * length (sf_path f) + length (sf_more f) + 2 <= length (feature_tokens f).
Proof.
  unfold feature_tokens, after_name. cbn [length]. rewrite length_app.
  pose proof (path_tokens_length (sf_path f)) as Hp.
  pose proof (conj_tokens_length (sf_t0 f) (sf_more f)) as Hc.
  unfold Token in *. lia.
Qed.

Ltac rewrite_conjunction H :=
  match type of H with
  | _ = ?rhs =>
      match goal with
      | |- context [_parse_tdl_conjunction ?f ?ts] =>
          replace (_parse_tdl_conjunction f ts) with rhs
            by (symmetry; exact H)
      end
  end.

Ltac rewrite_path_loop H :=
  match type of H with
  | _ = ?rhs =>
      match goal with
      | |- context [path_loop ?a ?b ?c ?d ?e] =>
          replace (path_loop a b c d e) with rhs by (symmetry; exact H)
      end
  end.

(** The loop of [_parse_tdl_feature_structure] over features whose terms
    are one-token terms, up to the closing bracket. *)
Lemma feature_loop_simple (cl : nat) (nxt : Token) (tail : list Token) :
  _is_comment nxt = false ->
  forall (fs : list (nat * simple_feature)) (f0 : simple_feature)
         (feats : list (string * obj)) (fuel : nat),
    simple_feature_ok f0 = true ->
    forallb (fun cf => simple_feature_ok (snd cf)) fs = true ->
    length (features_tokens f0 fs) + 3 < fuel ->
    feature_loop fuel feats 24 (sf_name f0) (sf_line f0)
      (first_gid (after_name f0 ++ more_features fs
                    ++ (16, "]", cl) :: nxt :: tail))
      (after_name f0 ++ more_features fs ++ (16, "]", cl) :: nxt :: tail)%list
    = (Ok ((feats ++ map feature_pair (f0 :: map snd fs))%list, 16,
           tok_gid nxt),
       nxt :: tail).
Proof.
  intros Hn.
  induction fs as [|[c1 f1] fs IH]; intros f0 feats fuel Hok0 Hoks Hfuel;
    (destruct fuel as [|fuel]; [inversion Hfuel|]);
    rewrite feature_loop_unfold; cbn [Nat.eqb negb];
    pose proof (feature_tokens_length f0) as Hlen0;
    unfold features_tokens in Hfuel; rewrite length_app in Hfuel.
  - cbn [more_features flat_map app length] in Hfuel |- *.
    destruct (@path_loop_feature f0 ((16, "]", cl) :: nxt :: tail) fuel Hok0)
      as (line' & g' & Ep); [unfold Token in *; lia|].
    unfold bind at 1.
    rewrite_path_loop Ep.
    cbv beta iota zeta.
    unfold bind at 1.
    assert (Ec := @_parse_tdl_conjunction_simple (sf_t0 f0) (sf_more f0)
                    (16, "]", cl) (nxt :: tail) fuel Hok0 eq_refl
                    ltac:(discriminate) ltac:(unfold Token in *; lia)).
    rewrite_conjunction Ec.
    cbv beta iota zeta. cbn [tok_gid fst Nat.eqb].
    unfold bind at 1.
    rewrite_shift (@shift_significant (16, "]", cl) nxt tail eq_refl Hn).
    reflexivity.
  - cbn [forallb snd] in Hoks. apply andb_prop in Hoks as [Hok1 Hoks].
    cbn [more_features flat_map app length] in Hfuel |- *.
    fold (more_features fs) in Hfuel |- *.
    rewrite length_app in Hfuel.
    destruct (@path_loop_feature f0
                ((12, ",", c1) :: feature_tokens f1 ++ more_features fs
                   ++ (16, "]", cl) :: nxt :: tail)%list fuel Hok0)
      as (line' & g' & Ep); [unfold Token in *; lia|].
    rewrite <- !app_assoc. cbn [app].
    unfold bind at 1.
    rewrite_path_loop Ep.
    cbv beta iota zeta.
    unfold bind at 1.
    assert (Ec := @_parse_tdl_conjunction_simple (sf_t0 f0) (sf_more f0)
                    (12, ",", c1)
                    (feature_tokens f1 ++ more_features fs
                       ++ (16, "]", cl) :: nxt :: tail)%list fuel Hok0 eq_refl
                    ltac:(discriminate) ltac:(unfold Token in *; lia)).
    rewrite_conjunction Ec.
    cbv beta iota zeta. cbn [tok_gid fst Nat.eqb].
    unfold bind at 1. cbn [tokens_next].
    unfold feature_tokens. cbn [app].
    destruct (@after_name_head f1
                (more_features fs ++ (16, "]", cl) :: nxt :: tail)%list Hok1)
      as (t1 & tl1 & E1 & Hc1).
    assert (Hshift :
              _shift ((24, sf_name f1, sf_line f1)
                        :: (after_name f1 ++ more_features fs
                              ++ (16, "]", cl) :: nxt :: tail))%list
              = (Ok (24, sf_name f1, sf_line f1,
                     first_gid (after_name f1 ++ more_features fs
                                  ++ (16, "]", cl) :: nxt :: tail)),
                 (after_name f1 ++ more_features fs
                    ++ (16, "]", cl) :: nxt :: tail)%list)).
    { rewrite E1. now apply (shift_significant (24, sf_name f1, sf_line f1)). }
    unfold bind at 1. rewrite_shift Hshift.
    etransitivity;
      [apply (IH f1 (feats ++ [feature_pair f0])%list fuel Hok1 Hoks)|].
    + unfold features_tokens. rewrite length_app.
      cbn [snd] in Hfuel. unfold Token in *. lia.
    + cbn [map snd]. now rewrite <- app_assoc.
Qed.

(** X29. [_parse_tdl_feature_structure], called after the opening
    bracket, on the features [f0 , f1 , ... , fn] and the closing bracket,
    where each feature is a dotted path of names followed by a conjunction
    of one-token terms: it returns one
    pair for each feature, in the order written, of the names joined with
    dots and the conjunction of the terms, and the kind of the token after
    the closing bracket, which it leaves in the stream; on the closing
    bracket alone it returns no pair. *)
Theorem _parse_tdl_feature_structure_of_simple_features
  (cl : nat) (nxt : Token) (tail : list Token) (fuel : nat) :
  _is_comment nxt = false ->
  _parse_tdl_feature_structure (S fuel) ((16, "]", cl) :: nxt :: tail)
  = (Ok ([], tok_gid nxt), nxt :: tail)
  /\ forall (f0 : simple_feature) (fs : list (nat * simple_feature)),
      simple_feature_ok f0 = true ->
      forallb (fun cf => simple_feature_ok (snd cf)) fs = true ->
      length (features_tokens f0 fs) + 3 < fuel ->
      _parse_tdl_feature_structure (S fuel)
        (features_tokens f0 fs ++ (16, "]", cl) :: nxt :: tail)%list
      = (Ok (map feature_pair (f0 :: map snd fs), tok_gid nxt), nxt :: tail).
Proof.
  intros Hn. split.
  - cbn [_parse_tdl_feature_structure]. unfold bind at 1.
    rewrite_shift (@shift_significant (16, "]", cl) nxt tail eq_refl Hn).
    reflexivity.
  - intros f0 fs Hok0 Hoks Hfuel.
    cbn [_parse_tdl_feature_structure].
    unfold features_tokens, feature_tokens. rewrite <- !app_assoc.
    cbn [app].
    destruct (@after_name_head f0
                (more_features fs ++ (16, "]", cl) :: nxt :: tail)%list Hok0)
      as (t1 & tl1 & E1 & Hc1).
    assert (Hshift :
              _shift ((24, sf_name f0, sf_line f0)
                        :: (after_name f0 ++ more_features fs
                              ++ (16, "]", cl) :: nxt :: tail))%list
              = (Ok (24, sf_name f0, sf_line f0,
                     first_gid (after_name f0 ++ more_features fs
                                  ++ (16, "]", cl) :: nxt :: tail)),
                 (after_name f0 ++ more_features fs
                    ++ (16, "]", cl) :: nxt :: tail)%list)).
    { rewrite E1. now apply (shift_significant (24, sf_name f0, sf_line f0)). }
    unfold bind at 1. rewrite_shift Hshift.
    cbn [Nat.eqb negb]. unfold bind at 1.
    assert (El := @feature_loop_simple cl nxt tail Hn fs f0 [] fuel Hok0 Hoks
                    Hfuel).
    match goal with
    | |- context [feature_loop ?a ?b ?c ?d ?e ?f ?g] =>
        replace (feature_loop a b c d e f g)
          with (Ok (([] ++ map feature_pair (f0 :: map snd fs))%list, 16,
                    tok_gid nxt), nxt :: tail)
          by (symmetry; exact El)
    end.
    reflexivity.
Qed.

Lemma _parse_tdl_feature_structure_of_simple_features_witness :
  _parse_tdl_feature_structure 20
    (features_tokens
       (mkFeature "SYNSEM" 1 [(1, ("LOCAL", 1)); (1, ("CAT", 1))]
          (mkSimple None 24 "noun" 1) [(1, mkSimple None 19 "#c" 1)])
       [(1, mkFeature "ORTH" 2 [] (mkSimple None 4 "dog" 2) [])]
       ++ (16, "]", 2) :: (10, ".", 2) :: [])%list
  = (Ok ([("SYNSEM.LOCAL.CAT",
           Conjunction [TypeIdentifier "noun" None;
                        Coreference (Some "#c") None]);
          ("ORTH", Conjunction [String "dog" None])], 10),
     [(10, ".", 2)]).
Proof.
  apply (proj2 (@_parse_tdl_feature_structure_of_simple_features 2
                  (10, ".", 2) [] 19 eq_refl)
           (mkFeature "SYNSEM" 1 [(1, ("LOCAL", 1)); (1, ("CAT", 1))]
              (mkSimple None 24 "noun" 1) [(1, mkSimple None 19 "#c" 1)])
           [(1, mkFeature "ORTH" 2 [] (mkSimple None 4 "dog" 2) [])]).
  - reflexivity.
  - reflexivity.
  - cbn. lia.
Defined.

(** ** The token-stream parser: lists *)

Lemma list_loop_unfold (fuel break_gid : nat) (values : list obj)
  (nextgid : nat) :
  list_loop (S fuel) break_gid values nextgid
  = if (nextgid =? 9)%nat then
      ('(_, _, _, nextgid) <- _shift ;;
       ret (values, PyStr LIST_TYPE, nextgid))%py
    else
      ('(term, nextgid) <- _parse_tdl_conjunction fuel ;;
       let values := (values ++ [term])%list in
       if (nextgid =? 10)%nat then
         _ <- tokens_next ;;
         '(end_, nextgid) <- _parse_tdl_conjunction fuel ;;
         ret (values, end_, nextgid)
       else if (nextgid =? break_gid)%nat then ret (values, PyNone, nextgid)
       else if (nextgid =? 12)%nat then
         '(_, _, _, nextgid) <- _shift ;;
         list_loop fuel break_gid values nextgid
       else raise (TdlParsingError "Expected: comma or end of list" None None))%py.
Proof. reflexivity. Qed.

Lemma item_tokens_head (c : simple_item) (rest : list Token) :
  simple_item_ok c = true ->
  exists (tk : Token) (tl : list Token),
    (item_tokens c ++ rest)%list = tk :: tl
    /\ _is_comment tk = false
    /\ (tok_gid tk =? 9)%nat = false.
Proof.
  intros Hok. unfold simple_item_ok, simple_terms_ok in Hok.
  apply andb_prop in Hok as [Hg _].
  unfold item_tokens, conj_tokens, simple_tokens.
  destruct (fst c) as [[[d dl]|] g txt ln];
    cbn [st_doc st_gid st_text st_line] in *;
    cbn [doc_tokens app]; rewrite <- ?app_assoc; cbn [app];
    eexists _, _; (split; [reflexivity|]).
  - now split.
  - split; [now apply simple_not_comment|].
    apply simple_gid_cases in Hg. apply Nat.eqb_neq.
    unfold tok_gid. cbn [fst]. lia.
Qed.

Lemma item_tokens_length (c : simple_item) :
  length (snd c) + 1 <= length (item_tokens c).
Proof. apply conj_tokens_length. Qed.

(** The loop of [_parse_tdl_list] over items of one-token terms, up to
    the closing bracket, which it leaves in the stream. *)
Lemma list_loop_simple (break_gid : nat) (closer : Token) (tail : list Token) :
  tok_gid closer = break_gid ->
  _is_comment closer = false ->
  break_gid <> 10 -> break_gid <> 11 -> break_gid <> 12 ->
  forall (cs : list (nat * simple_item)) (c0 : simple_item)
         (values : list obj) (fuel : nat),
    simple_item_ok c0 = true ->
    forallb (fun lc => simple_item_ok (snd lc)) cs = true ->
    length (item_tokens c0 ++ more_items cs) + 3 < fuel ->
    list_loop fuel break_gid values
      (first_gid (item_tokens c0 ++ more_items cs ++ closer :: tail))
      (item_tokens c0 ++ more_items cs ++ closer :: tail)%list
    = (Ok ((values ++ map item_value (c0 :: map snd cs))%list, PyNone,
           break_gid),
       closer :: tail).
Proof.
  intros Hcl Hcc H10 H11 H12.
  induction cs as [|[l1 c1] cs IH]; intros c0 values fuel Hok0 Hoks Hfuel;
    (destruct fuel as [|fuel]; [inversion Hfuel|]);
    rewrite list_loop_unfold;
    pose proof (item_tokens_length c0) as Hlen0;
    rewrite length_app in Hfuel.
  - destruct (@item_tokens_head c0 (more_items [] ++ closer :: tail)%list Hok0)
      as (tk & tl & E & Hc & H9).
    rewrite E. cbn [first_gid]. rewrite H9. rewrite <- E.
    cbn [more_items flat_map app length] in Hfuel |- *.
    assert (Ec := @_parse_tdl_conjunction_simple (fst c0) (snd c0) closer tail
                    fuel Hok0 Hcc ltac:(rewrite Hcl; exact H11)
                    ltac:(unfold Token in *; lia)).
    unfold bind at 1. unfold item_tokens. rewrite_conjunction Ec.
    cbv beta iota zeta. rewrite Hcl.
    replace (break_gid =? 10)%nat with false
      by (symmetry; now apply Nat.eqb_neq).
    rewrite Nat.eqb_refl. reflexivity.
  - destruct (@item_tokens_head c0
                (more_items ((l1, c1) :: cs) ++ closer :: tail)%list Hok0)
      as (tk & tl & E & Hc & H9).
    rewrite E. cbn [first_gid]. rewrite H9. rewrite <- E.
    cbn [forallb snd] in Hoks. apply andb_prop in Hoks as [Hok1 Hoks].
    cbn [more_items flat_map app length fst snd] in Hfuel |- *.
    fold (more_items cs) in Hfuel |- *.
    rewrite length_app in Hfuel.
    rewrite <- !app_assoc. cbn [app].
    assert (Ec := @_parse_tdl_conjunction_simple (fst c0) (snd c0)
                    (12, ",", l1)
                    (item_tokens c1 ++ more_items cs ++ closer :: tail)%list
                    fuel Hok0 eq_refl ltac:(discriminate)
                    ltac:(unfold Token in *; lia)).
    unfold bind at 1. unfold item_tokens at 1. rewrite_conjunction Ec.
    cbv beta iota zeta. cbn [tok_gid fst].
    replace (12 =? break_gid)%nat with false
      by (symmetry; apply Nat.eqb_neq; lia).
    cbn [Nat.eqb].
    destruct (@item_tokens_head c1 (more_items cs ++ closer :: tail)%list Hok1)
      as (t1 & tl1 & E1 & Hc1 & _).
    assert (Hshift :
              _shift ((12, ",", l1)
                        :: (item_tokens c1 ++ more_items cs
                              ++ closer :: tail))%list
              = (Ok (12, ",", l1,
                     first_gid (item_tokens c1 ++ more_items cs
                                  ++ closer :: tail)),
                 (item_tokens c1 ++ more_items cs ++ closer :: tail)%list)).
    { rewrite E1. now apply (shift_significant (12, ",", l1)). }
    unfold bind at 1. rewrite_shift Hshift.
    etransitivity;
      [apply (IH c1 (values ++ [item_value c0])%list fuel Hok1 Hoks)|].
    + rewrite length_app. unfold Token in *. lia.
    + cbn [map snd]. now rewrite <- app_assoc.
Qed.

Lemma item_tokens_first (c : simple_item) (rest : list Token) :
  simple_item_ok c = true ->
  exists (tk : Token) (tl : list Token),
    (item_tokens c ++ rest)%list = tk :: tl
    /\ _is_comment tk = false
    /\ tok_gid tk <> 17 /\ tok_gid tk <> 18.
Proof.
  intros Hok. unfold simple_item_ok, simple_terms_ok in Hok.
  apply andb_prop in Hok as [Hg _].
  unfold item_tokens, conj_tokens, simple_tokens.
  destruct (fst c) as [[[d dl]|] g txt ln];
    cbn [st_doc st_gid st_text st_line] in *;
    cbn [doc_tokens app]; rewrite <- ?app_assoc; cbn [app];
    eexists _, _; (split; [reflexivity|]).
  - split; [reflexivity|]. unfold tok_gid. cbn [fst]. lia.
  - split; [now apply simple_not_comment|].
    apply simple_gid_cases in Hg. unfold tok_gid. cbn [fst]. lia.
Qed.

(** X30. [_parse_tdl_list], called after the opening bracket of a list
    or of a diff-list, on [c0 , c1 , ... , cn] and the closing bracket,
    each item a conjunction of one-token terms: it returns the conjunctions
    of the items in the order written, no end of the list, and the kind of
    the token after the closing bracket, which it leaves in the stream; on
    the closing bracket alone it returns no value and the empty list type
    as the end. *)
Theorem _parse_tdl_list_of_simple_items
  (break_gid : nat) (text : string) (line : nat) (nxt : Token)
  (tail : list Token) (fuel : nat) :
  break_gid = 17 \/ break_gid = 18 ->
  _is_comment nxt = false ->
  _parse_tdl_list (S fuel) break_gid ((break_gid, text, line) :: nxt :: tail)
  = (Ok ([], PyStr EMPTY_LIST_TYPE, tok_gid nxt), nxt :: tail)
  /\ forall (c0 : simple_item) (cs : list (nat * simple_item)),
      simple_item_ok c0 = true ->
      forallb (fun lc => simple_item_ok (snd lc)) cs = true ->
      length (item_tokens c0 ++ more_items cs) + 3 < fuel ->
      _parse_tdl_list (S fuel) break_gid
        (item_tokens c0 ++ more_items cs
           ++ (break_gid, text, line) :: nxt :: tail)%list
      = (Ok (map item_value (c0 :: map snd cs), PyNone, tok_gid nxt),
         nxt :: tail).
Proof.
  intros Hb Hn.
  assert (Hcc : _is_comment (break_gid, text, line) = false)
    by (destruct Hb as [-> | ->]; reflexivity).
  assert (Hshift := @shift_significant (break_gid, text, line) nxt tail Hcc Hn).
  cbn [fst snd] in Hshift.
  split.
  - cbn [_parse_tdl_list]. unfold bind at 1, _peek. cbn [tokens_peek].
    rewrite Hcc. cbv beta iota zeta. unfold tok_gid at 1. cbn [fst].
    rewrite Nat.eqb_refl.
    unfold bind at 1. unfold bind at 1. rewrite_shift Hshift.
    reflexivity.
  - intros c0 cs Hok0 Hoks Hfuel.
    destruct (@item_tokens_first c0
                (more_items cs ++ (break_gid, text, line) :: nxt :: tail)%list
                Hok0) as (tk & tl & E & Hc & H17 & H18).
    cbn [_parse_tdl_list]. unfold bind at 1, _peek.
    assert (Epeek :
              tokens_peek 0
                (item_tokens c0 ++ more_items cs
                   ++ (break_gid, text, line) :: nxt :: tail)%list
              = (Ok tk,
                 (item_tokens c0 ++ more_items cs
                    ++ (break_gid, text, line) :: nxt :: tail)%list)).
    { rewrite E. cbn [tokens_peek]. now rewrite Hc. }
    match goal with
    | |- context [tokens_peek 0 ?ts] =>
        replace (tokens_peek 0 ts)
          with (Ok tk,
                (item_tokens c0 ++ more_items cs
                   ++ (break_gid, text, line) :: nxt :: tail)%list)
          by (symmetry; exact Epeek)
    end.
    cbv beta iota zeta.
    replace (tok_gid tk =? break_gid)%nat with false
      by (symmetry; apply Nat.eqb_neq; destruct Hb as [-> | ->]; assumption).
    unfold bind at 1. unfold bind at 1.
    assert (El := @list_loop_simple break_gid (break_gid, text, line)
                    (nxt :: tail) eq_refl Hcc
                    ltac:(destruct Hb as [-> | ->]; discriminate)
                    ltac:(destruct Hb as [-> | ->]; discriminate)
                    ltac:(destruct Hb as [-> | ->]; discriminate)
                    cs c0 [] fuel Hok0 Hoks Hfuel).
    replace (tok_gid tk)
      with (first_gid (item_tokens c0 ++ more_items cs
                         ++ (break_gid, text, line) :: nxt :: tail))
      by (now rewrite E).
    match goal with
    | |- context [list_loop ?a ?b ?c ?d ?e] =>
        replace (list_loop a b c d e)
          with (Ok (([] ++ map item_value (c0 :: map snd cs))%list, PyNone,
                    break_gid), (break_gid, text, line) :: nxt :: tail)
          by (symmetry; exact El)
    end.
    cbv beta iota zeta. cbn [app].
    unfold bind at 1. rewrite_shift Hshift.
    cbv beta iota zeta. rewrite Nat.eqb_refl. reflexivity.
Qed.

Lemma _parse_tdl_list_of_simple_items_witness :
  _parse_tdl_list 12 18
    (item_tokens (mkSimple None 24 "a" 1, [(1, mkSimple None 19 "#x" 1)])
       ++ more_items [(1, (mkSimple None 4 "b" 2, []))]
       ++ (18, ">", 2) :: (10, ".", 2) :: [])%list
  = (Ok ([Conjunction [TypeIdentifier "a" None; Coreference (Some "#x") None];
          Conjunction [String "b" None]], PyNone, 10),
     [(10, ".", 2)]).
Proof.
  apply (proj2 (@_parse_tdl_list_of_simple_items 18 ">" 2 (10, ".", 2) [] 11
                  (or_intror eq_refl) eq_refl)
           (mkSimple None 24 "a" 1, [(1, mkSimple None 19 "#x" 1)])
           [(1, (mkSimple None 4 "b" 2, []))]).
  - reflexivity.
  - reflexivity.
  - cbn. lia.
Defined.
